(** * OpenAPI tool compiler and MCP client: a shallow embedding

    The development follows [build/api.js] and [build/mcp_api_executor.js]:
    the JavaScript values the code inspects, the local reference resolver,
    the schema mapper, the security scan, the tool generator, the
    token/cache client and the tool executor.

    Conventions of the embedding.
    - A JavaScript string is the list of bytes of its UTF-8 encoding.
    - A JavaScript number is an integer ([Z]); floating point is not modelled.
    - A parsed document is a finite tree of [value]s; an object is the list
      of its own enumerable properties in enumeration order.  A document in
      which a YAML alias points back to a node that encloses it is a cyclic
      graph and has no [value]: statements about every document are about
      every tree.
    - Names inherited from the built-in prototypes are not part of a node:
      [JS.has] and [JS.get] agree with [in] and with a property read on the
      keys that are own keys or that no prototype defines, and the
      statements that look keys up say so.
    - A thrown exception is the [Throw] case of [result].  [console] output
      is not modelled, but a conversion made to build a logged line is,
      wherever the value converted comes from parsed data and the
      conversion can throw. *)

From Stdlib Require Import ZArith List String Ascii Bool Lia.
From stdpp Require Import base option list strings gmap pretty.
Import ListNotations.
Local Open Scope string_scope.
Local Open Scope Z_scope.

(** ** JavaScript values *)

Local Set Warnings "-register-all".

Inductive value : Type :=
| VUndef
| VNull
| VBool (b : bool)
| VNum (n : Z)
| VStr (s : string)
| VArr (elems : list value)
| VObj (props : list (string * value)).

(** ** String primitives *)

Module Str.

Definition is_digit (c : ascii) : bool :=
  let n := N_of_ascii c in ((48 <=? n) && (n <=? 57))%N.
Definition is_upper (c : ascii) : bool :=
  let n := N_of_ascii c in ((65 <=? n) && (n <=? 90))%N.
Definition is_lower (c : ascii) : bool :=
  let n := N_of_ascii c in ((97 <=? n) && (n <=? 122))%N.
Definition is_underscore (c : ascii) : bool := Ascii.eqb c "_".

(** The class [[a-zA-Z0-9_]]. *)
Definition is_word (c : ascii) : bool :=
  is_lower c || is_upper c || is_digit c || is_underscore c.

Fixpoint startsWith (p s : string) : bool :=
  match p, s with
  | EmptyString, _ => true
  | String a p', String b s' => Ascii.eqb a b && startsWith p' s'
  | String _ _, EmptyString => false
  end.

(** [s.substring(n)]. *)
Fixpoint substring_from (n : nat) (s : string) : string :=
  match n, s with
  | O, _ => s
  | S n', String _ r => substring_from n' r
  | S _, EmptyString => EmptyString
  end.

(** [s.split(sep)] for a one-character separator. *)
Fixpoint split (sep : ascii) (s : string) : list string :=
  match s with
  | EmptyString => [EmptyString]
  | String c r =>
      if Ascii.eqb c sep then EmptyString :: split sep r
      else match split sep r with
           | h :: t => String c h :: t
           | [] => [String c EmptyString]
           end
  end.

(** [s.replace(/ab/g, r)] for a two-character literal pattern [ab]. *)
Fixpoint replace2 (a b : ascii) (r : ascii) (s : string) : string :=
  match s with
  | EmptyString => EmptyString
  | String c rest =>
      match rest with
      | String d rest' =>
          if Ascii.eqb c a && Ascii.eqb d b
          then String r (replace2 a b r rest')
          else String c (replace2 a b r rest)
      | EmptyString => String c EmptyString
      end
  end.

Definition hex_digit (c : ascii) : option N :=
  let n := N_of_ascii c in
  if ((48 <=? n) && (n <=? 57))%N then Some (n - 48)%N
  else if ((65 <=? n) && (n <=? 70))%N then Some (n - 55)%N
  else if ((97 <=? n) && (n <=? 102))%N then Some (n - 87)%N
  else None.

Inductive uri_token : Type :=
| Raw (c : ascii)
| Pct (b : N).

(** Every [%] must be followed by two hexadecimal digits. *)
Fixpoint uri_tokens (s : string) : option (list uri_token) :=
  match s with
  | EmptyString => Some []
  | String c r =>
      if Ascii.eqb c "%" then
        match r with
        | String h (String l r') =>
            match hex_digit h, hex_digit l with
            | Some x, Some y =>
                match uri_tokens r' with
                | Some ts => Some (Pct (16 * x + y)%N :: ts)
                | None => None
                end
            | _, _ => None
            end
        | _ => None
        end
      else
        match uri_tokens r with
        | Some ts => Some (Raw c :: ts)
        | None => None
        end
  end.

Definition between (lo hi b : N) : bool := ((lo <=? b) && (b <=? hi))%N.
Definition continuation (b : N) : bool := between 128 191 b.

(** Second byte of a three-byte and of a four-byte sequence: no
    overlong form, no surrogate, nothing beyond U+10FFFF. *)
Definition second_of_3 (b b1 : N) : bool :=
  if (b =? 224)%N then between 160 191 b1
  else if (b =? 237)%N then between 128 159 b1
  else continuation b1.
Definition second_of_4 (b b1 : N) : bool :=
  if (b =? 240)%N then between 144 191 b1
  else if (b =? 244)%N then between 128 143 b1
  else continuation b1.

(** Escaped bytes must spell well-formed UTF-8, each character wholly
    from escapes; anything else is a URIError ([None]). *)
Fixpoint utf8_decode (ts : list uri_token) : option (list ascii) :=
  match ts with
  | [] => Some []
  | Raw c :: r =>
      match utf8_decode r with Some t => Some (c :: t) | None => None end
  | Pct b :: r =>
      if (b <? 128)%N then
        match utf8_decode r with
        | Some t => Some (ascii_of_N b :: t)
        | None => None
        end
      else if between 194 223 b then
        match r with
        | Pct b1 :: r1 =>
            if continuation b1 then
              match utf8_decode r1 with
              | Some t => Some (ascii_of_N b :: ascii_of_N b1 :: t)
              | None => None
              end
            else None
        | _ => None
        end
      else if between 224 239 b then
        match r with
        | Pct b1 :: Pct b2 :: r2 =>
            if second_of_3 b b1 && continuation b2 then
              match utf8_decode r2 with
              | Some t =>
                  Some (ascii_of_N b :: ascii_of_N b1 :: ascii_of_N b2 :: t)
              | None => None
              end
            else None
        | _ => None
        end
      else if between 240 244 b then
        match r with
        | Pct b1 :: Pct b2 :: Pct b3 :: r3 =>
            if second_of_4 b b1 && continuation b2 && continuation b3 then
              match utf8_decode r3 with
              | Some t =>
                  Some (ascii_of_N b :: ascii_of_N b1 :: ascii_of_N b2
                          :: ascii_of_N b3 :: t)
              | None => None
              end
            else None
        | _ => None
        end
      else None
  end.

(** [decodeURIComponent(s)]; [None] when it throws URIError. *)
Definition decodeURIComponent (s : string) : option string :=
  match uri_tokens s with
  | Some ts =>
      match utf8_decode ts with
      | Some cs => Some (string_of_list_ascii cs)
      | None => None
      end
  | None => None
  end.

Definition hex_char (n : N) : ascii :=
  if (n <? 10)%N then ascii_of_N (48 + n) else ascii_of_N (55 + n).

Definition uri_unreserved (c : ascii) : bool :=
  is_lower c || is_upper c || is_digit c
  || existsb (Ascii.eqb c) (list_ascii_of_string "-_.!~*'()").

(** [encodeURIComponent(s)] on the UTF-8 bytes of [s]. *)
Fixpoint encodeURIComponent (s : string) : string :=
  match s with
  | EmptyString => EmptyString
  | String c r =>
      if uri_unreserved c then String c (encodeURIComponent r)
      else
        let n := N_of_ascii c in
        String "%" (String (hex_char (n / 16)) (String (hex_char (n mod 16))
          (encodeURIComponent r)))
  end.

End Str.

Module JS.

(** ToBoolean. *)
Definition truthy (v : value) : bool :=
  match v with
  | VUndef | VNull => false
  | VBool b => b
  | VNum n => negb (n =? 0)
  | VStr s => negb (String.eqb s "")
  | VArr _ | VObj _ => true
  end.

(** [v !== null && typeof v === 'object']. *)
Definition is_object (v : value) : bool :=
  match v with
  | VArr _ | VObj _ => true
  | _ => false
  end.

Definition is_string (v : value) : bool :=
  match v with VStr _ => true | _ => false end.

Definition is_array (v : value) : bool :=
  match v with VArr _ => true | _ => false end.

(** The key of array slot [i]. *)
Definition index_key (i : nat) : string := pretty i.

Fixpoint indexed {A} (i : nat) (l : list A) : list (string * A) :=
  match l with
  | [] => []
  | x :: r => (index_key i, x) :: indexed (S i) r
  end.

Fixpoint chars (s : string) : list value :=
  match s with
  | EmptyString => []
  | String c r => VStr (String c EmptyString) :: chars r
  end.

(** Own enumerable properties, in [for ... in] order. *)
Definition entries (v : value) : list (string * value) :=
  match v with
  | VObj ps => ps
  | VArr l => indexed 0 l
  | VStr s => indexed 0 (chars s)
  | _ => []
  end.

Definition keys (v : value) : list string := map fst (entries v).

Fixpoint assoc {A} (k : string) (ps : list (string * A)) : option A :=
  match ps with
  | [] => None
  | (k', x) :: r => if String.eqb k' k then Some x else assoc k r
  end.

Fixpoint digits_value (s : string) (acc : nat) : option nat :=
  match s with
  | EmptyString => Some acc
  | String c r =>
      if Str.is_digit c
      then digits_value r (10 * acc + (nat_of_ascii c - 48))%nat
      else None
  end.

(** The array index a key spells: a decimal numeral without leading
    zero. *)
Definition index_of (k : string) : option nat :=
  match k with
  | EmptyString => None
  | String c EmptyString => digits_value k 0
  | String c _ => if Ascii.eqb c "0" then None else digits_value k 0
  end.

(** [l[k]] and [k in l] on the slots of an array or string. *)
Definition slot {A} (k : string) (l : list A) : option A :=
  match index_of k with
  | Some i => nth_error l i
  | None => None
  end.

(** [v[k]] on a value other than [null] and [undefined]. *)
Definition get (k : string) (v : value) : value :=
  match v with
  | VObj ps =>
      match assoc k ps with
      | Some x => x
      | None => VUndef
      end
  | VArr l =>
      match slot k l with
      | Some x => x
      | None => if String.eqb k "length" then VNum (Z.of_nat (length l)) else VUndef
      end
  | VStr s =>
      match slot k (chars s) with
      | Some x => x
      | None =>
          if String.eqb k "length" then VNum (Z.of_nat (String.length s))
          else VUndef
      end
  | _ => VUndef
  end.

(** [k in v] on an object or array. *)
Definition has (k : string) (v : value) : bool :=
  match v with
  | VObj ps => match assoc k ps with Some _ => true | None => false end
  | VArr l =>
      match slot k l with
      | Some _ => true
      | None => String.eqb k "length"
      end
  | _ => false
  end.

(** ToString, as applied by template literals and property keys. *)
Fixpoint to_string (v : value) : string :=
  match v with
  | VUndef => "undefined"
  | VNull => "null"
  | VBool true => "true"
  | VBool false => "false"
  | VNum n => pretty n
  | VStr s => s
  | VArr l =>
      let item x :=
        match x with VUndef | VNull => "" | _ => to_string x end in
      let fix join l :=
        match l with
        | [] => ""
        | [x] => item x
        | x :: r => item x +:+ "," +:+ join r
        end in
      join l
  | VObj _ => "[object Object]"
  end.

(** ToString returns: it throws TypeError on an object with an own
    [toString] member, which in parsed data is never a function while
    [valueOf], own or inherited, gives no primitive either; an array is
    converted by joining the conversions of its elements. *)
Fixpoint stringable (v : value) : bool :=
  match v with
  | VObj ps =>
      match assoc "toString" ps with Some _ => false | None => true end
  | VArr l => forallb stringable l
  | _ => true
  end.

Definition strict_eq_str (v : value) (s : string) : bool :=
  match v with VStr t => String.eqb t s | _ => false end.

End JS.

(** ** Exceptions *)

Inductive exn : Type :=
| JsError (message : string)
  (** [new Error(message)], and the engine's TypeError, URIError and
      SyntaxError, which the code never tells apart from it *)
| AxiosError (message : string) (response : option (Z * value)) (request : bool).

Definition message (e : exn) : string :=
  match e with JsError m | AxiosError m _ _ => m end.

Definition response (e : exn) : option (Z * value) :=
  match e with JsError _ => None | AxiosError _ r _ => r end.

Definition request (e : exn) : bool :=
  match e with JsError _ => false | AxiosError _ _ q => q end.

Definition isAxiosError (e : exn) : bool :=
  match e with JsError _ => false | AxiosError _ _ _ => true end.

Inductive result (A : Type) : Type :=
| Ok (a : A)
| Throw (e : exn).
Arguments Ok {A} a.
Arguments Throw {A} e.

Definition rbind {A B} (r : result A) (f : A -> result B) : result B :=
  match r with
  | Ok a => f a
  | Throw e => Throw e
  end.

Notation "x <-? r ; k" := (rbind r (fun x => k))
  (at level 100, r at next level, right associativity,
   format "'[v' x  <-?  r ; '/' k ']'").

(** ToString where the code applies it to parsed data: in a template
    literal, [String(v)], a property key, [new RegExp(v)] and
    [encodeURIComponent(v)]. *)
Definition ToString (v : value) : result string :=
  if JS.stringable v then Ok (JS.to_string v)
  else Throw (JsError "Cannot convert object to primitive value").

Definition try_catch {A} (body : result A) (handler : exn -> result A) : result A :=
  match body with
  | Ok a => Ok a
  | Throw e => handler e
  end.

Fixpoint rmap {A B} (f : A -> result B) (l : list A) : result (list B) :=
  match l with
  | [] => Ok []
  | x :: r => y <-? f x; ys <-? rmap f r; Ok (y :: ys)
  end.

(** ** Identifier sanitizer *)

(** [.replace(/[^a-zA-Z0-9_]+/g, '_')]: [in_run] tells that the run the
    scan is in has already been replaced. *)
Fixpoint collapse_runs (in_run : bool) (s : string) : string :=
  match s with
  | EmptyString => EmptyString
  | String c r =>
      if Str.is_word c then String c (collapse_runs false r)
      else if in_run then collapse_runs true r
      else String "_" (collapse_runs true r)
  end.

Fixpoint drop_leading_underscores (s : string) : string :=
  match s with
  | String c r => if Str.is_underscore c then drop_leading_underscores r else s
  | EmptyString => EmptyString
  end.

Fixpoint drop_trailing_underscores (s : string) : string :=
  match s with
  | EmptyString => EmptyString
  | String c r =>
      match drop_trailing_underscores r with
      | EmptyString => if Str.is_underscore c then EmptyString else String c EmptyString
      | r' => String c r'
      end
  end.

(** [.replace(/^_+|_+$/g, '')]. *)
Definition trim_underscores (s : string) : string :=
  drop_trailing_underscores (drop_leading_underscores s).

Definition sanitizeForMethodName (input : string) : string :=
  trim_underscores (collapse_runs false input).

(** ** Reference resolver *)

Definition isReferenceObject (obj : value) : bool :=
  JS.truthy obj && JS.is_object obj && JS.has "$ref" obj.

(** [segment.replace(/~1/g, '/').replace(/~0/g, '~')], then
    [decodeURIComponent]. *)
Definition decode_segment (segment : string) : option string :=
  Str.decodeURIComponent
    (Str.replace2 "~" "0" "~" (Str.replace2 "~" "1" "/" segment)).

(** The [for (const segment of path)] loop and what follows it. *)
Fixpoint resolve_loop (current : value) (path : list string) : result value :=
  match path with
  | [] =>
      match current with
      | VUndef => Ok VNull
      | _ => Ok current
      end
  | segment :: rest =>
      if negb (JS.is_object current) then Ok VNull
      else
        match decode_segment segment with
        | None => Throw (JsError "URI malformed")
        | Some decodedSegment =>
            if negb (JS.has decodedSegment current) then Ok VNull
            else resolve_loop (JS.get decodedSegment current) rest
        end
  end.

Definition resolveReference (spec : value) (ref : value) : result value :=
  match ref with
  | VStr r =>
      if negb (Str.startsWith "#/" r) then Ok VNull
      else
        let path := Str.split "/" (Str.substring_from 2 r) in
        try_catch (resolve_loop spec path) (fun _ => Ok VNull)
  | VUndef | VNull =>
      Throw (JsError "Cannot read properties of undefined (reading 'startsWith')")
  | _ => Throw (JsError "ref.startsWith is not a function")
  end.

(** ** JSON-Pointer reading of a reference, for stating what the resolver finds *)

Definition pointer_segments (ref : string) : list string :=
  Str.split "/" (Str.substring_from 2 ref).

Fixpoint decode_all (segments : list string) : option (list string) :=
  match segments with
  | [] => Some []
  | s :: r =>
      match decode_segment s, decode_all r with
      | Some k, Some ks => Some (k :: ks)
      | _, _ => None
      end
  end.

(** The decoded keys of a pointer; [None] when a segment is not valid
    percent-encoding. *)
Definition decoded_path (ref : string) : option (list string) :=
  decode_all (pointer_segments ref).

(** Following keys down a document. *)
Fixpoint lookup_path (node : value) (ks : list string) : option value :=
  match ks with
  | [] => Some node
  | k :: r =>
      if JS.is_object node && JS.has k node then lookup_path (JS.get k node) r
      else None
  end.





(** The names a plain object inherits from [Object.prototype]: reading
    or writing one of them does not reach an own member, so members of
    these names are left out of what is stated about plain objects. *)
Definition object_prototype_names : list string :=
  ["constructor"; "__defineGetter__"; "__defineSetter__"; "hasOwnProperty";
   "__lookupGetter__"; "__lookupSetter__"; "isPrototypeOf";
   "propertyIsEnumerable"; "toString"; "valueOf"; "__proto__";
   "toLocaleString"].

Definition is_own_name (k : string) : bool :=
  negb (existsb (String.eqb k) object_prototype_names).

(** The names an array inherits from [Array.prototype], besides those of
    [Object.prototype]. *)
Definition array_prototype_names : list string :=
  ["at"; "concat"; "copyWithin"; "fill"; "find"; "findIndex"; "findLast";
   "findLastIndex"; "lastIndexOf"; "pop"; "push"; "reverse"; "shift";
   "unshift"; "slice"; "sort"; "splice"; "includes"; "indexOf"; "join";
   "keys"; "entries"; "values"; "forEach"; "filter"; "flat"; "flatMap";
   "map"; "every"; "some"; "reduce"; "reduceRight"; "toReversed";
   "toSorted"; "toSpliced"; "with"].

(** A name that [in] and a property read find on a node that has no
    member of its own under it. *)
Definition inherited_name (k : string) : bool :=
  existsb (String.eqb k) (object_prototype_names ++ array_prototype_names).

(** A pointer none of whose decoded segments is an inherited name: on
    such a pointer the resolver's [in] and property reads see the own
    members of the nodes they pass, and nothing else. *)
Definition plain_pointer (ref : string) : bool :=
  match decoded_path ref with
  | Some ks => forallb (fun k => negb (inherited_name k)) ks
  | None => true
  end.
(** ** Zod schemas, as far as the mapper builds them *)

Inductive StringCheck : Type :=
| CkDatetime
| CkEmail
| CkUuid
| CkMin (n : value)
| CkMax (n : value)
| CkRegex (pattern : string).

(** Every schema carries its description ([VUndef] when it has none). *)
Inductive ZodType : Type :=
| ZodAny (description : value)
| ZodString (checks : list StringCheck) (description : value)
| ZodEnum (values : list string) (description : value)
| ZodNumber (int : bool) (description : value)
| ZodBoolean (description : value)
| ZodNull (description : value)
| ZodArray (element : ZodType) (minLength maxLength : option value)
    (description : value)
| ZodObject (shape : list (string * ZodType)) (passthrough : bool)
    (description : value)
| ZodRecord (valueType : ZodType) (description : value)
| ZodUnion (options : list ZodType) (description : value)
| ZodOptional (inner : ZodType) (description : value).

Module Zod.

Definition description (z : ZodType) : value :=
  match z with
  | ZodAny d | ZodString _ d | ZodEnum _ d | ZodNumber _ d | ZodBoolean d
  | ZodNull d | ZodArray _ _ _ d | ZodObject _ _ d | ZodRecord _ d
  | ZodUnion _ d | ZodOptional _ d => d
  end.

(** [z.describe(d)]: the same schema with its description replaced. *)
Definition describe (d : value) (z : ZodType) : ZodType :=
  match z with
  | ZodAny _ => ZodAny d
  | ZodString c _ => ZodString c d
  | ZodEnum v _ => ZodEnum v d
  | ZodNumber i _ => ZodNumber i d
  | ZodBoolean _ => ZodBoolean d
  | ZodNull _ => ZodNull d
  | ZodArray e lo hi _ => ZodArray e lo hi d
  | ZodObject s p _ => ZodObject s p d
  | ZodRecord v _ => ZodRecord v d
  | ZodUnion o _ => ZodUnion o d
  | ZodOptional i _ => ZodOptional i d
  end.

(** [z.optional()]: the wrapper inherits the description. *)
Definition optional (z : ZodType) : ZodType := ZodOptional z (description z).

Definition any : ZodType := ZodAny VUndef.
Definition string : ZodType := ZodString [] VUndef.
Definition null : ZodType := ZodNull VUndef.
Definition union (opts : list ZodType) : ZodType := ZodUnion opts VUndef.

Definition is_null (z : ZodType) : bool :=
  match z with ZodNull _ => true | _ => false end.

(** [.datetime()], [.email()], [.min(n)] ...: methods of ZodString only;
    on another schema the call is a TypeError. *)
Definition string_check (name : String.string) (c : StringCheck)
    (z : ZodType) : result ZodType :=
  match z with
  | ZodString cs d => Ok (ZodString (cs ++ [c]) d)
  | _ => Throw (JsError ("zodType." +:+ name +:+ " is not a function"))
  end.

(** [.passthrough()] of an object schema. *)
Definition passthrough (z : ZodType) : ZodType :=
  match z with
  | ZodObject s _ d => ZodObject s true d
  | _ => z
  end.

(** [shape[k] = z] on the plain object that collects a shape. *)
Fixpoint set_prop {A} (k : String.string) (x : A)
    (ps : list (String.string * A)) : list (String.string * A) :=
  match ps with
  | [] => [(k, x)]
  | (k', y) :: r =>
      if String.eqb k' k then (k, x) :: r else (k', y) :: set_prop k x r
  end.

End Zod.

(** ** Running out of fuel, or returning, or throwing *)

Definition fbind {A B} (m : option (result A)) (f : A -> option (result B))
    : option (result B) :=
  match m with
  | Some (Ok a) => f a
  | Some (Throw e) => Some (Throw e)
  | None => None
  end.

Definition fret {A} (a : A) : option (result A) := Some (Ok a).

Notation "x <-! m ; k" := (fbind m (fun x => k))
  (at level 100, m at next level, right associativity,
   format "'[v' x  <-!  m ; '/' k ']'").

Fixpoint fmapM {A B} (f : A -> option (result B)) (l : list A)
    : option (result (list B)) :=
  match l with
  | [] => fret []
  | x :: r => y <-! f x; ys <-! fmapM f r; fret (y :: ys)
  end.

Fixpoint ffoldl {A B} (f : B -> A -> option (result B)) (l : list A) (b : B)
    : option (result B) :=
  match l with
  | [] => fret b
  | x :: r => b' <-! f b x; ffoldl f r b'
  end.

(** [a || b]. *)
Definition js_or (a b : value) : value := if JS.truthy a then a else b.

Definition is_undefined (v : value) : bool :=
  match v with VUndef => true | _ => false end.

(** [typeof v === 'object'], which holds of [null] too. *)
Definition typeof_object (v : value) : bool :=
  match v with VNull | VArr _ | VObj _ => true | _ => false end.

(** [haystack.includes(needle)] on strings. *)
Fixpoint str_includes (needle haystack : string) : bool :=
  Str.startsWith needle haystack ||
  match haystack with
  | EmptyString => false
  | String _ r => str_includes needle r
  end.

(** [required?.includes(propName)]: an array holds the name, a string
    contains it; on any other value that is not [null] or [undefined]
    the call is a TypeError. *)
Definition required_includes (required : value) (propName : string)
    : result bool :=
  match required with
  | VUndef | VNull => Ok false
  | VArr l => Ok (existsb (fun x => JS.strict_eq_str x propName) l)
  | VStr s => Ok (str_includes propName s)
  | _ => Throw (JsError "schema.required?.includes is not a function")
  end.

Fixpoint strings_of (l : list value) : list string :=
  match l with
  | VStr s :: r => s :: strings_of r
  | _ :: r => strings_of r
  | [] => []
  end.

(** [visitedRefs.has(refString)]; the set only ever holds strings. *)
Definition visited_has (refString : value) (visitedRefs : gset string) : bool :=
  match refString with
  | VStr r => bool_decide (r ∈ visitedRefs)
  | _ => false
  end.

(** [new Set(visitedRefs)] followed by [.add(refString)]. *)
Definition visited_add (refString : value) (visitedRefs : gset string)
    : gset string :=
  match refString with
  | VStr r => {[ r ]} ∪ visitedRefs
  | _ => visitedRefs
  end.

(** [{ ...schema, type: t }]. *)
Definition with_type (schema : value) (t : value) : value :=
  VObj (Zod.set_prop "type" t (JS.entries schema)).

Definition describe_if (d : value) (z : ZodType) : ZodType :=
  if JS.truthy d then Zod.describe d z else z.

Definition optional_if (b : bool) (z : ZodType) : ZodType :=
  if b then Zod.optional z else z.

Definition isAlreadyNullable (z : ZodType) : bool :=
  match z with
  | ZodUnion opts _ => existsb Zod.is_null opts
  | ZodNull _ => true
  | _ => false
  end.

(** [v?.k]. *)
Definition get_opt (k : string) (v : value) : value :=
  match v with
  | VUndef | VNull => VUndef
  | _ => JS.get k v
  end.

(** [v.k] where [v] may be [null] or [undefined]. *)
Definition get_strict (k : string) (v : value) : result value :=
  match v with
  | VUndef | VNull =>
      Throw (JsError ("Cannot read properties of " +:+ JS.to_string v
                      +:+ " (reading '" +:+ k +:+ "')"))
  | _ => Ok (JS.get k v)
  end.

(** The values a [for ... of] or a spread visits. *)
Definition iterate (v : value) : result (list value) :=
  match v with
  | VArr l => Ok l
  | VStr s => Ok (JS.chars s)
  | _ => Throw (JsError (JS.to_string v +:+ " is not iterable"))
  end.

(** [a ?? b]. *)
Definition nullish_or (a b : value) : value :=
  match a with
  | VUndef | VNull => b
  | _ => a
  end.

(** ** Tools *)

Record ExecutionDetails : Type := mkExecutionDetails {
  isDirectReturnValue : value;
  directReturnValue : value;
  targetServer : value;
  httpMethod : value;
  apiPath : value;
  openapiParameters : value;
  openapiRequestBody : value;
  openIdConnectUrl : value
}.

Record Tool : Type := mkTool {
  method : string;
  name : value;
  description : value;
  parameters : ZodType;
  category : string;
  productName : value;
  specPath : value;
  executionDetails : ExecutionDetails
}.

(** ** The network and the clock *)

Record AxiosConfig : Type := mkConfig {
  c_method : value;
  c_url : string;
  c_headers : list (string * value);
  c_auth : option (string * string);
  c_params : list (string * value);
  c_data : value
}.

(** What comes back for one request. *)
Inductive Reply : Type :=
| Response (status : Z) (headers : list (string * string)) (data : value)
| NoResponse (message : string)
| SetupFailure (message : string).

(** The world outside: the clock [Date.now()] reads, the replies the
    network will give, each with the time it takes, and the requests
    handed to axios so far. *)
Record World : Type := mkWorld {
  now : Z;
  script : list (Z * Reply);
  sent : list AxiosConfig
}.

Record CacheEntry : Type := mkEntry {
  content : value;
  expiry : Z
}.

(** The fields of an [McpApi] instance.  [tokenExpiry] is [None] for
    [null] and for NaN, which the code treats alike. *)
Record McpApi : Type := mkApi {
  baseUrl : string;
  clientId : string;
  clientSecret : string;
  accessToken : value;
  tokenExpiry : option Z;
  specCache : gmap string CacheEntry;
  cacheTTL : Z
}.

Record State : Type := mkState {
  this : McpApi;
  world : World
}.

(** Computations that read and write the state and may throw; the
    state survives a throw. *)
Definition M (A : Type) : Type := State -> result A * State.

Definition ret {A} (a : A) : M A := fun st => (Ok a, st).
Definition throw {A} (e : exn) : M A := fun st => (Throw e, st).
Definition bind {A B} (m : M A) (f : A -> M B) : M B :=
  fun st =>
    match m st with
    | (Ok a, st') => f a st'
    | (Throw e, st') => (Throw e, st')
    end.
Definition try_ {A} (body : M A) (handler : exn -> M A) : M A :=
  fun st =>
    match body st with
    | (Ok a, st') => (Ok a, st')
    | (Throw e, st') => handler e st'
    end.
Definition lift {A} (r : result A) : M A := fun st => (r, st).

Notation "x <- m ;; k" := (bind m (fun x => k))
  (at level 100, m at next level, right associativity,
   format "'[v' x  <-  m ;; '/' k ']'").
Notation "m ;; k" := (bind m (fun _ => k))
  (at level 100, right associativity, format "'[v' m ;; '/' k ']'").

Definition getThis : M McpApi := fun st => (Ok (this st), st).
Definition setThis (f : McpApi -> McpApi) : M unit :=
  fun st => (Ok tt, {| this := f (this st); world := world st |}).

Definition Date_now : M Z := fun st => (Ok (now (world st)), st).

(** The time values a [Date] can hold: 8.64e15 ms either side of the epoch. *)
Definition valid_time (t : Z) : bool :=
  (-8640000000000000 <=? t) && (t <=? 8640000000000000).

(** [new Date(t).toISOString()], for its exception: RangeError on a time
    value out of range. *)
Definition toISOString (t : Z) : result unit :=
  if valid_time t then Ok tt else Throw (JsError "Invalid time value").

(** axios resolves on a status in 200..299 and rejects otherwise. *)
Definition validateStatus (status : Z) : bool :=
  (200 <=? status) && (status <? 300).

Definition deliver (config : AxiosConfig) (elapsed : Z)
    (rest : list (Z * Reply)) (w : World) : World :=
  {| now := now w + elapsed; script := rest; sent := sent w ++ [config] |}.

(** [await axios(config)]: the next reply of the script answers the
    request; with no reply left the network stays silent. *)
Definition axios (config : AxiosConfig) : M (Z * list (string * string) * value) :=
  fun st =>
    let w := world st in
    match script w with
    | [] =>
        (Throw (AxiosError "Network Error" None true),
         {| this := this st; world := deliver config 0 [] w |})
    | (elapsed, reply) :: rest =>
        let st' := {| this := this st; world := deliver config elapsed rest w |} in
        match reply with
        | Response status headers data =>
            if validateStatus status then (Ok (status, headers, data), st')
            else (Throw (AxiosError
                           ("Request failed with status code " +:+ pretty status)
                           (Some (status, data)) true), st')
        | NoResponse m => (Throw (AxiosError m None true), st')
        | SetupFailure m => (Throw (AxiosError m None false), st')
        end
    end.

(** The same client in another world: time has passed, the network
    has other replies in store. *)
Definition advance (w : World) (st : State) : State :=
  {| this := this st; world := w |}.

(** ** The MCP client *)

Record Options : Type := mkOptions {
  o_baseUrl : option string;
  o_clientId : option string;
  o_clientSecret : option string;
  o_cacheTTL : option Z
}.

Record Env : Type := mkEnv {
  MCP_BASE_URL : option string;
  MCP_CLIENT_ID : option string;
  MCP_CLIENT_SECRET : option string
}.

(** [a || b] on optional strings. *)
Definition str_or (a : option string) (b : string) : string :=
  match a with
  | Some s => if String.eqb s "" then b else s
  | None => b
  end.

Definition constructor (options : Options) (env : Env) : McpApi :=
  {| baseUrl := str_or (o_baseUrl options)
                  (str_or (MCP_BASE_URL env) "http://0.0.0.0:8998/mcp");
     clientId := str_or (o_clientId options) (str_or (MCP_CLIENT_ID env) "");
     clientSecret :=
       str_or (o_clientSecret options) (str_or (MCP_CLIENT_SECRET env) "");
     accessToken := VNull;
     tokenExpiry := None;
     specCache := ∅;
     cacheTTL :=
       match o_cacheTTL options with
       | None => 300000
       | Some ttl => if ttl <? 0 then 300000 else ttl
       end |}.

Definition set_token (token : value) (a : McpApi) : McpApi :=
  {| baseUrl := baseUrl a; clientId := clientId a;
     clientSecret := clientSecret a; accessToken := token;
     tokenExpiry := tokenExpiry a; specCache := specCache a;
     cacheTTL := cacheTTL a |}.

Definition set_expiry (e : option Z) (a : McpApi) : McpApi :=
  {| baseUrl := baseUrl a; clientId := clientId a;
     clientSecret := clientSecret a; accessToken := accessToken a;
     tokenExpiry := e; specCache := specCache a; cacheTTL := cacheTTL a |}.

Definition set_cache (c : gmap string CacheEntry) (a : McpApi) : McpApi :=
  {| baseUrl := baseUrl a; clientId := clientId a;
     clientSecret := clientSecret a; accessToken := accessToken a;
     tokenExpiry := tokenExpiry a; specCache := c; cacheTTL := cacheTTL a |}.

(** [this.accessToken = null; this.tokenExpiry = null]. *)
Definition invalidate : M unit :=
  setThis (fun a => set_expiry None (set_token VNull a)).

Definition tokenRequest (a : McpApi) : AxiosConfig :=
  {| c_method := VStr "POST";
     c_url := baseUrl a +:+ "/token";
     c_headers := [("Content-Type", VStr "application/x-www-form-urlencoded");
                   ("Accept", VStr "application/json")];
     c_auth := Some (clientId a, clientSecret a);
     c_params := [];
     c_data := VStr "grant_type=client_credentials" |}.

(** [this.accessToken && this.tokenExpiry &&
     Date.now() < this.tokenExpiry - bufferSeconds * 1000]. *)
Definition token_is_fresh (a : McpApi) (t : Z) : bool :=
  JS.truthy (accessToken a) &&
  match tokenExpiry a with
  | Some e => negb (e =? 0) && (t <? e - 30 * 1000)
  | None => false
  end.

Definition apiRequest (a : McpApi) (token : value) (endpoint method : string)
    (data : value) : AxiosConfig :=
  let headers :=
    [("Authorization", VStr ("Bearer " +:+ JS.to_string token));
     ("Accept", VStr "application/json")] in
  {| c_method := VStr method;
     c_url := baseUrl a +:+ endpoint;
     c_headers :=
       if JS.truthy data && (String.eqb method "POST" || String.eqb method "PUT")
       then Zod.set_prop "Content-Type" (VStr "application/json") headers
       else headers;
     c_auth := None;
     c_params := [];
     c_data := if JS.truthy data then data else VUndef |}.

(** The spec request of a product and a path. *)
Definition specRequest (a : McpApi) (productName specPath : string)
    : AxiosConfig :=
  apiRequest a (accessToken a)
    ("/products/" +:+ Str.encodeURIComponent productName +:+ "/specs/"
     +:+ specPath) "GET" VNull.

Definition cacheKeyOf (productName specPath : string) : string :=
  productName +:+ "::" +:+ specPath.

(** The same state with another spec cache. *)
Definition swap_cache (c : gmap string CacheEntry) (st : State) : State :=
  {| this := set_cache c (this st); world := world st |}.

(** Everything of an instance but its token. *)
Definition same_settings (a b : McpApi) : Prop :=
  baseUrl a = baseUrl b /\ clientId a = clientId b /\
  clientSecret a = clientSecret b /\ cacheTTL a = cacheTTL b /\
  specCache a = specCache b.

(** ** The executor's records *)

Record ToolResult : Type := mkResult {
  text : value;
  isError : bool
}.

Record ExecutorInput : Type := mkInput {
  in_method : string;
  in_parameters : value;
  getAuthenticationHeaders : M value;
  in_executionDetails : ExecutionDetails
}.

(** What the loop over [openapiParameters] updates. *)
Record Draft : Type := mkDraft {
  d_url : string;
  d_queryParams : list (string * value);
  d_headers : list (string * value)
}.

(** ** Sample documents and host functions, for the worked examples *)

Module Sample.

Definition obj (ps : list (string * value)) : value := VObj ps.
Definition ref (r : string) : value := VObj [("$ref", VStr r)].

(** Two schemas that refer to each other. *)
Definition cyclic : value :=
  obj [("components",
    obj [("schemas",
      obj [("A", obj [("type", VStr "object");
                      ("properties", obj [("b", ref "#/components/schemas/B")])]);
           ("B", obj [("type", VStr "object");
                      ("properties", obj [("a", ref "#/components/schemas/A")])])])])].


(** Two sibling properties that refer to the same schema. *)
Definition shared : value :=
  obj [("components",
    obj [("schemas",
      obj [("Leaf", obj [("type", VStr "string")]);
           ("Pair", obj [("type", VStr "object");
                         ("properties",
                          obj [("x", ref "#/components/schemas/Leaf");
                               ("y", ref "#/components/schemas/Leaf")])])])])].

Definition oidc : value :=
  obj [("type", VStr "openIdConnect");
       ("openIdConnectUrl", VStr "https://idp.example/.well-known/openid-configuration")].

(** A document with a document-level OpenID Connect requirement and
    three operations: one without [security], one with [security: []],
    one with a requirement of its own. *)
Definition users : value :=
  obj [("servers", VArr [obj [("url", VStr "https://api.example")]]);
       ("security", VArr [obj [("login", VArr [])]]);
       ("components",
        obj [("securitySchemes",
              obj [("login", oidc);
                   ("key", obj [("type", VStr "apiKey")])])]);
       ("paths",
        obj [("/users/{id}",
              obj [("get",
                    obj [("operationId", VStr "get-user");
                         ("parameters",
                          VArr [obj [("in", VStr "path"); ("name", VStr "id");
                                     ("required", VBool true);
                                     ("schema", obj [("type", VStr "string")])];
                                obj [("in", VStr "query"); ("name", VStr "limit");
                                     ("schema", obj [("type", VStr "integer")])]])]);
                   ("delete",
                    obj [("security", VArr [])]);
                   ("put",
                    obj [("security", VArr [obj [("key", VArr [])]])])])])].

(** An operation whose identifier holds no letter and no digit. *)
Definition unnamed : value :=
  obj [("paths",
        obj [("/", obj [("get", obj [("operationId", VStr "_")])])])].

Definition regexp_ok (p : string) : bool := true.

Definition StringToNumber (s : string) : option Z := None.

(** The parser on the texts of the samples. *)
Definition yaml_load (text : value) : result value :=
  match text with
  | VStr "users.yaml" => Ok users
  | VStr "unnamed.yaml" => Ok unnamed
  | VStr "cyclic.yaml" => Ok cyclic
  | _ => Throw (JsError "YAMLException")
  end.

Definition HttpMethods : list string :=
  ["get"; "put"; "post"; "delete"; "options"; "head"; "patch"; "trace"].

Definition upper (c : ascii) : ascii :=
  if Str.is_lower c then ascii_of_N (N_of_ascii c - 32) else c.

Fixpoint toUpperCase (s : string) : string :=
  match s with
  | EmptyString => EmptyString
  | String c r => String (upper c) (toUpperCase r)
  end.

(** Enough of [JSON.stringify] for the sample payloads. *)
Definition JSON_stringify (v : value) : value :=
  match v with
  | VUndef => VUndef
  | VStr s => VStr (String "034" s +:+ String "034" "")
  | _ => VStr (JS.to_string v)
  end.

(** A client with a five-second cache, and the same client when its
    configured TTL is negative. *)
Definition env : Env :=
  {| MCP_BASE_URL := None; MCP_CLIENT_ID := None; MCP_CLIENT_SECRET := None |}.

Definition options (ttl : Z) : Options :=
  {| o_baseUrl := Some "https://mcp.example"; o_clientId := Some "id";
     o_clientSecret := Some "secret"; o_cacheTTL := Some ttl |}.

Definition api : McpApi := constructor (options 5000) env.

Definition at_1000 (replies : list (Z * Reply)) : World :=
  {| now := 1000; script := replies; sent := [] |}.

(** A client that holds no token yet. *)
Definition cold (a : McpApi) (replies : list (Z * Reply)) : State :=
  {| this := a; world := at_1000 replies |}.

(** A client that holds the token [t0], good until 4000000. *)
Definition warm (a : McpApi) (replies : list (Z * Reply)) : State :=
  {| this := set_expiry (Some 4000000) (set_token (VStr "t0") a);
     world := at_1000 replies |}.

(** A token reply without [expires_in]. *)
Definition token_reply (t : string) : Reply :=
  Response 200 [] (obj [("access_token", VStr t)]).

Definition spec_text : value := VStr "openapi: 3.0.0".

(** The compiled [get-user] operation of [users], invoked with
    [{id: '42'}]. *)
Definition get_user : ExecutorInput :=
  {| in_method := "api_get_user";
     in_parameters := obj [("id", VStr "42")];
     getAuthenticationHeaders :=
       ret (obj [("Authorization", VStr "Bearer t0")]);
     in_executionDetails :=
       {| isDirectReturnValue := VUndef;
          directReturnValue := VUndef;
          targetServer := VStr "https://api.example";
          httpMethod := VStr "get";
          apiPath := VStr "/users/{id}";
          openapiParameters :=
            VArr [obj [("in", VStr "path"); ("name", VStr "id");
                       ("required", VBool true);
                       ("schema", obj [("type", VStr "string")])];
                  obj [("in", VStr "query"); ("name", VStr "limit");
                       ("schema", obj [("type", VStr "integer")])]];
          openapiRequestBody := VUndef;
          openIdConnectUrl := VUndef |} |}.

Definition not_found_body : value := obj [("error", VStr "no such user")].

(** The [limit] parameter of [users], which is not required. *)
Definition limit_parameter : value :=
  obj [("in", VStr "query"); ("name", VStr "limit");
       ("schema", obj [("type", VStr "integer")])].

(** A parameter with a description of its own and one on its schema. *)
Definition described_parameter : value :=
  obj [("in", VStr "path"); ("name", VStr "id"); ("required", VBool true);
       ("description", VStr "The user");
       ("schema", obj [("type", VStr "string");
                       ("description", VStr "An identifier")])].

Definition nullable_string : value :=
  obj [("type", VStr "string"); ("nullable", VBool true)].

(** An enumeration with a length bound. *)
Definition bounded_enum : value :=
  obj [("type", VStr "string"); ("enum", VArr [VStr "asc"; VStr "desc"]);
       ("minLength", VNum 1)].

(** A token reply that gives a lifetime in seconds. *)
Definition token_reply_for (t : string) (seconds : Z) : Reply :=
  Response 200 []
    (obj [("access_token", VStr t); ("expires_in", VNum seconds)]).

(** The replies of a listing of one product with one spec. *)
Definition product_list : value :=
  obj [("Products", obj [("Name", VArr [VStr "shop"])])].

Definition attribute (n v : string) : value :=
  obj [("Name", VStr n); ("Value", VStr v)].

Definition spec_list : value :=
  obj [("Specs",
        obj [("SpecLocation", VStr "projects/p/locations/l");
             ("operationConfigs",
              VArr [obj [("attributes",
                          VArr [attribute "hub_api" "orders";
                                attribute "hub_version" "v1";
                                attribute "hub_spec" "openapi"])]])])].

Definition listing : list (Z * Reply) :=
  [(5, Response 200 [] product_list);
   (5, Response 200 [] spec_list);
   (5, Response 200 [] spec_text)].

(** [get_user] called with an argument that holds a slash. *)
Definition get_admin : ExecutorInput :=
  {| in_method := in_method get_user;
     in_parameters := obj [("id", VStr "../admin")];
     getAuthenticationHeaders := getAuthenticationHeaders get_user;
     in_executionDetails := in_executionDetails get_user |}.




End Sample.

Section Program.

Set Default Proof Using "Type*".

(** The host functions the code calls and this file does not define. *)

(** [new RegExp(p)] succeeds on the pattern text [p]. *)
Variable regexp_ok : string -> bool.

(** *** [case 'string'] of the mapper *)

Definition string_or_enum (schema : value) : result ZodType :=
  let enum := JS.get "enum" schema in
  if JS.truthy enum then
    match enum with
    | VArr enumValues =>
        if forallb JS.is_string enumValues then
          match enumValues with
          | _ :: _ => Ok (ZodEnum (strings_of enumValues) VUndef)
          | [] => Ok Zod.string
          end
        else Ok Zod.string
    | _ => Throw (JsError "schema.enum.every is not a function")
    end
  else Ok Zod.string.

Definition check_when (c : bool) (name : string) (k : StringCheck)
    (z : ZodType) : result ZodType :=
  if c then Zod.string_check name k z else Ok z.

Definition map_string (schema : value) : result ZodType :=
  z <-? string_or_enum schema;
  z <-? check_when (JS.strict_eq_str (JS.get "format" schema) "date-time")
          "datetime" CkDatetime z;
  z <-? check_when (JS.strict_eq_str (JS.get "format" schema) "email")
          "email" CkEmail z;
  z <-? check_when (JS.strict_eq_str (JS.get "format" schema) "uuid")
          "uuid" CkUuid z;
  z <-? check_when (negb (is_undefined (JS.get "minLength" schema)))
          "min" (CkMin (JS.get "minLength" schema)) z;
  z <-? check_when (negb (is_undefined (JS.get "maxLength" schema)))
          "max" (CkMax (JS.get "maxLength" schema)) z;
  let pattern := JS.get "pattern" schema in
  if is_undefined pattern then Ok z
  else
    (* [new RegExp(schema.pattern)] converts the pattern first *)
    source <-? ToString pattern;
    if regexp_ok source
    then Zod.string_check "regex" (CkRegex source) z
    else Throw (JsError "Invalid regular expression").

Definition array_bounds (schema : value) (element : ZodType) : ZodType :=
  let lo := JS.get "minItems" schema in
  let hi := JS.get "maxItems" schema in
  ZodArray element
    (if is_undefined lo then None else Some lo)
    (if is_undefined hi then None else Some hi) VUndef.

(** The warning of the second case names [schema.title || 'object']. *)
Definition object_openness (schema : value) (z : ZodType) : result ZodType :=
  let ap := JS.get "additionalProperties" schema in
  match ap with
  | VBool true => Ok (Zod.passthrough z)
  | _ =>
      if typeof_object ap then
        _ <-? ToString (js_or (JS.get "title" schema) (VStr "object"));
        Ok (Zod.passthrough z)
      else Ok z
  end.

Definition combine_types (types : list value) (zodTypes : list ZodType)
    : ZodType :=
  let hasNull := existsb (fun t => JS.strict_eq_str t "null") types in
  let zodType :=
    match zodTypes with
    | [] => if hasNull then Zod.null else Zod.any
    | [z] => z
    | _ => Zod.union zodTypes
    end in
  if hasNull && negb (Zod.is_null zodType)
  then Zod.union [zodType; Zod.null] else zodType.

(** The three steps after the [switch]: nullable, description,
    optionality. *)
Definition finish (schema : value) (descriptionFromParam : value)
    (isOptional : bool) (zodType : ZodType) : ZodType :=
  let zodType :=
    if JS.truthy (JS.get "nullable" schema) && negb (isAlreadyNullable zodType)
    then Zod.union [zodType; Zod.null] else zodType in
  let description := js_or descriptionFromParam (JS.get "description" schema) in
  optional_if isOptional (describe_if description zodType).

(** *** The mapper

    The body of [mapOpenApiTypeToZod(schemaOrRef, spec, visitedRefs)],
    with [self schema visited] for its recursive calls
    [mapOpenApiTypeToZod(schema, spec, visited)]. *)

Definition mapper : Type := value -> gset string -> option (result ZodType).

(** The branch for a reference object. *)
Definition map_reference (self : mapper) (spec : value)
    (targetSchemaOrRef : value) (descriptionFromParam : value)
    (isOptional : bool) (visitedRefs : gset string)
    : option (result ZodType) :=
  let refString := JS.get "$ref" targetSchemaOrRef in
  if visited_has refString visitedRefs then
    fret (optional_if isOptional
            (ZodAny (VStr ("Circular reference: " +:+ JS.to_string refString))))
  else
    match resolveReference spec refString with
    | Throw e => Some (Throw e)
    | Ok resolved =>
        if negb (JS.truthy resolved) then
          fret (optional_if isOptional
                  (ZodAny (VStr ("Unresolved reference: "
                                 +:+ JS.to_string refString))))
        else
          resolvedType <-! self resolved (visited_add refString visitedRefs);
          let finalDescription :=
            js_or descriptionFromParam (JS.get "description" resolved) in
          fret (optional_if isOptional
                  (describe_if finalDescription resolvedType))
    end.

(** [case 'array']. *)
Definition map_array (self : mapper) (schema : value)
    (visitedRefs : gset string) : option (result ZodType) :=
  if JS.truthy (JS.get "items" schema) then
    element <-! self (JS.get "items" schema) visitedRefs;
    fret (array_bounds schema element)
  else fret (ZodArray Zod.any None None VUndef).

(** One round of [for (const propName in schema.properties)]. *)
Definition map_property (self : mapper) (schema : value)
    (visitedRefs : gset string) (shape : list (string * ZodType))
    (propName : string) : option (result (list (string * ZodType))) :=
  z <-! self (JS.get propName (JS.get "properties" schema)) visitedRefs;
  listed <-! Some (required_includes (JS.get "required" schema) propName);
  fret (Zod.set_prop propName (if listed then z else Zod.optional z) shape).

(** [case 'object']. *)
Definition map_object (self : mapper) (schema : value)
    (visitedRefs : gset string) : option (result ZodType) :=
  let properties := JS.get "properties" schema in
  let ap := JS.get "additionalProperties" schema in
  if JS.truthy properties then
    shape <-! ffoldl (map_property self schema visitedRefs)
                (JS.keys properties) [];
    Some (object_openness schema (ZodObject shape false VUndef))
  else if JS.truthy ap then
    valueType <-!
      (if typeof_object ap then self ap visitedRefs else fret Zod.any);
    fret (ZodRecord valueType VUndef)
  else fret (ZodObject [] false VUndef).

(** [default:], the type is an array of type names. *)
Definition map_type_array (self : mapper) (schema : value)
    (types : list value) (visitedRefs : gset string)
    : option (result ZodType) :=
  let nonNullTypes :=
    List.filter (fun t => negb (JS.strict_eq_str t "null")) types in
  zodTypes <-!
    fmapM (fun t => self (with_type schema t) visitedRefs) nonNullTypes;
  fret (combine_types types zodTypes).

(** The re-run with an inferred type, after the warning that names
    [schema.title || '']. *)
Definition map_inferred (self : mapper) (schema : value)
    (inferredType : string) (visitedRefs : gset string)
    : option (result ZodType) :=
  _ <-! Some (ToString (js_or (JS.get "title" schema) (VStr "")));
  self (with_type schema (VStr inferredType)) visitedRefs.

(** [default:], the type is anything else.  The warning of the last
    case names [schema.type]. *)
Definition map_untyped (self : mapper) (schema : value)
    (visitedRefs : gset string) : option (result ZodType) :=
  if JS.truthy (JS.get "type" schema) then
    _ <-! Some (ToString (JS.get "type" schema)); fret Zod.any
  else if JS.truthy (JS.get "properties" schema)
          || JS.truthy (JS.get "additionalProperties" schema)
  then
    let inferredType :=
      if JS.has "items" schema && JS.truthy (JS.get "items" schema)
      then "array" else "object" in
    map_inferred self schema inferredType visitedRefs
  else if negb (JS.is_object schema) then
    Some (Throw (JsError "Cannot use 'in' operator to search for 'items'"))
  else if JS.has "items" schema && JS.truthy (JS.get "items" schema)
  then map_inferred self schema "array" visitedRefs
  else fret Zod.any.

(** The [switch (schema.type)]. *)
Definition map_switch (self : mapper) (schema : value)
    (visitedRefs : gset string) : option (result ZodType) :=
  let type := JS.get "type" schema in
  if JS.strict_eq_str type "string" then Some (map_string schema)
  else if JS.strict_eq_str type "integer" then fret (ZodNumber true VUndef)
  else if JS.strict_eq_str type "number" then fret (ZodNumber false VUndef)
  else if JS.strict_eq_str type "boolean" then fret (ZodBoolean VUndef)
  else if JS.strict_eq_str type "array" then map_array self schema visitedRefs
  else if JS.strict_eq_str type "object" then map_object self schema visitedRefs
  else
    match type with
    | VArr types => map_type_array self schema types visitedRefs
    | _ => map_untyped self schema visitedRefs
    end.

Definition isParameterObject (schemaOrRef : value) : bool :=
  JS.has "in" schemaOrRef && JS.has "name" schemaOrRef.

Definition mapOpenApiTypeToZod_body (self : mapper) (spec : value)
    (schemaOrRef : value) (visitedRefs : gset string)
    : option (result ZodType) :=
  if negb (JS.is_object schemaOrRef) then
    Some (Throw (JsError "Cannot use 'in' operator to search for 'in'"))
  else
  let isParam := isParameterObject schemaOrRef in
  if isParam && negb (JS.truthy (JS.get "schema" schemaOrRef)) then
    let param := schemaOrRef in
    (* the warning converts [param.name] whatever the description is *)
    name <-! Some (ToString (JS.get "name" param));
    let anyType :=
      ZodAny (js_or (JS.get "description" param)
                (VStr ("Parameter " +:+ name +:+ " with no schema defined"))) in
    fret (if JS.truthy (JS.get "required" param) then anyType
          else Zod.optional anyType)
  else
  let targetSchemaOrRef :=
    if isParam then JS.get "schema" schemaOrRef else schemaOrRef in
  let isOptional :=
    isParam && negb (JS.truthy (JS.get "required" schemaOrRef)) in
  let descriptionFromParam :=
    if isParam then JS.get "description" schemaOrRef else VUndef in
  if isReferenceObject targetSchemaOrRef then
    map_reference self spec targetSchemaOrRef descriptionFromParam isOptional
      visitedRefs
  else
    let schema := targetSchemaOrRef in
    zodType <-! map_switch self schema visitedRefs;
    fret (finish schema descriptionFromParam isOptional zodType).

(** [fuel] bounds the depth of the recursion; [None] is the model
    running out of it. *)
Fixpoint mapOpenApiTypeToZod (fuel : nat) (schemaOrRef spec : value)
    (visitedRefs : gset string) {struct fuel} : option (result ZodType) :=
  match fuel with
  | O => None
  | S fuel =>
      mapOpenApiTypeToZod_body
        (fun schema visited => mapOpenApiTypeToZod fuel schema spec visited)
        spec schemaOrRef visitedRefs
  end.

(** ** Security scan and tool generator *)

(** The numeric reading of a string (ToNumber); [None] for NaN. *)
Variable StringToNumber : string -> option Z.

(** [yaml.load]. *)
Variable yaml_load : value -> result value.

(** [Object.values(OpenAPIV3.HttpMethods)], of the openapi-types package. *)
Variable HttpMethods : list string.

(** [String.prototype.toUpperCase]. *)
Variable toUpperCase : string -> string.

Definition to_number (v : value) : option Z :=
  match v with
  | VUndef => None
  | VNull => Some 0
  | VBool b => Some (if b then 1 else 0)
  | VNum n => Some n
  | VStr s => StringToNumber s
  | VArr _ | VObj _ => StringToNumber (JS.to_string v)
  end.

(** ToNumber where it is applied to parsed data: an object is converted
    through its string form, and throws when that does. *)
Definition ToNumber (v : value) : result (option Z) :=
  if JS.stringable v then Ok (to_number v)
  else Throw (JsError "Cannot convert object to primitive value").

(** [v > 0], for a [v] that converts. *)
Definition gt_zero (v : value) : bool :=
  match to_number v with
  | Some n => 0 <? n
  | None => false
  end.

(** The inner loop of the scan, over the scheme names of one
    requirement: [Some url] at the first scheme of type openIdConnect.
    Both callers enter the scan only when [spec.components.securitySchemes]
    is truthy. *)
Fixpoint scan_schemes (spec : value) (schemeNames : list string)
    : result (option value) :=
  match schemeNames with
  | [] => Ok None
  | schemeName :: rest =>
      let scheme :=
        JS.get schemeName (JS.get "securitySchemes" (JS.get "components" spec)) in
      if JS.truthy scheme then
        resolvedScheme <-?
          (if isReferenceObject scheme then
             r <-? resolveReference spec (JS.get "$ref" scheme);
             Ok (nullish_or r scheme)
           else Ok scheme);
        if negb (isReferenceObject resolvedScheme)
           && JS.strict_eq_str (JS.get "type" resolvedScheme) "openIdConnect"
        then Ok (Some (JS.get "openIdConnectUrl" resolvedScheme))
        else scan_schemes spec rest
      else scan_schemes spec rest
  end.

(** The outer loop, over the requirements. *)
Fixpoint scan_requirements (spec : value) (requirements : list value)
    : result (option value) :=
  match requirements with
  | [] => Ok None
  | requirement :: rest =>
      found <-? scan_schemes spec (JS.keys requirement);
      match found with
      | Some url => Ok (Some url)
      | None => scan_requirements spec rest
      end
  end.

(** A classification: whether OpenID Connect is required, and the URL. *)
Definition classification : Type := bool * value.

Definition classified (found : option value) : classification :=
  match found with
  | Some url => (true, url)
  | None => (false, VUndef)
  end.

(** The scan of a requirement list, as both the document level and the
    operation level run it. *)
Definition scanSecurity (spec : value) (security : value)
    : result classification :=
  requirements <-? iterate security;
  found <-? scan_requirements spec requirements;
  Ok (classified found).

(** Document level: [globalRequiresOpenIdAuth], [globalOpenIdConnectUrl]. *)
Definition globalSecurity (spec : value) : result classification :=
  if JS.truthy (JS.get "security" spec)
     && JS.truthy (get_opt "securitySchemes" (JS.get "components" spec))
  then scanSecurity spec (JS.get "security" spec)
  else Ok (false, VUndef).

(** Operation level: [operationRequiresOpenIdAuth], [foundOpenIdConnectUrl]. *)
Definition operationSecurity (spec : value) (global : classification)
    (operation : value) : result classification :=
  let operationSecurity := JS.get "security" operation in
  if is_undefined operationSecurity then Ok global
  else
    len <-? get_strict "length" operationSecurity;
    _ <-? ToNumber len;
    if gt_zero len
       && JS.truthy (get_opt "securitySchemes" (JS.get "components" spec))
    then scanSecurity spec operationSecurity
    else Ok (false, VUndef).

(** One round of [allParams.forEach]. *)
Definition add_parameter (fuel : nat) (spec : value)
    (toolParamsShape : list (string * ZodType)) (paramOrRef : value)
    : option (result (list (string * ZodType))) :=
  resolvedParam <-!
    Some (if isReferenceObject paramOrRef
          then resolveReference spec (JS.get "$ref" paramOrRef)
          else Ok paramOrRef);
  if isReferenceObject paramOrRef && negb (JS.truthy resolvedParam)
  then fret toolParamsShape
  else
    name <-! Some (get_strict "name" resolvedParam);
    z <-! mapOpenApiTypeToZod fuel resolvedParam spec ∅;
    (* the name becomes a property key once the right-hand side is there *)
    key <-! Some (ToString name);
    fret (Zod.set_prop key z toolParamsShape).

(** The [if (operation.requestBody)] block. *)
Definition add_request_body (fuel : nat) (spec operation : value)
    (toolParamsShape : list (string * ZodType))
    : option (result (list (string * ZodType))) :=
  let requestBodyOrRef := JS.get "requestBody" operation in
  if negb (JS.truthy requestBodyOrRef) then fret toolParamsShape
  else
    resolvedRequestBody <-!
      Some (if isReferenceObject requestBodyOrRef
            then resolveReference spec (JS.get "$ref" requestBodyOrRef)
            else Ok requestBodyOrRef);
    if negb (JS.truthy resolvedRequestBody) then fret toolParamsShape
    else
      let requestBodyDesc := JS.get "description" resolvedRequestBody in
      let isRequestBodyRequired :=
        js_or (JS.get "required" resolvedRequestBody) (VBool false) in
      let jsonContent :=
        get_opt "application/json" (JS.get "content" resolvedRequestBody) in
      let jsonSchemaOrRef := get_opt "schema" jsonContent in
      if JS.truthy jsonSchemaOrRef then
        bodyType <-! mapOpenApiTypeToZod fuel jsonSchemaOrRef spec ∅;
        let schemaDescription :=
          if negb (isReferenceObject jsonSchemaOrRef)
          then JS.get "description" jsonSchemaOrRef else VUndef in
        let bodyType :=
          Zod.describe
            (js_or requestBodyDesc
               (js_or schemaDescription (VStr "Request body payload")))
            bodyType in
        let bodyType :=
          if negb (JS.truthy isRequestBodyRequired)
          then Zod.optional bodyType else bodyType in
        fret (Zod.set_prop "body" bodyType toolParamsShape)
      else fret toolParamsShape.

Definition userAuthorizationParameter : ZodType :=
  Zod.describe
    (VStr ("Optional: Provide a Bearer token for OpenID Connect authentication (e.g., "
           +:+ String "034" "Bearer <token>" +:+ String "034"
             "). If not provided, the system will attempt to use its configured credentials."))
    (Zod.optional Zod.string).

(** [safeMethodNameBase]. *)
Definition methodNameBase (operation : value) (httpMethod apiPath : string)
    : result string :=
  let operationId := JS.get "operationId" operation in
  if JS.truthy operationId then
    match operationId with
    | VStr s => Ok (sanitizeForMethodName s)
    | _ => Throw (JsError "input.replace is not a function")
    end
  else Ok (sanitizeForMethodName (httpMethod +:+ "_" +:+ apiPath)).

(** The body of the [for (const httpMethod in pathItem)] loop: the tool
    pushed, or [None] when the round ends in [continue].  The keys of
    [specData] are the product names and the spec paths the collector
    has written into its log lines and keys: they convert to strings. *)
Definition operationTool (fuel : nat) (productName specPath : value)
    (spec : value) (global : classification) (targetServer : value)
    (apiPath : string) (pathItem : value) (httpMethod : string)
    : option (result (option Tool)) :=
  if negb (existsb (String.eqb httpMethod) HttpMethods) then fret None
  else
    let operation := JS.get httpMethod pathItem in
    if negb (JS.truthy operation) then fret None
    else
      safeMethodNameBase <-! Some (methodNameBase operation httpMethod apiPath);
      let dynamicMethodName := "api_" +:+ safeMethodNameBase in
      let verbAndPath := toUpperCase httpMethod +:+ " " +:+ apiPath in
      let dynamicToolName := js_or (JS.get "summary" operation) (VStr verbAndPath) in
      let dynamicDescription :=
        js_or (JS.get "description" operation)
          (js_or (JS.get "summary" operation)
             (VStr ("Executes " +:+ toUpperCase httpMethod +:+ " on " +:+ apiPath))) in
      let pathParams := js_or (JS.get "parameters" pathItem) (VArr []) in
      let operationParams := js_or (JS.get "parameters" operation) (VArr []) in
      fromPath <-! Some (iterate pathParams);
      fromOperation <-! Some (iterate operationParams);
      let allParams := (fromPath ++ fromOperation)%list in
      toolParamsShape <-! ffoldl (add_parameter fuel spec) allParams [];
      security <-! Some (operationSecurity spec global operation);
      toolParamsShape <-! add_request_body fuel spec operation toolParamsShape;
      let toolParamsShape :=
        if fst security
        then Zod.set_prop "X-User-Authorization" userAuthorizationParameter
               toolParamsShape
        else toolParamsShape in
      fret (Some {|
        method := dynamicMethodName;
        name := dynamicToolName;
        description := dynamicDescription;
        parameters := ZodObject toolParamsShape false VUndef;
        category := "api_" +:+ JS.to_string productName;
        productName := productName;
        specPath := specPath;
        executionDetails := {|
          isDirectReturnValue := VUndef;
          directReturnValue := VUndef;
          targetServer := targetServer;
          httpMethod := VStr httpMethod;
          apiPath := VStr apiPath;
          openapiParameters := VArr allParams;
          openapiRequestBody := JS.get "requestBody" operation;
          openIdConnectUrl := snd security
        |}
      |}).

(** A loop whose rounds push tools: the tools pushed, and the exception
    that ended the loop if one did. *)
Fixpoint collect {A} (round : A -> option (result (list Tool))) (l : list A)
    : option (list Tool * option exn) :=
  match l with
  | [] => Some ([], None)
  | x :: r =>
      match round x with
      | None => None
      | Some (Throw e) => Some ([], Some e)
      | Some (Ok ts) =>
          match collect round r with
          | None => None
          | Some (ts', e) => Some ((ts ++ ts')%list, e)
          end
      end
  end.

Definition round_of_option (r : option (result (option Tool)))
    : option (result (list Tool)) :=
  t <-! r; fret (match t with Some t => [t] | None => [] end).

(** The body of the [for (const apiPath in spec.paths)] loop. *)
Definition pathTools (fuel : nat) (productName specPath : value)
    (spec : value) (global : classification) (targetServer : value)
    (apiPath : string) : option (list Tool * option exn) :=
  let pathItem := JS.get apiPath (JS.get "paths" spec) in
  if negb (JS.truthy pathItem) then Some ([], None)
  else
    collect (fun httpMethod =>
               round_of_option
                 (operationTool fuel productName specPath spec global
                    targetServer apiPath pathItem httpMethod))
      (JS.keys pathItem).

(** The [for (const apiPath in spec.paths)] loop: a path whose rounds end
    in an exception ends the loop. *)
Fixpoint pathsTools (fuel : nat) (productName specPath : value)
    (spec : value) (global : classification) (targetServer : value)
    (apiPaths : list string) : option (list Tool * option exn) :=
  match apiPaths with
  | [] => Some ([], None)
  | apiPath :: rest =>
      match pathTools fuel productName specPath spec global targetServer apiPath with
      | None => None
      | Some (ts, Some e) => Some (ts, Some e)
      | Some (ts, None) =>
          match pathsTools fuel productName specPath spec global targetServer rest with
          | None => None
          | Some (ts', e) => Some ((ts ++ ts')%list, e)
          end
      end
  end.

(** The [try] block for one spec: the tools it pushes.  What was pushed
    before an exception stays pushed; the [catch] only logs. *)
Definition specTools (fuel : nat) (productName specPath specContent : value)
    : option (list Tool) :=
  match yaml_load specContent with
  | Throw _ => Some []
  | Ok spec =>
      if negb (JS.truthy spec) || negb (JS.is_object spec)
         || negb (JS.truthy (JS.get "paths" spec))
      then Some []
      else
        match globalSecurity spec with
        | Throw _ => Some []
        | Ok global =>
            let targetServer :=
              get_opt "url" (get_opt "0" (JS.get "servers" spec)) in
            match pathsTools fuel productName specPath spec global
                    targetServer (JS.keys (JS.get "paths" spec)) with
            | None => None
            | Some (ts, _) => Some ts
            end
        end
  end.

Fixpoint concatM {A B} (f : A -> option (list B)) (l : list A)
    : option (list B) :=
  match l with
  | [] => Some []
  | x :: r =>
      match f x, concatM f r with
      | Some ys, Some zs => Some (ys ++ zs)%list
      | _, _ => None
      end
  end.

(** [specData] is a Map of Maps: entries in insertion order. *)
Definition generateOpenApiTools (fuel : nat)
    (specData : list (value * list (value * value))) : option (list Tool) :=
  concatM (fun '(productName, specMap) =>
             concatM (fun '(specPath, specContent) =>
                        specTools fuel productName specPath specContent)
               specMap)
    specData.

(** ** The MCP client and the executor *)

(** [JSON.stringify]: a string, or [undefined]. *)
Variable JSON_stringify : value -> value.

(** [tokenData.expires_in ? Date.now() + tokenData.expires_in * 1000 : null]. *)
Definition expiry_of (t : Z) (expires_in : value) : option Z :=
  if JS.truthy expires_in then
    match to_number expires_in with
    | Some n => Some (t + n * 1000)
    | None => None
    end
  else None.

(** [errorDetails] in the [catch] of the token exchange. *)
Definition errorDetailsOf (errorData : value) : value :=
  js_or (get_opt "message" errorData)
    (js_or (get_opt "error_description" errorData)
       (JSON_stringify errorData)).

(** [details] in the [catch] of a request. *)
Definition detailsOf (errorData : value) : value :=
  js_or (get_opt "message" errorData)
    (js_or (get_opt "error" errorData) (JSON_stringify errorData)).

Definition getValidAccessToken : M value :=
  a <- getThis;;
  t <- Date_now;;
  if token_is_fresh a t then ret (accessToken a)
  else
    try_
      (response <- axios (tokenRequest a);;
       let tokenData := snd response in
       token <- lift (get_strict "access_token" tokenData);;
       if negb (JS.truthy token) then
         throw (JsError "Received invalid token response from /token endpoint.")
       else
         setThis (set_token token);;
         t' <- Date_now;;
         (* [tokenData.expires_in * 1000] converts a truthy lifetime *)
         lift (if JS.truthy (JS.get "expires_in" tokenData)
               then ToNumber (JS.get "expires_in" tokenData) else Ok None);;
         setThis (set_expiry (expiry_of t' (JS.get "expires_in" tokenData)));;
         ret token)
      (fun error =>
         invalidate;;
         match response error with
         | Some (status, errorData) =>
             let errorDetails := errorDetailsOf errorData in
             details <- lift (ToString errorDetails);;
             throw (JsError ("Token Error (Status " +:+ pretty status +:+ "): "
                             +:+ details))
         | None =>
             if request error then
               throw (JsError
                 "Network Error: No response received from MCP /token endpoint.")
             else
               throw (JsError ("Token Request Error: " +:+ message error))
         end).

Definition makeRequest (endpoint method : string) (data : value) : M value :=
  try_
    (token <- getValidAccessToken;;
     a <- getThis;;
     (* the Authorization header is [`Bearer ${token}`] *)
     lift (ToString token);;
     response <- axios (apiRequest a token endpoint method data);;
     ret (snd response))
    (fun error =>
       match response error with
       | Some (status, errorData) =>
           let errorMessage := "MCP API Error (Status " +:+ pretty status +:+ ")" in
           let details := detailsOf errorData in
           (* the details are converted before the status is looked at *)
           text <- lift (if JS.truthy details then ToString details else Ok "");;
           let errorMessage :=
             if JS.truthy details
             then errorMessage +:+ ": " +:+ text
             else errorMessage in
           if status =? 401 then
             invalidate;;
             throw (JsError (errorMessage
                             +:+ " (Token might be expired or invalid)"))
           else throw (JsError errorMessage)
       | None =>
           if request error then
             throw (JsError
               "Network Error: No response received from MCP API. Check connection and base URL.")
           else
             throw (JsError ("Request Setup Error: " +:+ message error
                             +:+ ". Check request parameters."))
       end).

Definition getSpecContent (productName specPath : string) : M value :=
  if String.eqb productName "" then
    throw (JsError "productName is required for getSpecContent")
  else if String.eqb specPath "" then
    throw (JsError "specPath is required for getSpecContent")
  else
    let encodedProductName := Str.encodeURIComponent productName in
    makeRequest ("/products/" +:+ encodedProductName +:+ "/specs/" +:+ specPath)
      "GET" VNull.

Definition getSpecContentWithCache (productName specPath : string) : M value :=
  let cacheKey := cacheKeyOf productName specPath in
  a <- getThis;;
  hit <-
    (if 0 <? cacheTTL a then
       match specCache a !! cacheKey with
       | Some cachedEntry =>
           t <- Date_now;;
           if t <? expiry cachedEntry then ret (Some (content cachedEntry))
           else
             setThis (fun a => set_cache (delete cacheKey (specCache a)) a);;
             ret None
       | None => ret None
       end
     else ret None);;
  match hit with
  | Some cached => ret cached
  | None =>
      fetched <- getSpecContent productName specPath;;
      a <- getThis;;
      (if 0 <? cacheTTL a then
         t <- Date_now;;
         let expiry := t + cacheTTL a in
         setThis (fun a =>
           set_cache (<[cacheKey := {| content := fetched; expiry := expiry |}]>
                        (specCache a)) a);;
         (* the debug line prints [new Date(expiry).toISOString()] *)
         lift (toISOString expiry)
       else ret tt);;
      ret fetched
  end.

(** What the call does when no live entry answers it: it drops the
    entry, fetches, and on success stores what it fetched until
    [Date.now() + cacheTTL]; it returns it when a [Date] can hold that
    time, and throws RangeError otherwise, the entry stored. *)
Definition fetch_and_store (productName specPath : string) (st : State)
    : result value * State :=
  let cacheKey := cacheKeyOf productName specPath in
  match getSpecContent productName specPath
          (swap_cache (delete cacheKey (specCache (this st))) st) with
  | (Ok fetched, st') =>
      let expiry := now (world st') + cacheTTL (this st) in
      (_ <-? toISOString expiry; Ok fetched,
       swap_cache
         (<[cacheKey := {| content := fetched; expiry := expiry |}]>
            (specCache (this st'))) st')
  | (Throw e, st') => (Throw e, st')
  end.

(** *** The tool executor *)

(** [s.replace(pattern, replacement)] with a string pattern: the first
    occurrence only. *)
Fixpoint replace_first (pattern replacement s : string) : string :=
  if Str.startsWith pattern s
  then replacement +:+ Str.substring_from (String.length pattern) s
  else match s with
       | EmptyString => EmptyString
       | String c r => String c (replace_first pattern replacement r)
       end.

(** One round of [openapiParameters.forEach]. *)
Definition place_parameter (parameters : value) (d : Draft)
    (paramOrRef : value) : result Draft :=
  if negb (JS.is_object paramOrRef) then
    Throw (JsError "Cannot use 'in' operator to search for '$ref'")
  else if JS.has "$ref" paramOrRef then
    (* the warning prints [paramOrRef.$ref] *)
    _ <-? ToString (JS.get "$ref" paramOrRef); Ok d
  else
    let paramName := JS.to_string (JS.get "name" paramOrRef) in
    paramValue <-? get_strict paramName parameters;
    (* [param.name] is the key of the read: it is converted *)
    _ <-? ToString (JS.get "name" paramOrRef);
    if is_undefined paramValue then Ok d
    else
      let place := JS.get "in" paramOrRef in
      if JS.strict_eq_str place "path" then
        text <-? ToString paramValue;
        Ok {| d_url := replace_first ("{" +:+ paramName +:+ "}")
                         (Str.encodeURIComponent text) (d_url d);
              d_queryParams := d_queryParams d; d_headers := d_headers d |}
      else if JS.strict_eq_str place "query" then
        Ok {| d_url := d_url d;
              d_queryParams := Zod.set_prop paramName paramValue (d_queryParams d);
              d_headers := d_headers d |}
      else if JS.strict_eq_str place "header" then
        text <-? ToString paramValue;
        Ok {| d_url := d_url d; d_queryParams := d_queryParams d;
              d_headers := Zod.set_prop paramName (VStr text) (d_headers d) |}
      else Ok d.

Fixpoint place_parameters (parameters : value) (d : Draft)
    (l : list value) : result Draft :=
  match l with
  | [] => Ok d
  | p :: r => d' <-? place_parameter parameters d p; place_parameters parameters d' r
  end.

(** [Object.assign(target, source)]. *)
Definition assign (target : list (string * value)) (source : value)
    : list (string * value) :=
  fold_left (fun t kv => Zod.set_prop (fst kv) (snd kv) t) (JS.entries source)
    target.

(** The request an invocation issues, up to the authentication headers. *)
Definition draftRequest (input : ExecutorInput) : result Draft :=
  let details := in_executionDetails input in
  let method := in_method input in
  if negb (JS.truthy (targetServer details)) then
    Throw (JsError ("Target server URL is missing for tool '" +:+ method +:+ "'."))
  else if negb (JS.truthy (httpMethod details)) then
    Throw (JsError ("HTTP method is missing for tool '" +:+ method
                    +:+ "'. This should be set for non-direct return tools."))
  else if negb (JS.truthy (apiPath details)) then
    Throw (JsError ("API path is missing for tool '" +:+ method
                    +:+ "'. This should be set for non-direct return tools."))
  else
    server <-? ToString (targetServer details);
    path <-? ToString (apiPath details);
    let url := server +:+ path in
    let d := {| d_url := url; d_queryParams := [];
                d_headers := [("Content-Type", VStr "application/json");
                              ("Accept", VStr "application/json")] |} in
    d <-? match openapiParameters details with
          | VUndef => Ok d
          | VArr l => place_parameters (in_parameters input) d l
          | _ => Throw (JsError "openapiParameters.forEach is not a function")
          end;
    (* [parameters.body] is read even when no parameter was declared *)
    _ <-? get_strict "body" (in_parameters input);
    Ok d.

(** [httpMethod] is the verb the generator wrote into the descriptor, a
    string; the line logged before the request prints it. *)
Definition executeOpenApiTool (input : ExecutorInput) : M ToolResult :=
  let details := in_executionDetails input in
  if JS.truthy (isDirectReturnValue details) then
    ret {| text := directReturnValue details; isError := false |}
  else
    d <- lift (draftRequest input);;
    let body := JS.get "body" (in_parameters input) in
    let requestBody := if JS.truthy body then body else VUndef in
    authHeaders <- getAuthenticationHeaders input;;
    let config :=
      {| c_method := httpMethod details;
         c_url := d_url d;
         c_headers := assign (d_headers d) authHeaders;
         c_auth := None;
         c_params := d_queryParams d;
         c_data := requestBody |} in
    try_
      (response <- axios config;;
       ret {| text := JSON_stringify (snd response); isError := false |})
      (fun error =>
         match response error with
         | Some (_, data) =>
             if isAxiosError error
             then ret {| text := JSON_stringify data; isError := true |}
             else throw error
         | None => throw error
         end).

(** The request the executor hands to axios. *)
Definition executorRequest (input : ExecutorInput) (d : Draft)
    (authHeaders : value) : AxiosConfig :=
  let body := JS.get "body" (in_parameters input) in
  {| c_method := httpMethod (in_executionDetails input);
     c_url := d_url d;
     c_headers := assign (d_headers d) authHeaders;
     c_auth := None;
     c_params := d_queryParams d;
     c_data := if JS.truthy body then body else VUndef |}.

(** ** Vocabulary of the statements *)

Fixpoint all_chars (P : ascii -> bool) (s : string) : bool :=
  match s with
  | EmptyString => true
  | String c r => P c && all_chars P r
  end.

Definition first_char (s : string) : option ascii :=
  match s with
  | EmptyString => None
  | String c _ => Some c
  end.

Fixpoint last_char (s : string) : option ascii :=
  match s with
  | EmptyString => None
  | String c EmptyString => Some c
  | String _ r => last_char r
  end.

Definition is_some_underscore (o : option ascii) : bool :=
  match o with
  | Some c => Str.is_underscore c
  | None => false
  end.

Definition is_letter (c : ascii) : bool := Str.is_lower c || Str.is_upper c.

(** Only letters, digits and underscores. *)
Definition word_only (s : string) : bool := all_chars Str.is_word s.

(** An underscore at either end. *)
Definition untrimmed (s : string) : bool :=
  is_some_underscore (first_char s) || is_some_underscore (last_char s).

(** A valid identifier, as the data model has it: letters, digits and
    underscores, no underscore at either end; and not empty. *)
Definition valid_identifier (s : string) : bool :=
  negb (String.eqb s "") && word_only s && negb (untrimmed s).

Definition non_word (c : ascii) : bool := negb (Str.is_word c).

(** Nothing follows, or a letter, digit or underscore does. *)
Definition run_ends (rest : string) : bool :=
  match rest with
  | EmptyString => true
  | String c _ => Str.is_word c
  end.

(** *** Measures of the mapper's recursion *)

(** Nesting depth of a value. *)
Fixpoint depth (v : value) : nat :=
  match v with
  | VArr l => S (fold_right Nat.max 0%nat (map depth l))
  | VObj ps => S (fold_right Nat.max 0%nat (map (fun kv => depth (snd kv)) ps))
  | _ => 0%nat
  end.

(** The pointer strings of the reference objects inside a value. *)
Fixpoint ref_strings (v : value) : list string :=
  match v with
  | VObj ps =>
      (match JS.assoc "$ref" ps with
       | Some (VStr r) => [r]
       | _ => []
       end ++ flat_map (fun kv => ref_strings (snd kv)) ps)%list
  | VArr l => flat_map ref_strings l
  | _ => []
  end.

(** How far the [type] of a schema is from a type name. *)
Definition type_rank (v : value) : nat :=
  match JS.get "type" v with
  | VArr l => 2 + depth (VArr l)
  | t => if JS.truthy t then 0 else 1
  end.

(** The schema the mapper works on: the parameter's, or the node itself. *)
Definition target_of (schemaOrRef : value) : value :=
  if isParameterObject schemaOrRef then JS.get "schema" schemaOrRef
  else schemaOrRef.

(** The recursive calls of one invocation: [calls spec x v y w] when
    [mapOpenApiTypeToZod(x, spec, v)] calls
    [mapOpenApiTypeToZod(y, spec, w)]. *)
Inductive calls (spec : value) (x : value) (v : gset string)
    : value -> gset string -> Prop :=
| calls_resolved r resolved :
    isReferenceObject (target_of x) = true ->
    JS.get "$ref" (target_of x) = VStr r ->
    r ∉ v ->
    resolveReference spec (VStr r) = Ok resolved ->
    calls spec x v resolved ({[ r ]} ∪ v)
| calls_items :
    isReferenceObject (target_of x) = false ->
    JS.get "type" (target_of x) = VStr "array" ->
    calls spec x v (JS.get "items" (target_of x)) v
| calls_property propName :
    isReferenceObject (target_of x) = false ->
    JS.get "type" (target_of x) = VStr "object" ->
    In propName (JS.keys (JS.get "properties" (target_of x))) ->
    calls spec x v (JS.get propName (JS.get "properties" (target_of x))) v
| calls_additional :
    isReferenceObject (target_of x) = false ->
    JS.get "type" (target_of x) = VStr "object" ->
    calls spec x v (JS.get "additionalProperties" (target_of x)) v
| calls_member types t :
    isReferenceObject (target_of x) = false ->
    JS.get "type" (target_of x) = VArr types ->
    In t types ->
    calls spec x v (with_type (target_of x) t) v
| calls_inferred inferredType :
    inferredType = "array" \/ inferredType = "object" ->
    isReferenceObject (target_of x) = false ->
    JS.truthy (JS.get "type" (target_of x)) = false ->
    JS.truthy (JS.get "properties" (target_of x))
      || JS.truthy (JS.get "additionalProperties" (target_of x))
      || JS.has "items" (target_of x) = true ->
    calls spec x v (with_type (target_of x) (VStr inferredType)) v.

(** A run with more fuel agrees with a run that returned. *)
Definition agrees {A} (o o' : option A) : Prop :=
  forall r, o = Some r -> o' = Some r.

(** A computation indexed by fuel that returns from some fuel on. *)
Definition returns {A} (f : nat -> option A) : Prop :=
  exists n, forall fuel, (n <= fuel)%nat -> is_Some (f fuel).

(** [c] is a member of the object or array [v]. *)
Definition child (c v : value) : Prop :=
  match v with
  | VObj ps => exists k, In (k, c) ps
  | VArr l => In c l
  | _ => False
  end.

(** What shrinks from a call to the calls it makes: the references still
    to be entered, or else the depth of the node, or else the rank of
    its [type]. *)
Definition smaller (U : gset string) (x : value) (v : gset string)
    (y : value) (w : gset string) : Prop :=
  (size (U ∖ w) < size (U ∖ v))%nat \/
  (w = v /\ (depth y < depth x)%nat) \/
  (w = v /\ (depth y <= depth x)%nat /\ (type_rank y < type_rank x)%nat).

(** Proofs that do not concern the host functions start by putting
    them out of reach of tactics that go through the whole context. *)
Ltac forget_host :=
  try clear JSON_stringify; try clear toUpperCase; try clear HttpMethods;
  try clear yaml_load; try clear StringToNumber; try clear regexp_ok.

(** ** Listing products and collecting their specs *)

Definition getBaseUrl : M string := a <- getThis;; ret (baseUrl a).

(** [makeRequest("/products", "GET")]: [data] takes its default, [null]. *)
Definition listProducts : M value := makeRequest "/products" "GET" VNull.

(** The product name is whatever the caller passes: the collector below
    passes what the product list holds. *)
Definition listProductSpecs (productName : value) : M value :=
  if negb (JS.truthy productName) then
    throw (JsError "productName is required for listProductSpecs")
  else
    name <- lift (ToString productName);;
    let encodedProductName := Str.encodeURIComponent name in
    makeRequest ("/products/" +:+ encodedProductName +:+ "/specs") "GET" VNull.

(** [getSpecContent] and [getSpecContentWithCache] called with a product
    name that need not be a string: the tests are on the value, the URL
    and the cache key take its string form. *)
Definition getSpecContent_untyped (productName : value) (specPath : string)
    : M value :=
  if negb (JS.truthy productName) then
    throw (JsError "productName is required for getSpecContent")
  else if String.eqb specPath "" then
    throw (JsError "specPath is required for getSpecContent")
  else
    name <- lift (ToString productName);;
    let encodedProductName := Str.encodeURIComponent name in
    makeRequest ("/products/" +:+ encodedProductName +:+ "/specs/" +:+ specPath)
      "GET" VNull.

Definition getSpecContentWithCache_untyped (productName : value)
    (specPath : string) : M value :=
  name <- lift (ToString productName);;
  let cacheKey := cacheKeyOf name specPath in
  a <- getThis;;
  hit <-
    (if 0 <? cacheTTL a then
       match specCache a !! cacheKey with
       | Some cachedEntry =>
           t <- Date_now;;
           if t <? expiry cachedEntry then ret (Some (content cachedEntry))
           else
             setThis (fun a => set_cache (delete cacheKey (specCache a)) a);;
             ret None
       | None => ret None
       end
     else ret None);;
  match hit with
  | Some cached => ret cached
  | None =>
      fetched <- getSpecContent_untyped productName specPath;;
      a <- getThis;;
      (if 0 <? cacheTTL a then
         t <- Date_now;;
         let expiry := t + cacheTTL a in
         setThis (fun a =>
           set_cache (<[cacheKey := {| content := fetched; expiry := expiry |}]>
                        (specCache a)) a);;
         lift (toISOString expiry)
       else ret tt);;
      ret fetched
  end.

(** SameValueZero, the equality of [Map] keys.  Two nodes of a parsed
    reply are never the same object, so objects and arrays are equal to
    nothing the loop has seen before. *)
Definition same_value_zero (a b : value) : bool :=
  match a, b with
  | VUndef, VUndef | VNull, VNull => true
  | VBool x, VBool y => Bool.eqb x y
  | VNum x, VNum y => x =? y
  | VStr x, VStr y => String.eqb x y
  | _, _ => false
  end.

(** [map.set(k, x)] on a [Map], as the list of its entries in insertion
    order. *)
Fixpoint map_set {A} (k : value) (x : A) (m : list (value * A))
    : list (value * A) :=
  match m with
  | [] => [(k, x)]
  | (k', y) :: r =>
      if same_value_zero k' k then (k, x) :: r else (k', y) :: map_set k x r
  end.

(** [attributes.find(a => a.Name === name)] on the elements of an array. *)
Fixpoint find_attribute (name : string) (attributes : list value)
    : result value :=
  match attributes with
  | [] => Ok VUndef
  | a :: rest =>
      n <-? get_strict "Name" a;
      if JS.strict_eq_str n name then Ok a else find_attribute name rest
  end.

(** [config.attributes.find(...)]: only an array has [find]. *)
Definition find_in (name : string) (attributes : value) : result value :=
  match attributes with
  | VArr l => find_attribute name l
  | VUndef | VNull =>
      Throw (JsError ("Cannot read properties of " +:+ JS.to_string attributes
                      +:+ " (reading 'find')"))
  | _ => Throw (JsError "config.attributes.find is not a function")
  end.

Definition specPathOf (specLocation hubApi hubVersion hubSpec : value)
    : result string :=
  location <-? ToString specLocation;
  api <-? ToString hubApi;
  version <-? ToString hubVersion;
  spec <-? ToString hubSpec;
  Ok (location +:+ "/apis/" +:+ api +:+ "/versions/" +:+ version
      +:+ "/specs/" +:+ spec).

(** One round of [for (const config of configsFinal)]: the spec map
    after it. *)
Definition fetch_config (productName specLocation : value)
    (productSpecMap : list (string * value)) (config : value)
    : M (list (string * value)) :=
  attributes <- lift (get_strict "attributes" config);;
  hubApiAttr <- lift (find_in "hub_api" attributes);;
  hubVersionAttr <- lift (find_in "hub_version" attributes);;
  hubSpecAttr <- lift (find_in "hub_spec" attributes);;
  if JS.truthy (get_opt "Value" hubApiAttr)
     && JS.truthy (get_opt "Value" hubVersionAttr)
     && JS.truthy (get_opt "Value" hubSpecAttr)
  then
    specPath <-
      lift (specPathOf specLocation (JS.get "Value" hubApiAttr)
              (JS.get "Value" hubVersionAttr) (JS.get "Value" hubSpecAttr));;
    fetched <- getSpecContentWithCache_untyped productName specPath;;
    ret (Zod.set_prop specPath fetched productSpecMap)
  else ret productSpecMap.

(** The loop over the configs, inside the product's [try]: an exception
    in a round leaves the loop, and the [catch] goes on to the next
    product with the spec map as the rounds before left it. *)
Fixpoint fetch_configs (productName specLocation : value)
    (configs : list value) (productSpecMap : list (string * value))
    : M (list (string * value)) :=
  match configs with
  | [] => ret productSpecMap
  | config :: rest =>
      round <-
        try_ (m <- fetch_config productName specLocation productSpecMap config;;
              ret (Some m))
             (fun _ => ret None);;
      match round with
      | Some m => fetch_configs productName specLocation rest m
      | None => ret productSpecMap
      end
  end.

(** [v] when it is an array, [[v]] otherwise. *)
Definition as_array (v : value) : list value :=
  match v with
  | VArr l => l
  | _ => [v]
  end.

(** The body of [for (const productName of productNamesFinal)] after
    [allSpecsContent.set(productName, productSpecMap)]: the spec map of
    the product when the round ends.  The [catch] prints the product
    name. *)
Definition productSpecs (productName : value) : M (list (string * value)) :=
  try_
    (specList <- listProductSpecs productName;;
     Specs <- lift (get_strict "Specs" specList);;
     let configs := nullish_or (get_opt "operationConfigs" Specs) (VArr []) in
     let configsFinal := as_array configs in
     let specLocation := get_opt "SpecLocation" Specs in
     if negb (JS.truthy specLocation) then ret []
     else fetch_configs productName specLocation configsFinal [])
    (fun _ => lift (ToString productName);; ret []).

(** The outer map holds the product's spec map from the start of the
    round and sees what the round puts into it; the entry is written
    here once, with the map as the round leaves it.  A round starts by
    printing the product name, outside the [try]. *)
Fixpoint fetch_products (productNames : list value)
    (allSpecsContent : list (value * list (string * value)))
    : M (list (value * list (string * value))) :=
  match productNames with
  | [] => ret allSpecsContent
  | productName :: rest =>
      lift (ToString productName);;
      productSpecMap <- productSpecs productName;;
      fetch_products rest (map_set productName productSpecMap allSpecsContent)
  end.

Definition getAllProductSpecsContent
    : M (list (value * list (string * value))) :=
  productList <- listProducts;;
  Products <- lift (get_strict "Products" productList);;
  let productNames := nullish_or (get_opt "Name" Products) (VArr []) in
  fetch_products (as_array productNames) [].

(** *** The fixed tools of the client *)

(** [z.object({...})] with every property [z.string().min(n, message)]. *)
Definition StringFields : Type := list (string * (Z * string)).

Record ClientTool : Type := mkClientTool {
  ct_method : string;
  ct_name : string;
  ct_description : string;
  ct_parameters : StringFields;
  ct_category : string
}.

Definition listProductsParameters : StringFields := [].
Definition listProductSpecsParameters : StringFields :=
  [("productName", (1, "Product name cannot be empty."))].
Definition getSpecContentParameters : StringFields :=
  [("productName", (1, "Product name cannot be empty."));
   ("specPath", (1, "Specification path cannot be empty."))].
Definition getAllProductSpecsContentParameters : StringFields := [].

Definition tools : list ClientTool :=
  [ {| ct_method := "listProducts";
       ct_name := "List Products";
       ct_description :=
         "Retrieves a list of available API Product names from the MCP.";
       ct_parameters := listProductsParameters;
       ct_category := "products" |};
    {| ct_method := "listProductSpecs";
       ct_name := "List Product Specifications";
       ct_description :=
         "Retrieves the list of API specifications (and associated metadata) linked to a specific API Product.";
       ct_parameters := listProductSpecsParameters;
       ct_category := "specs" |};
    {| ct_method := "getSpecContent";
       ct_name := "Get Specification Content";
       ct_description :=
         "Retrieves the raw content (e.g., YAML or JSON) of a specific API specification file identified by its product name and path.";
       ct_parameters := getSpecContentParameters;
       ct_category := "content" |};
    {| ct_method := "getAllProductSpecsContent";
       ct_name := "Get All Product Specifications Content";
       ct_description :=
         "Retrieves all products, lists their associated specs, and fetches the content for every spec, utilizing an in-memory cache.";
       ct_parameters := getAllProductSpecsContentParameters;
       ct_category := "content" |} ].

(** ** Vocabulary of the further properties *)

(** A letter or a digit. *)
Definition is_alnum (c : ascii) : bool :=
  Str.is_lower c || Str.is_upper c || Str.is_digit c.

Definition no_alnum (s : string) : bool :=
  all_chars (fun c => negb (is_alnum c)) s.

(** The JSON Pointer escaping that the resolver undoes: [~] is written
    [~0] and [/] is written [~1]. *)
Fixpoint escape_segment (k : string) : string :=
  match k with
  | EmptyString => EmptyString
  | String c r =>
      if Ascii.eqb c "~" then String "~" (String "0" (escape_segment r))
      else if Ascii.eqb c "/" then String "~" (String "1" (escape_segment r))
      else String c (escape_segment r)
  end.

Fixpoint join_segments (segments : list string) : string :=
  match segments with
  | [] => EmptyString
  | [s] => s
  | s :: r => s +:+ String "/" (join_segments r)
  end.

(** The local pointer that spells a path of keys. *)
Definition pointer_to (ks : list string) : string :=
  "#/" +:+ join_segments (map escape_segment ks).

Definition no_percent (k : string) : bool :=
  all_chars (fun c => negb (Ascii.eqb c "%")) k.

Definition no_slash (k : string) : bool :=
  all_chars (fun c => negb (Ascii.eqb c "/")) k.

(** [~] as [~0], the rest as it is: an escaped segment between the
    resolver's two replacements. *)
Fixpoint half_escaped (k : string) : string :=
  match k with
  | EmptyString => EmptyString
  | String c r =>
      if Ascii.eqb c "~" then String "~" (String "0" (half_escaped r))
      else String c (half_escaped r)
  end.

(** Whether a call of the mapper on [schemaOrRef] makes its result
    optional: the node is a parameter that is not required. *)
Definition isOptionalOf (schemaOrRef : value) : bool :=
  isParameterObject schemaOrRef
  && negb (JS.truthy (JS.get "required" schemaOrRef)).

(** [descriptionFromParam]. *)
Definition descriptionFromParamOf (schemaOrRef : value) : value :=
  if isParameterObject schemaOrRef then JS.get "description" schemaOrRef
  else VUndef.

(** The schema the mapper returns for a parameter without schema,
    before optionality. *)
Definition anyTypeOf (param : value) : ZodType :=
  ZodAny (js_or (JS.get "description" param)
            (VStr ("Parameter " +:+ JS.to_string (JS.get "name" param)
                   +:+ " with no schema defined"))).

(** A constraint of the string case: one of the three formats, a
    length bound or a pattern. *)
Definition has_string_constraint (schema : value) : bool :=
  JS.strict_eq_str (JS.get "format" schema) "date-time"
  || JS.strict_eq_str (JS.get "format" schema) "email"
  || JS.strict_eq_str (JS.get "format" schema) "uuid"
  || negb (is_undefined (JS.get "minLength" schema))
  || negb (is_undefined (JS.get "maxLength" schema))
  || negb (is_undefined (JS.get "pattern" schema)).

(** [enum] is a non-empty array of strings: the string case builds an
    enumeration. *)
Definition is_string_enum (schema : value) : bool :=
  match JS.get "enum" schema with
  | VArr (v :: vs) => forallb JS.is_string (v :: vs)
  | _ => false
  end.


(** The sentinels of the reference branch. *)
Definition is_sentinel (d : value) : Prop :=
  exists r, d = VStr ("Circular reference: " +:+ r)
            \/ d = VStr ("Unresolved reference: " +:+ r).

(** What the security scan makes of one scheme name: the URL of the
    scheme when it is, once resolved, an OpenID Connect scheme. *)
Definition scheme_url (spec : value) (schemeName : string)
    : result (option value) :=
  let scheme :=
    JS.get schemeName (JS.get "securitySchemes" (JS.get "components" spec)) in
  if JS.truthy scheme then
    resolvedScheme <-?
      (if isReferenceObject scheme then
         r <-? resolveReference spec (JS.get "$ref" scheme);
         Ok (nullish_or r scheme)
       else Ok scheme);
    if negb (isReferenceObject resolvedScheme)
       && JS.strict_eq_str (JS.get "type" resolvedScheme) "openIdConnect"
    then Ok (Some (JS.get "openIdConnectUrl" resolvedScheme))
    else Ok None
  else Ok None.

(** The scheme names a requirement list goes through, in order. *)
Definition scheme_names (requirements : list value) : list string :=
  flat_map JS.keys requirements.

(** The first name is an OpenID Connect scheme with URL [url], after
    names that are not. *)
Definition first_openid (spec : value) (names : list string) (url : value)
    : Prop :=
  exists before name after,
    names = (before ++ name :: after)%list /\
    Forall (fun n => scheme_url spec n = Ok None) before /\
    scheme_url spec name = Ok (Some url).

(** A spec text the generator goes on with: it parses to an object
    with [paths]. *)
Definition usable_spec (specContent : value) : bool :=
  match yaml_load specContent with
  | Ok spec =>
      JS.truthy spec && JS.is_object spec && JS.truthy (JS.get "paths" spec)
  | Throw _ => false
  end.

Definition usable_specs (specData : list (value * list (value * value)))
    : list (value * list (value * value)) :=
  map (fun entry =>
         (fst entry, List.filter (fun s => usable_spec (snd s)) (snd entry)))
    specData.

(** A declared parameter that puts the argument named [k] into the
    query string: it is no reference, it is named [k], the argument is
    there, and its place is the query. *)
Definition sends_query (parameters : value) (k : string) (p : value) : bool :=
  negb (JS.has "$ref" p)
  && String.eqb (JS.to_string (JS.get "name" p)) k
  && negb (is_undefined (JS.get k parameters))
  && JS.strict_eq_str (JS.get "in" p) "query".

(** The same for a header. *)
Definition sends_header (parameters : value) (k : string) (p : value) : bool :=
  negb (JS.has "$ref" p)
  && String.eqb (JS.to_string (JS.get "name" p)) k
  && negb (is_undefined (JS.get k parameters))
  && JS.strict_eq_str (JS.get "in" p) "header".

(** The headers every request of the executor starts from. *)
Definition defaultHeaders : list (string * value) :=
  [("Content-Type", VStr "application/json");
   ("Accept", VStr "application/json")].

(** The declared parameters of an invocation: none when the descriptor
    has no list. *)
Definition declared_parameters (input : ExecutorInput) : list value :=
  match openapiParameters (in_executionDetails input) with
  | VArr l => l
  | _ => []
  end.

(** The settings of a client, which no operation changes. *)
Definition same_configuration (a b : McpApi) : Prop :=
  baseUrl a = baseUrl b /\ clientId a = clientId b /\
  clientSecret a = clientSecret b /\ cacheTTL a = cacheTTL b.

(** The client after a failed exchange. *)
Definition wiped (a : McpApi) : McpApi := set_expiry None (set_token VNull a).

(** The three messages of a failed API request. *)
Definition is_request_error (msg : string) : Prop :=
  Str.startsWith "MCP API Error (Status " msg = true \/
  msg = "Network Error: No response received from MCP API. Check connection and base URL." \/
  Str.startsWith "Request Setup Error: " msg = true.

Definition no_colon (s : string) : bool :=
  all_chars (fun c => negb (Ascii.eqb c ":")) s.

(** The product names a product list holds. *)
Definition productNamesOf (productList : value) : list value :=
  as_array (nullish_or (get_opt "Name" (JS.get "Products" productList))
              (VArr [])).

Fixpoint count_char (c : ascii) (s : string) : nat :=
  match s with
  | EmptyString => 0%nat
  | String d r => ((if Ascii.eqb d c then 1 else 0) + count_char c r)%nat
  end.

(** A character that percent-encoding neither keeps nor writes: it is
    not unreserved and it is not the percent sign. *)
Definition is_reserved (c : ascii) : bool :=
  negb (Str.uri_unreserved c) && negb (Ascii.eqb c "%").



(** * Properties of the sanitizer *)

Lemma collapse_runs_word_only b s : word_only (collapse_runs b s) = true.
Proof.
  unfold word_only. revert b. induction s as [|c s IH]; intros b; simpl; [done|].
  destruct (Str.is_word c) eqn:Hc; simpl.
  - by rewrite Hc, IH.
  - destruct b; simpl; by rewrite ?IH.
Qed.

Lemma drop_leading_all P s :
  all_chars P s = true -> all_chars P (drop_leading_underscores s) = true.
Proof.
  induction s as [|c s IH]; simpl; [done|].
  intros [Hc Hs]%andb_prop. destruct (Str.is_underscore c); [by apply IH|].
  simpl. by rewrite Hc, Hs.
Qed.

Lemma drop_trailing_all P s :
  all_chars P s = true -> all_chars P (drop_trailing_underscores s) = true.
Proof.
  induction s as [|c s IH]; simpl; [done|].
  intros [Hc Hs]%andb_prop. specialize (IH Hs).
  destruct (drop_trailing_underscores s) eqn:E.
  - destruct (Str.is_underscore c); simpl; [done|by rewrite Hc].
  - simpl in *. by rewrite Hc, IH.
Qed.

Lemma drop_leading_first s :
  is_some_underscore (first_char (drop_leading_underscores s)) = false.
Proof.
  induction s as [|c s IH]; simpl; [done|].
  destruct (Str.is_underscore c) eqn:Hc; [done|]. simpl. by rewrite Hc.
Qed.

Lemma drop_trailing_last s :
  is_some_underscore (last_char (drop_trailing_underscores s)) = false.
Proof.
  induction s as [|c s IH]; simpl; [done|].
  destruct (drop_trailing_underscores s) eqn:E.
  - destruct (Str.is_underscore c) eqn:Hc; simpl; [done|by rewrite Hc].
  - done.
Qed.

Lemma drop_trailing_first s :
  drop_trailing_underscores s = EmptyString \/
  first_char (drop_trailing_underscores s) = first_char s.
Proof.
  destruct s as [|c s]; simpl; [by left|].
  destruct (drop_trailing_underscores s).
  - destruct (Str.is_underscore c); [by left|by right].
  - by right.
Qed.

Lemma sanitize_trimmed input : untrimmed (sanitizeForMethodName input) = false.
Proof.
  unfold untrimmed, sanitizeForMethodName, trim_underscores.
  rewrite drop_trailing_last, orb_false_r.
  destruct (drop_trailing_first
              (drop_leading_underscores (collapse_runs false input))) as [->| ->].
  - done.
  - apply drop_leading_first.
Qed.

Lemma sanitize_word_only input : word_only (sanitizeForMethodName input) = true.
Proof.
  apply drop_trailing_all, drop_leading_all, collapse_runs_word_only.
Qed.

Lemma collapse_runs_word w rest :
  word_only w = true ->
  collapse_runs false (w +:+ rest) = w +:+ collapse_runs false rest.
Proof.
  unfold word_only. induction w as [|c w IH]; intros Hw; [done|].
  simpl in *. apply andb_prop in Hw as [Hc Hw]. rewrite Hc.
  by rewrite IH.
Qed.

Lemma collapse_runs_in_run r rest :
  all_chars non_word r = true -> run_ends rest = true ->
  collapse_runs true (r +:+ rest) = collapse_runs false rest.
Proof.
  induction r as [|c r IH]; simpl; intros Hr He.
  - destruct rest as [|d rest]; simpl in *; [done|]. by rewrite He.
  - apply andb_prop in Hr as [Hc Hr]. unfold non_word in Hc.
    apply negb_true_iff in Hc. rewrite Hc. by apply IH.
Qed.

Lemma collapse_runs_run r rest :
  all_chars non_word r = true -> r <> EmptyString -> run_ends rest = true ->
  collapse_runs false (r +:+ rest) = String "_" (collapse_runs false rest).
Proof.
  destruct r as [|c r]; [done|]. simpl. intros [Hc Hr]%andb_prop _ He.
  unfold non_word in Hc. apply negb_true_iff in Hc. rewrite Hc.
  f_equal. by apply collapse_runs_in_run.
Qed.

Lemma drop_leading_app u s :
  all_chars Str.is_underscore u = true ->
  drop_leading_underscores (u +:+ s) = drop_leading_underscores s.
Proof.
  induction u as [|c u IH]; simpl; [done|].
  intros [Hc Hu]%andb_prop. rewrite Hc. by apply IH.
Qed.

Lemma drop_trailing_underscores_only u :
  all_chars Str.is_underscore u = true ->
  drop_trailing_underscores u = EmptyString.
Proof.
  induction u as [|c u IH]; simpl; [done|].
  intros [Hc Hu]%andb_prop. by rewrite IH, Hc.
Qed.

Lemma drop_trailing_app core u :
  is_some_underscore (last_char core) = false ->
  all_chars Str.is_underscore u = true ->
  drop_trailing_underscores (core +:+ u) = core.
Proof.
  intros Hl Hu. induction core as [|c core IH].
  - by apply drop_trailing_underscores_only.
  - change (drop_trailing_underscores (String c (core +:+ u)) = String c core).
    destruct core as [|d core].
    + cbn [drop_trailing_underscores]. rewrite IH by done.
      simpl in Hl. by rewrite Hl.
    + cbn [drop_trailing_underscores]. rewrite IH by done. done.
Qed.

Lemma append_empty_r s : s +:+ EmptyString = s.
Proof. induction s as [|c s IH]; [done|]. by rewrite <- IH at 2. Qed.

Lemma trim_underscores_spec u1 core u2 :
  all_chars Str.is_underscore u1 = true ->
  all_chars Str.is_underscore u2 = true ->
  untrimmed core = false ->
  trim_underscores (u1 +:+ core +:+ u2) = core.
Proof.
  unfold untrimmed, trim_underscores. intros H1 H2 [Hf Hl]%orb_false_elim.
  rewrite drop_leading_app by done.
  destruct core as [|c core].
  - change (EmptyString +:+ u2) with u2.
    rewrite <- (append_empty_r u2) at 1.
    rewrite (drop_leading_app u2 EmptyString H2). done.
  - change (String c core +:+ u2) with (String c (core +:+ u2)).
    simpl in Hf. cbn [drop_leading_underscores]. rewrite Hf.
    change (String c (core +:+ u2)) with (String c core +:+ u2).
    by apply drop_trailing_app.
Qed.

(** * Properties of the resolver *)

Section Resolver.



Lemma resolve_loop_decoded cur path ks :
decode_all path = Some ks ->
resolve_loop cur path =
Ok (match lookup_path cur ks with
    | Some VUndef | None => VNull
    | Some v => v
    end).
Proof.
revert cur ks. induction path as [|s path IH]; intros cur ks; simpl.
- intros [= <-]. simpl. by destruct cur.
- destruct (decode_segment s) as [k|] eqn:Hk; [|done].
  destruct (decode_all path) as [ks'|] eqn:Hks; [|done].
  intros [= <-]. simpl.
  destruct (JS.is_object cur); simpl; [|done].
  destruct (JS.has k cur); simpl; [|done].
  by apply IH.
Qed.

Lemma resolve_loop_undecodable cur path :
decode_all path = None ->
resolve_loop cur path = Ok VNull \/ exists e, resolve_loop cur path = Throw e.
Proof.
revert cur. induction path as [|s path IH]; intros cur; simpl; [done|].
destruct (JS.is_object cur); simpl; [|by left].
destruct (decode_segment s) as [k|] eqn:Hk; [|by right; eexists].
destruct (JS.has k cur); simpl; [|by left].
destruct (decode_all path); [done|]. intros _. by apply IH.
Qed.

(** The value the resolver returns for a pointer string. *)
Lemma resolveReference_value doc ref :
resolveReference doc (VStr ref) =
Ok (if Str.startsWith "#/" ref then
      match decoded_path ref with
      | Some ks =>
          match lookup_path doc ks with
          | Some VUndef | None => VNull
          | Some v => v
          end
      | None => VNull
      end
    else VNull).
Proof.
unfold resolveReference, decoded_path, pointer_segments.
destruct (Str.startsWith "#/" ref); simpl; [|done].
destruct (decode_all _) as [ks|] eqn:Hd.
- by rewrite (resolve_loop_decoded _ _ _ Hd).
- destruct (resolve_loop_undecodable doc _ Hd) as [->|[e ->]]; done.
Qed.

End Resolver.

(** * Properties of the mapper *)

(** ** More fuel does not change a result *)

Lemma agrees_refl {A} (o : option A) : agrees o o.
Proof. by intros r. Qed.

Lemma agrees_fbind {A B} (m m' : option (result A))
    (k k' : A -> option (result B)) :
  agrees m m' -> (forall a, agrees (k a) (k' a)) ->
  agrees (fbind m k) (fbind m' k').
Proof.
  intros Hm Hk r. destruct m as [[a|e]|]; simpl; [| |done].
  - rewrite (Hm _ eq_refl). simpl. apply Hk.
  - by rewrite (Hm _ eq_refl).
Qed.

Lemma agrees_ffoldl {A B} (f f' : B -> A -> option (result B)) l b :
  (forall b x, agrees (f b x) (f' b x)) ->
  agrees (ffoldl f l b) (ffoldl f' l b).
Proof.
  intros Hf. revert b. induction l as [|x l IH]; intros b; simpl.
  - apply agrees_refl.
  - apply agrees_fbind; [apply Hf | intros b'; apply IH].
Qed.

Lemma agrees_fmapM {A B} (f f' : A -> option (result B)) l :
  (forall x, agrees (f x) (f' x)) -> agrees (fmapM f l) (fmapM f' l).
Proof.
  intros Hf. induction l as [|x l IH]; simpl.
  - apply agrees_refl.
  - apply agrees_fbind; [apply Hf | intros y].
    apply agrees_fbind; [apply IH | intros; apply agrees_refl].
Qed.

Ltac agree :=
  repeat first
    [ apply agrees_refl
    | assumption
    | apply agrees_fbind; [|intros ?]
    | apply agrees_ffoldl; intros ? ?
    | apply agrees_fmapM; intros ?
    | match goal with
      | |- agrees (if ?c then _ else _) (if ?c then _ else _) => destruct c
      | |- agrees (match ?x with _ => _ end) (match ?x with _ => _ end) =>
          destruct x
      | H : forall c v, agrees (?self c v) (?self' c v)
        |- agrees (?self _ _) (?self' _ _) => apply H
      end ].

Section Monotone.

Variables (self self' : mapper).
Hypothesis Hself : forall c v, agrees (self c v) (self' c v).

Lemma map_reference_agrees spec target d o v :
  agrees (map_reference self spec target d o v)
         (map_reference self' spec target d o v).
Proof. unfold map_reference. agree. Qed.

Lemma map_switch_agrees schema v :
  agrees (map_switch self schema v) (map_switch self' schema v).
Proof.
  unfold map_switch, map_array, map_object, map_property, map_type_array,
    map_untyped.
  agree.
Qed.

Lemma body_agrees spec x v :
  agrees (mapOpenApiTypeToZod_body self spec x v)
         (mapOpenApiTypeToZod_body self' spec x v).
Proof.
  unfold mapOpenApiTypeToZod_body.
  destruct (negb (JS.is_object x)); [apply agrees_refl|].
  destruct (isParameterObject x && _); [apply agrees_refl|].
  destruct (isReferenceObject _).
  - apply map_reference_agrees.
  - apply agrees_fbind; [apply map_switch_agrees | intros; apply agrees_refl].
Qed.

End Monotone.

Lemma mapper_agrees_S fuel x spec v :
  agrees (mapOpenApiTypeToZod fuel x spec v)
         (mapOpenApiTypeToZod (S fuel) x spec v).
Proof.
  revert x v. induction fuel as [|fuel IH]; intros x v; [by intros r|].
  cbn [mapOpenApiTypeToZod]. apply body_agrees. intros c w. apply IH.
Qed.

Lemma mapper_agrees fuel fuel' x spec v :
  (fuel <= fuel')%nat ->
  agrees (mapOpenApiTypeToZod fuel x spec v)
         (mapOpenApiTypeToZod fuel' x spec v).
Proof.
  induction 1 as [|fuel' _ IH]; [apply agrees_refl|].
  intros r Hr. by apply mapper_agrees_S, IH.
Qed.

(** ** Children, depth and reference strings *)

Lemma assoc_In {A} k (ps : list (string * A)) x :
  JS.assoc k ps = Some x -> exists k', In (k', x) ps.
Proof.
  induction ps as [|[k' y] ps IH]; simpl; [done|].
  destruct (String.eqb k' k).
  - intros [= ->]. eauto.
  - intros H. destruct (IH H) as [k'' ?]. eauto.
Qed.

Lemma chars_flat s i x :
  nth_error (JS.chars s) i = Some x -> JS.is_object x = false.
Proof.
  revert i. induction s as [|c s IH]; intros [|i]; simpl; try done.
  - by intros [= <-].
  - apply IH.
Qed.

Lemma get_cases k v :
  child (JS.get k v) v \/ JS.is_object (JS.get k v) = false.
Proof.
  destruct v as [| | | | s | l | ps]; simpl; try by right.
  - unfold JS.slot. destruct (JS.index_of k) as [i|]; simpl.
    + destruct (nth_error (JS.chars s) i) eqn:E.
      * right. by eapply chars_flat.
      * right. by destruct (String.eqb k "length").
    + right. by destruct (String.eqb k "length").
  - unfold JS.slot. destruct (JS.index_of k) as [i|]; simpl.
    + destruct (nth_error l i) eqn:E.
      * left. by eapply nth_error_In.
      * right. by destruct (String.eqb k "length").
    + right. by destruct (String.eqb k "length").
  - destruct (JS.assoc k ps) eqn:E; [|by right].
    left. by eapply assoc_In.
Qed.

Lemma get_object k v :
  JS.is_object (JS.get k v) = true -> child (JS.get k v) v.
Proof. destruct (get_cases k v) as [?|E]; [done|]. rewrite E. done. Qed.

Lemma child_is_object c v : child c v -> JS.is_object v = true.
Proof. by destruct v. Qed.

Lemma max_In (f : value -> nat) l c :
  In c l -> (f c <= fold_right Nat.max 0 (map f l))%nat.
Proof.
  induction l as [|x l IH]; simpl; [done|].
  intros [->|H]; [lia|]. specialize (IH H). lia.
Qed.

Lemma child_depth c v : child c v -> (depth c < depth v)%nat.
Proof.
  destruct v as [| | | | | l | ps]; simpl; try done.
  - intros H. apply (max_In depth) in H. lia.
  - intros [k H]. induction ps as [|[k' y] ps IH]; simpl in *; [done|].
    destruct H as [[= -> ->]|H]; [lia|]. specialize (IH H). lia.
Qed.

Lemma flat_ref_strings v : JS.is_object v = false -> ref_strings v = [].
Proof. by destruct v. Qed.

Lemma child_refs c v r :
  child c v -> In r (ref_strings c) -> In r (ref_strings v).
Proof.
  destruct v as [| | | | | l | ps]; simpl; try done.
  - intros H Hr. apply in_flat_map. eauto.
  - intros [k H] Hr. apply in_or_app. right.
    apply in_flat_map. exists (k, c). eauto.
Qed.

Lemma get_refs k v r :
  In r (ref_strings (JS.get k v)) -> In r (ref_strings v).
Proof.
  destruct (get_cases k v) as [H|H].
  - by apply child_refs.
  - by rewrite (flat_ref_strings _ H).
Qed.

Lemma get_depth k v :
  JS.is_object (JS.get k v) = true -> (depth (JS.get k v) < depth v)%nat.
Proof. intros H. by apply child_depth, get_object. Qed.

Lemma get_depth_le k v : (depth (JS.get k v) <= depth v)%nat.
Proof.
  destruct (JS.is_object (JS.get k v)) eqn:E.
  - apply get_depth in E. lia.
  - destruct (JS.get k v); simpl in *; try lia; done.
Qed.

Lemma lookup_path_refs doc ks v r :
  lookup_path doc ks = Some v ->
  In r (ref_strings v) -> In r (ref_strings doc).
Proof.
  revert doc. induction ks as [|k ks IH]; intros doc; simpl.
  - by intros [= ->].
  - destruct (JS.is_object doc && JS.has k doc); [|done].
    intros H Hr. eapply get_refs, IH; eauto.
Qed.

Lemma resolveReference_refs spec ref resolved r :
  resolveReference spec (VStr ref) = Ok resolved ->
  In r (ref_strings resolved) -> In r (ref_strings spec).
Proof.
  rewrite resolveReference_value.
  destruct (Str.startsWith "#/" ref); [|by intros [= <-]].
  destruct (decoded_path ref) as [ks|]; [|by intros [= <-]].
  destruct (lookup_path spec ks) as [v|] eqn:E; [|by intros [= <-]].
  intros Hv Hr. eapply lookup_path_refs; [exact E|].
  destruct v; injection Hv as <-; done.
Qed.

Lemma resolveReference_string spec refString resolved :
  resolveReference spec refString = Ok resolved ->
  exists r, refString = VStr r.
Proof. destruct refString; simpl; try done. eauto. Qed.

(** *** [{ ...schema, type: t }] *)

Lemma assoc_set_prop {A} k k' (x : A) ps :
  JS.assoc k (Zod.set_prop k' x ps) =
  if String.eqb k' k then Some x else JS.assoc k ps.
Proof.
  induction ps as [|[k0 y] ps IH]; simpl.
  - by destruct (String.eqb k' k).
  - destruct (String.eqb k0 k') eqn:E0; simpl.
    + apply String.eqb_eq in E0 as ->. by destruct (String.eqb k' k).
    + destruct (String.eqb k0 k) eqn:E1; [|done].
      apply String.eqb_eq in E1 as ->.
      by rewrite String.eqb_sym, E0.
Qed.

Lemma get_with_type k ps t :
  JS.get k (with_type (VObj ps) t) =
  if String.eqb "type" k then t else JS.get k (VObj ps).
Proof.
  unfold with_type. cbn [JS.entries JS.get]. rewrite assoc_set_prop.
  by destruct (String.eqb "type" k).
Qed.

Lemma has_with_type k ps t :
  JS.has k (with_type (VObj ps) t) =
  if String.eqb "type" k then true else JS.has k (VObj ps).
Proof.
  unfold with_type. cbn [JS.entries JS.has]. rewrite assoc_set_prop.
  by destruct (String.eqb "type" k).
Qed.

Lemma depth_with_type ps t :
  (depth (with_type (VObj ps) t) <= Nat.max (depth (VObj ps)) (S (depth t)))%nat.
Proof.
  unfold with_type. simpl.
  induction ps as [|[k y] ps IH]; simpl; [lia|].
  destruct (String.eqb k "type"); simpl in *; lia.
Qed.

Lemma refs_with_type ps t r :
  In r (ref_strings (with_type (VObj ps) t)) ->
  In r (ref_strings (VObj ps)) \/ In r (ref_strings t).
Proof.
  unfold with_type. cbn [JS.entries ref_strings].
  rewrite assoc_set_prop.
  change (String.eqb "type" "$ref") with false. cbv iota.
  intros [H|H]%in_app_or; [left; apply in_or_app; by left|].
  assert (In r (flat_map (fun kv => ref_strings (snd kv)) ps)
          \/ In r (ref_strings t)) as [?|?]; [|left; apply in_or_app; by right
                                              |by right].
  clear -H. induction ps as [|[k y] ps IH]; simpl in *.
  - rewrite app_nil_r in H. by right.
  - destruct (String.eqb k "type"); simpl in H;
      apply in_app_or in H as [H|H]; auto.
    + left. apply in_or_app. by right.
    + left. apply in_or_app. by left.
    + destruct (IH H); auto. left. apply in_or_app. by right.
Qed.

(** Only an object literal has the fields the mapper recurses on. *)
Lemma type_array_object v types :
  JS.get "type" v = VArr types -> exists ps, v = VObj ps.
Proof.
  destruct v as [| | | | s | l | ps]; intros H;
    try (unfold JS.get, JS.slot in H; simpl in H; discriminate H).
  eauto.
Qed.

(** ** Every call returns *)

Lemma defined_fbind {A B} (m : option (result A)) (k : A -> option (result B)) :
  is_Some m -> (forall a, is_Some (k a)) -> is_Some (fbind m k).
Proof. intros [[a|e] ->] Hk; simpl; [apply Hk|done]. Qed.

Lemma defined_ffoldl {A B} (f : B -> A -> option (result B)) l b :
  (forall b x, In x l -> is_Some (f b x)) -> is_Some (ffoldl f l b).
Proof.
  revert b. induction l as [|x l IH]; intros b Hf; simpl; [done|].
  apply defined_fbind; [apply Hf; by left|].
  intros b'. apply IH. intros b'' y Hy. apply Hf. by right.
Qed.

Lemma defined_fmapM {A B} (f : A -> option (result B)) l :
  (forall x, In x l -> is_Some (f x)) -> is_Some (fmapM f l).
Proof.
  induction l as [|x l IH]; intros Hf; simpl; [done|].
  apply defined_fbind; [apply Hf; by left|]. intros y.
  apply defined_fbind; [|done]. apply IH. intros z Hz. apply Hf. by right.
Qed.

Lemma returns_const {A} (o : option A) : is_Some o -> returns (fun _ => o).
Proof. intros H. by exists 0%nat. Qed.

Lemma returns_list {A B} (f : A -> nat -> option B) l :
  (forall x, In x l -> returns (f x)) ->
  exists n, forall fuel, (n <= fuel)%nat -> forall x, In x l -> is_Some (f x fuel).
Proof.
  induction l as [|x l IH]; intros Hf.
  - exists 0%nat. intros ? ? ? [].
  - destruct (Hf x (or_introl eq_refl)) as [n Hn].
    destruct IH as [m Hm]; [intros y Hy; apply Hf; by right|].
    exists (Nat.max n m). intros fuel Hfuel y [<-|Hy].
    + apply Hn. lia.
    + apply Hm; [lia|done].
Qed.

Lemma strict_eq_str_true v s : JS.strict_eq_str v s = true -> v = VStr s.
Proof.
  destruct v; simpl; try done. by intros ->%String.eqb_eq.
Qed.

Section Returns.

Variables (spec x : value) (v : gset string).

Let run (fuel : nat) : mapper :=
  fun c u => mapOpenApiTypeToZod fuel c spec u.

Hypothesis Hcalls :
  forall y w, calls spec x v y w -> returns (fun fuel => run fuel y w).

Lemma map_reference_returns d o :
  isReferenceObject (target_of x) = true ->
  returns (fun fuel => map_reference (run fuel) spec (target_of x) d o v).
Proof.
  intros Href. unfold map_reference.
  destruct (visited_has _ v) eqn:Hv; [by apply returns_const|].
  destruct (resolveReference spec _) as [resolved|e] eqn:Hr;
    [|by apply returns_const].
  destruct (negb (JS.truthy resolved)); [by apply returns_const|].
  destruct (resolveReference_string _ _ _ Hr) as [r Er].
  rewrite Er in *. cbn [visited_add visited_has] in *.
  apply bool_decide_eq_false in Hv.
  destruct (Hcalls resolved ({[ r ]} ∪ v)) as [n Hn].
  { by eapply calls_resolved. }
  exists n. intros fuel Hfuel. apply defined_fbind; [by apply Hn|done].
Qed.

Lemma map_switch_returns :
  isReferenceObject (target_of x) = false ->
  returns (fun fuel => map_switch (run fuel) (target_of x) v).
Proof.
  intros Href. unfold map_switch.
  destruct (JS.strict_eq_str _ "string"); [by apply returns_const|].
  destruct (JS.strict_eq_str _ "integer"); [by apply returns_const|].
  destruct (JS.strict_eq_str _ "number"); [by apply returns_const|].
  destruct (JS.strict_eq_str _ "boolean"); [by apply returns_const|].
  destruct (JS.strict_eq_str _ "array") eqn:Harr.
  { apply strict_eq_str_true in Harr. unfold map_array.
    destruct (JS.truthy _); [|by apply returns_const].
    destruct (Hcalls _ _ (calls_items spec x v Href Harr)) as [n Hn].
    exists n. intros fuel Hfuel. apply defined_fbind; [by apply Hn|done]. }
  destruct (JS.strict_eq_str _ "object") eqn:Hobj.
  { apply strict_eq_str_true in Hobj. unfold map_object.
    destruct (JS.truthy (JS.get "properties" _)).
    - destruct (returns_list
                  (fun p fuel =>
                     run fuel (JS.get p (JS.get "properties" (target_of x))) v)
                  (JS.keys (JS.get "properties" (target_of x)))) as [n Hn].
      { intros p Hp. by apply Hcalls, calls_property. }
      exists n. intros fuel Hfuel. apply defined_fbind; [|done].
      apply defined_ffoldl. intros b p Hp. unfold map_property.
      apply defined_fbind; [by apply Hn|]. intros z.
      apply defined_fbind; [done|]. done.
    - destruct (JS.truthy _); [|by apply returns_const].
      destruct (typeof_object _); [|by apply returns_const].
      destruct (Hcalls _ _ (calls_additional spec x v Href Hobj)) as [n Hn].
      exists n. intros fuel Hfuel. apply defined_fbind; [by apply Hn|done]. }
  destruct (JS.get "type" (target_of x)) as [| | | | | types |] eqn:Htype.
  6: { unfold map_type_array.
       destruct (returns_list
                   (fun t fuel => run fuel (with_type (target_of x) t) v)
                   (List.filter (fun t => negb (JS.strict_eq_str t "null"))
                      types)) as [n Hn].
       { intros t [Ht _]%filter_In. by eapply Hcalls, calls_member. }
       exists n. intros fuel Hfuel. apply defined_fbind; [|done].
       apply defined_fmapM. intros t Ht. by apply Hn. }
  all: unfold map_untyped, map_inferred; rewrite Htype.
  all: destruct (JS.truthy _) eqn:Ht;
    [apply returns_const; by destruct (ToString _)|].
  all: destruct (ToString (js_or _ _)) as [title|e]; cbn [fbind];
    [|apply returns_const; by repeat case_match].
  all: destruct (JS.truthy (JS.get "properties" _) || _) eqn:Hp.
  all: try (apply Hcalls, calls_inferred;
            [destruct (_ && _); auto | done | by rewrite Htype
            | by rewrite Hp]).
  all: destruct (negb (JS.is_object _)); [by apply returns_const|].
  all: destruct (JS.has "items" _) eqn:Hi; simpl;
    [|by apply returns_const].
  all: destruct (JS.truthy (JS.get "items" _)); [|by apply returns_const].
  all: apply Hcalls, calls_inferred;
    [auto | done | by rewrite Htype | by rewrite Hi, orb_true_r].
Qed.

Lemma body_returns :
  returns (fun fuel => mapOpenApiTypeToZod_body (run fuel) spec x v).
Proof.
  unfold mapOpenApiTypeToZod_body.
  destruct (negb (JS.is_object x)); [by apply returns_const|].
  destruct (isParameterObject x && _);
    [apply returns_const; by destruct (ToString _)|].
  fold (target_of x).
  destruct (isReferenceObject (target_of x)) eqn:Href.
  - by apply map_reference_returns.
  - destruct (map_switch_returns Href) as [n Hn].
    exists n. intros fuel Hfuel. apply defined_fbind; [by apply Hn|done].
Qed.

End Returns.

(** ** Every recursive call is on a smaller problem *)

Lemma target_refs x r :
  In r (ref_strings (target_of x)) -> In r (ref_strings x).
Proof.
  unfold target_of. destruct (isParameterObject x); [apply get_refs|done].
Qed.

Lemma target_depth x : (depth (target_of x) <= depth x)%nat.
Proof.
  unfold target_of. destruct (isParameterObject x); [apply get_depth_le|done].
Qed.

Lemma target_depth_param x :
  isParameterObject x = true -> JS.is_object (target_of x) = true ->
  (depth (target_of x) < depth x)%nat.
Proof.
  unfold target_of. intros ->. apply get_depth.
Qed.

Lemma target_not_param x :
  isParameterObject x = false -> target_of x = x.
Proof. unfold target_of. by intros ->. Qed.

Lemma own_ref_string ps r :
  JS.get "$ref" (VObj ps) = VStr r -> In r (ref_strings (VObj ps)).
Proof.
  simpl. destruct (JS.assoc "$ref" ps) as [x|]; [|done].
  intros ->. by left.
Qed.

Lemma reference_object_literal t :
  isReferenceObject t = true -> exists ps, t = VObj ps.
Proof.
  unfold isReferenceObject. intros [[_ Ho]%andb_prop Hh]%andb_prop.
  destruct t as [| | | | | l | ps]; try discriminate Ho; [|by eauto].
  unfold JS.has, JS.slot in Hh. simpl in Hh. discriminate.
Qed.

Lemma inferred_object_literal t :
  JS.truthy (JS.get "properties" t)
    || JS.truthy (JS.get "additionalProperties" t)
    || JS.has "items" t = true ->
  exists ps, t = VObj ps.
Proof.
  destruct t as [| | | | s | l | ps]; intros H;
    try (unfold JS.get, JS.has, JS.slot in H; simpl in H; discriminate H).
  eauto.
Qed.

Lemma depth_object_pos ps : (1 <= depth (VObj ps))%nat.
Proof. simpl. lia. Qed.

Lemma entering_shrinks (U v : gset string) r :
  r ∈ U -> r ∉ v -> U ∖ ({[ r ]} ∪ v) ⊂ U ∖ v.
Proof.
  intros HrU Hv. apply strict_spec_alt. split.
  - intros x [Hx Hn]%elem_of_difference. apply elem_of_difference.
    split; [done|]. intros Hxv. apply Hn, elem_of_union. by right.
  - intros Heq. assert (r ∈ U ∖ v) as Hr by (by apply elem_of_difference).
    rewrite <- Heq in Hr. apply elem_of_difference in Hr as [_ Hr].
    apply Hr, elem_of_union. left. by apply elem_of_singleton.
Qed.

Lemma calls_smaller spec (U : gset string) x v y w :
  (forall r, In r (ref_strings spec) -> r ∈ U) ->
  (forall r, In r (ref_strings x) -> r ∈ U) ->
  calls spec x v y w ->
  (forall r, In r (ref_strings y) -> r ∈ U) /\
  (JS.is_object y = false \/ smaller U x v y w).
Proof. forget_host.
  intros Hspec Hx Hc.
  assert (forall r, In r (ref_strings (target_of x)) -> r ∈ U) as Ht
    by (intros r Hr; by apply Hx, target_refs).
  pose proof (target_depth x) as Hd.
  destruct Hc as [r resolved Href Hr Hv Hres| Href Hty | p Href Hty Hp
                 | Href Hty | types t Href Hty Hin | s Hs Href Hty Hp].
  - split.
    + intros r' Hr'. eapply Hspec, resolveReference_refs; eauto.
    + right. left.
      destruct (reference_object_literal _ Href) as [ps E].
      assert (r ∈ U) as HrU.
      { apply Ht. rewrite E. apply own_ref_string. by rewrite <- E. }
      by apply subset_size, entering_shrinks.
  - split.
    + intros r Hr. apply Ht. by eapply get_refs.
    + destruct (JS.is_object (JS.get "items" (target_of x))) eqn:Ho; [|by left].
      right. right. left. split; [done|]. apply get_depth in Ho. lia.
  - split.
    + intros r Hr. apply Ht. eapply get_refs, get_refs. exact Hr.
    + destruct (JS.is_object (JS.get p (JS.get "properties" (target_of x))))
        eqn:Ho; [|by left].
      right. right. left. split; [done|].
      pose proof (get_object _ _ Ho) as Hc%child_is_object.
      apply get_depth in Ho. apply get_depth in Hc. lia.
  - split.
    + intros r Hr. apply Ht. by eapply get_refs.
    + destruct (JS.is_object (JS.get "additionalProperties" (target_of x)))
        eqn:Ho; [|by left].
      right. right. left. split; [done|]. apply get_depth in Ho. lia.
  - destruct (type_array_object _ _ Hty) as [ps E].
    assert (child t (JS.get "type" (target_of x))) as Hchild
      by (rewrite Hty; exact Hin).
    assert (depth t < depth (JS.get "type" (target_of x)))%nat as Hdt
      by by apply child_depth.
    assert (depth (JS.get "type" (target_of x)) < depth (target_of x))%nat
      as Hdty by (apply get_depth; by rewrite Hty).
    split.
    + rewrite E. intros r [Hr|Hr]%refs_with_type.
      * apply Ht. by rewrite E.
      * apply Ht. eapply get_refs, child_refs; eauto.
    + right.
      assert (depth (with_type (target_of x) t) <= depth (target_of x))%nat
        as Hdw.
      { rewrite E. etrans; [apply depth_with_type|]. rewrite <- E. lia. }
      destruct (isParameterObject x) eqn:Hparam.
      * right. left. split; [done|].
        assert (depth (target_of x) < depth x)%nat
          by (apply target_depth_param; [done|by rewrite E]). lia.
      * right. right. rewrite (target_not_param _ Hparam) in *.
        split; [done|]. split; [done|].
        unfold type_rank at 2. rewrite Hty.
        unfold type_rank. rewrite E, get_with_type. simpl String.eqb. cbv iota.
        rewrite Hty in Hdt.
        destruct t; simpl in *; repeat case_match; lia.
  - destruct (inferred_object_literal _ Hp) as [ps E].
    split.
    + rewrite E. intros r [Hr|Hr]%refs_with_type; [|done].
      apply Ht. by rewrite E.
    + right.
      assert (depth (with_type (target_of x) (VStr s)) <= depth (target_of x))%nat
        as Hdw.
      { rewrite E. etrans; [apply depth_with_type|].
        pose proof (depth_object_pos ps). simpl in *. lia. }
      destruct (isParameterObject x) eqn:Hparam.
      * right. left. split; [done|].
        assert (depth (target_of x) < depth x)%nat
          by (apply target_depth_param; [done|by rewrite E]). lia.
      * right. right. rewrite (target_not_param _ Hparam) in *.
        split; [done|]. split; [done|].
        unfold type_rank at 2.
        destruct (JS.get "type" x) eqn:Hgt; try discriminate Hty;
          rewrite ?Hty.
        all: unfold type_rank; rewrite E, get_with_type; simpl String.eqb;
          cbv iota.
        all: destruct Hs as [-> | ->]; simpl; lia.
Qed.

Lemma flat_call_returns fuel y spec w :
  JS.is_object y = false -> is_Some (mapOpenApiTypeToZod (S fuel) y spec w).
Proof.
  intros H. cbn [mapOpenApiTypeToZod]. unfold mapOpenApiTypeToZod_body.
  by rewrite H.
Qed.

Lemma mapper_returns_in spec (U : gset string) :
  (forall r, In r (ref_strings spec) -> r ∈ U) ->
  forall n d t x v,
    (size (U ∖ v) <= n)%nat -> (depth x <= d)%nat -> (type_rank x <= t)%nat ->
    (forall r, In r (ref_strings x) -> r ∈ U) ->
    returns (fun fuel => mapOpenApiTypeToZod fuel x spec v).
Proof.
  intros Hspec.
  induction n as [n IHn] using lt_wf_ind.
  induction d as [d IHd] using lt_wf_ind.
  induction t as [t IHt] using lt_wf_ind.
  intros x v Hn Hd Ht Hx.
  assert (returns (fun fuel =>
            mapOpenApiTypeToZod_body
              (fun c u => mapOpenApiTypeToZod fuel c spec u) spec x v))
    as [m Hm].
  { apply body_returns. intros y w Hc.
    destruct (calls_smaller spec U x v y w Hspec Hx Hc)
      as [Hy [Hflat|[Hsz|[[-> Hdp]|(-> & Hdp & Hrk)]]]].
    - exists 1%nat. intros [|fuel] Hf; [lia|]. by apply flat_call_returns.
    - eapply (IHn (size (U ∖ w))); [lia|reflexivity|reflexivity|reflexivity|done].
    - eapply (IHd (depth y)); [lia|done|reflexivity|reflexivity|done].
    - eapply (IHt (type_rank y)); [lia|done|lia|reflexivity|done]. }
  exists (S m). intros [|fuel] Hf; [lia|]. apply Hm. lia.
Qed.

(** The mapper returns, and with more fuel it returns the same. *)
Lemma mapper_returns x spec v :
  exists n r, forall fuel,
    (n <= fuel)%nat -> mapOpenApiTypeToZod fuel x spec v = Some r.
Proof.
  destruct (mapper_returns_in spec
              (list_to_set (ref_strings spec ++ ref_strings x)%list)
              ltac:(intros r Hr; apply elem_of_list_to_set, list_elem_of_In,
                      in_or_app; by left)
              _ _ _ x v (le_n _) (le_n _) (le_n _)) as [n Hn].
  { intros r Hr. apply elem_of_list_to_set, list_elem_of_In, in_or_app.
    by right. }
  destruct (Hn n (le_n _)) as [r Hr].
  exists n, r. intros fuel Hf. by eapply mapper_agrees.
Qed.

(** ** Reference edges and sibling branches *)

Lemma fbind_Ok {A B} (m : option (result A)) (k : A -> option (result B)) b :
  fbind m k = Some (Ok b) -> exists a, m = Some (Ok a) /\ k a = Some (Ok b).
Proof. destruct m as [[a|e]|]; simpl; [eauto|done|done]. Qed.

(** The visited set changes only along a reference edge, and there it
    gains the pointer that is entered. *)
Lemma calls_visited spec x v y w :
  calls spec x v y w ->
  w = v \/
  exists r,
    JS.get "$ref" (target_of x) = VStr r /\ (r ∉ v) /\ w = ({[ r ]} ∪ v).
Proof. destruct 1; eauto 6. Qed.

Lemma map_reference_visited self spec target d o v r :
  JS.get "$ref" target = VStr r -> r ∈ v ->
  map_reference self spec target d o v =
  Some (Ok (optional_if o (ZodAny (VStr ("Circular reference: " +:+ r))))).
Proof.
  intros E Hr. unfold map_reference. rewrite E. cbn [visited_has JS.to_string].
  by rewrite bool_decide_eq_true_2.
Qed.

Lemma map_reference_fresh self spec target d o v r :
  JS.get "$ref" target = VStr r -> r ∉ v ->
  map_reference self spec target d o v =
  match resolveReference spec (VStr r) with
  | Throw e => Some (Throw e)
  | Ok resolved =>
      if JS.truthy resolved then
        (resolvedType <-! self resolved ({[ r ]} ∪ v);
         fret (optional_if o
                 (describe_if (js_or d (JS.get "description" resolved))
                    resolvedType)))
      else
        fret (optional_if o (ZodAny (VStr ("Unresolved reference: " +:+ r))))
  end.
Proof.
  intros E Hr. unfold map_reference. rewrite E.
  cbn [visited_has visited_add JS.to_string].
  rewrite bool_decide_eq_false_2 by done.
  destruct (resolveReference spec (VStr r)) as [resolved|e]; [|done].
  by destruct (JS.truthy resolved).
Qed.

















(** *** The visited sets of the recursive calls *)





(** * Properties of the generator *)

(** ** What holds of every tool pushed *)

Lemma collect_Forall {A} (P : Tool -> Prop)
    (round : A -> option (result (list Tool))) l ts e :
  (forall x ts, In x l -> round x = Some (Ok ts) -> Forall P ts) ->
  collect round l = Some (ts, e) -> Forall P ts.
Proof.
  revert ts e. induction l as [|x l IH]; intros ts e Hr; simpl.
  - intros [= <- <-]. constructor.
  - destruct (round x) as [[ts1|e1]|] eqn:E; [| |done].
    + destruct (collect round l) as [[ts2 e2]|] eqn:E2; [|done].
      intros [= <- <-]. apply Forall_app. split.
      * eapply Hr; [by left|done].
      * eapply IH; [|done]. intros y ts' Hy. apply Hr. by right.
    + intros [= <- <-]. constructor.
Qed.

Lemma concatM_Forall {A B} (P : B -> Prop) (f : A -> option (list B)) l ys :
  (forall x ys, In x l -> f x = Some ys -> Forall P ys) ->
  concatM f l = Some ys -> Forall P ys.
Proof.
  revert ys. induction l as [|x l IH]; intros ys Hf; simpl.
  - intros [= <-]. constructor.
  - destruct (f x) as [ys1|] eqn:E; [|done].
    destruct (concatM f l) as [ys2|] eqn:E2; [|done].
    intros [= <-]. apply Forall_app. split.
    + eapply Hf; [by left|done].
    + eapply IH; [|done]. intros y ys' Hy. apply Hf. by right.
Qed.

Section Tools.

(** A property of the tools of one product and one spec path that
    every round of the operation loop establishes. *)
Variable P : value -> value -> Tool -> Prop.

Hypothesis Hround :
  forall fuel productName specPath spec global targetServer apiPath
         pathItem httpMethod t,
    operationTool fuel productName specPath spec global targetServer
      apiPath pathItem httpMethod = Some (Ok (Some t)) ->
    P productName specPath t.

Lemma pathTools_Forall fuel productName specPath spec global targetServer
    apiPath ts e :
  pathTools fuel productName specPath spec global targetServer apiPath
    = Some (ts, e) ->
  Forall (P productName specPath) ts.
Proof.
  unfold pathTools. destruct (negb _).
  - intros [= <- <-]. constructor.
  - apply collect_Forall. intros m ts' _. unfold round_of_option.
    intros (t & Ht & Hts)%fbind_Ok. injection Hts as <-.
    destruct t as [t|]; [|constructor].
    constructor; [|constructor]. by eapply Hround.
Qed.

Lemma pathsTools_Forall fuel productName specPath spec global targetServer
    apiPaths ts e :
  pathsTools fuel productName specPath spec global targetServer apiPaths
    = Some (ts, e) ->
  Forall (P productName specPath) ts.
Proof.
  revert ts e. induction apiPaths as [|p ps IH]; intros ts e; simpl.
  - intros [= <- <-]. constructor.
  - destruct (pathTools _ _ _ _ _ _ p) as [[ts1 [e1|]]|] eqn:E; [| |done].
    + intros [= <- <-]. by eapply pathTools_Forall.
    + destruct (pathsTools _ _ _ _ _ _ ps) as [[ts2 e2]|] eqn:E2; [|done].
      intros [= <- <-]. apply Forall_app. split.
      * by eapply pathTools_Forall.
      * by eapply IH.
Qed.

Lemma specTools_Forall fuel productName specPath specContent ts :
  specTools fuel productName specPath specContent = Some ts ->
  Forall (P productName specPath) ts.
Proof.
  unfold specTools.
  destruct (yaml_load specContent) as [spec|]; [|intros [= <-]; constructor].
  destruct (_ || _); [intros [= <-]; constructor|].
  destruct (globalSecurity spec) as [global|]; [|intros [= <-]; constructor].
  destruct (pathsTools _ _ _ _ _ _ _) as [[ts' e]|] eqn:E; [|done].
  intros [= <-]. by eapply pathsTools_Forall.
Qed.

Lemma generateOpenApiTools_Forall fuel specData tools :
  generateOpenApiTools fuel specData = Some tools ->
  Forall (fun t => exists productName specPath, P productName specPath t)
    tools.
Proof.
  unfold generateOpenApiTools. apply concatM_Forall.
  intros [productName specMap] ts _. apply concatM_Forall.
  intros [specPath specContent] ts' _ H.
  eapply Forall_impl; [by eapply specTools_Forall|].
  intros t Ht. eauto.
Qed.

End Tools.

Lemma methodNameBase_sanitized operation httpMethod apiPath base :
  methodNameBase operation httpMethod apiPath = Ok base ->
  exists input, base = sanitizeForMethodName input.
Proof.
  unfold methodNameBase. destruct (JS.truthy _).
  - destruct (JS.get "operationId" operation); try done.
    intros [= <-]. eauto.
  - intros [= <-]. eauto.
Qed.

(** What an operation's round pushes. *)
Lemma operationTool_inv fuel product specPath spec global targetServer
    apiPath pathItem httpMethod t :
  operationTool fuel product specPath spec global targetServer apiPath
    pathItem httpMethod = Some (Ok (Some t)) ->
  let operation := JS.get httpMethod pathItem in
  exists base security,
    methodNameBase operation httpMethod apiPath = Ok base /\
    operationSecurity spec global operation = Ok security /\
    method t = "api_" +:+ base /\
    category t = "api_" +:+ JS.to_string product /\
    productName t = product /\
    openIdConnectUrl (executionDetails t) = snd security /\
    (exists shape,
       parameters t =
       ZodObject
         (if fst security
          then Zod.set_prop "X-User-Authorization" userAuthorizationParameter shape
          else shape) false VUndef).
Proof.
  unfold operationTool.
  destruct (negb (existsb _ _)); [done|].
  destruct (negb (JS.truthy _)); [done|].
  intros (base & Hb & H)%fbind_Ok. injection Hb as Hb.
  apply fbind_Ok in H as (fromPath & _ & H).
  apply fbind_Ok in H as (fromOp & _ & H).
  apply fbind_Ok in H as (shape & _ & H).
  apply fbind_Ok in H as (security & Hs & H). injection Hs as Hs.
  apply fbind_Ok in H as (shape' & _ & H).
  injection H as <-. cbn.
  exists base, security. repeat split; try done. by exists shape'.
Qed.

(** ** The generator returns *)

Lemma mapper_returns_from x spec v :
  returns (fun fuel => mapOpenApiTypeToZod fuel x spec v).
Proof.
  destruct (mapper_returns x spec v) as (n & r & H).
  exists n. intros fuel Hf. rewrite (H fuel Hf). done.
Qed.

Lemma returns_two {A B} (f : nat -> option A) (g : nat -> option B) :
  returns f -> returns g ->
  exists n, forall fuel, (n <= fuel)%nat -> is_Some (f fuel) /\ is_Some (g fuel).
Proof.
  intros [n Hn] [m Hm]. exists (Nat.max n m). intros fuel Hf.
  split; [apply Hn|apply Hm]; lia.
Qed.

Lemma add_parameter_returns spec paramOrRef :
  exists n, forall fuel, (n <= fuel)%nat ->
    forall shape, is_Some (add_parameter fuel spec shape paramOrRef).
Proof.
  unfold add_parameter.
  destruct (if isReferenceObject paramOrRef then _ else _)
    as [resolvedParam|e]; [|by exists 0%nat].
  cbn [fbind].
  destruct (isReferenceObject paramOrRef && _); [by exists 0%nat|].
  destruct (get_strict "name" resolvedParam) as [key|e]; [|by exists 0%nat].
  cbn [fbind].
  destruct (mapper_returns_from resolvedParam spec ∅) as [n Hn].
  exists n. intros fuel Hf shape. apply defined_fbind; [by apply Hn|].
  intros z. by destruct (ToString key).
Qed.

Lemma add_request_body_returns spec operation :
  exists n, forall fuel, (n <= fuel)%nat ->
    forall shape, is_Some (add_request_body fuel spec operation shape).
Proof.
  unfold add_request_body.
  destruct (negb (JS.truthy (JS.get "requestBody" operation)));
    [by exists 0%nat|].
  destruct (if isReferenceObject _ then _ else _)
    as [resolvedRequestBody|e]; [|by exists 0%nat].
  cbn [fbind].
  destruct (negb (JS.truthy resolvedRequestBody)); [by exists 0%nat|].
  destruct (JS.truthy _); [|by exists 0%nat].
  match goal with
  | |- context [mapOpenApiTypeToZod _ ?s spec ∅] =>
      destruct (mapper_returns_from s spec ∅) as [n Hn]
  end.
  exists n. intros fuel Hf shape. apply defined_fbind; [by apply Hn|done].
Qed.

Lemma operationTool_returns product specPath spec global targetServer
    apiPath pathItem httpMethod :
  returns (fun fuel =>
    operationTool fuel product specPath spec global targetServer apiPath
      pathItem httpMethod).
Proof.
  unfold operationTool.
  destruct (negb (existsb _ _)); [by apply returns_const|].
  destruct (negb (JS.truthy _)); [by apply returns_const|].
  destruct (methodNameBase _ _ _) as [base|e]; [|by exists 0%nat].
  cbn [fbind].
  destruct (iterate (js_or (JS.get "parameters" pathItem) _))
    as [fromPath|e]; [|by exists 0%nat].
  cbn [fbind].
  destruct (iterate (js_or (JS.get "parameters" (JS.get httpMethod pathItem)) _))
    as [fromOperation|e]; [|by exists 0%nat].
  cbn [fbind].
  destruct (returns_list
              (fun p fuel => add_parameter fuel spec [] p)
              (fromPath ++ fromOperation)%list) as [n Hn].
  { intros p _. destruct (add_parameter_returns spec p) as [m Hm].
    exists m. intros fuel Hf. by apply Hm. }
  assert (exists m, forall fuel, (m <= fuel)%nat ->
            forall p shape, In p (fromPath ++ fromOperation)%list ->
              is_Some (add_parameter fuel spec shape p)) as [m Hm].
  { clear n Hn. induction (fromPath ++ fromOperation)%list as [|p l IH].
    - exists 0%nat. intros ? ? ? ? [].
    - destruct (add_parameter_returns spec p) as [a Ha].
      destruct IH as [b Hb]. exists (Nat.max a b).
      intros fuel Hf q shape [<-|Hq]; [apply Ha; lia|apply Hb; [lia|done]]. }
  destruct (add_request_body_returns spec (JS.get httpMethod pathItem))
    as [k Hk].
  exists (Nat.max m k). intros fuel Hf.
  apply defined_fbind.
  { apply defined_ffoldl. intros shape p Hp. apply Hm; [lia|done]. }
  intros shape.
  destruct (operationSecurity spec global _) as [security|e]; [|done].
  cbn [fbind]. apply defined_fbind; [apply Hk; lia|done].
Qed.

Lemma defined_collect {A} (round : A -> option (result (list Tool))) l :
  (forall x, In x l -> is_Some (round x)) -> is_Some (collect round l).
Proof.
  induction l as [|x l IH]; intros H; simpl; [done|].
  destruct (H x (or_introl eq_refl)) as [[ts|e] ->]; [|done].
  destruct IH as [[ts' e'] ->]; [intros y Hy; apply H; by right|done].
Qed.

Lemma pathTools_returns product specPath spec global targetServer apiPath :
  returns (fun fuel =>
    pathTools fuel product specPath spec global targetServer apiPath).
Proof.
  unfold pathTools. destruct (negb _); [by apply returns_const|].
  destruct (returns_list
              (fun m fuel =>
                 operationTool fuel product specPath spec global targetServer
                   apiPath (JS.get apiPath (JS.get "paths" spec)) m)
              (JS.keys (JS.get apiPath (JS.get "paths" spec)))) as [n Hn].
  { intros m _. apply operationTool_returns. }
  exists n. intros fuel Hf. apply defined_collect. intros m Hm.
  unfold round_of_option. apply defined_fbind; [by apply Hn|done].
Qed.

Lemma pathsTools_returns product specPath spec global targetServer apiPaths :
  returns (fun fuel =>
    pathsTools fuel product specPath spec global targetServer apiPaths).
Proof.
  induction apiPaths as [|p ps IH]; [by exists 0%nat|].
  destruct (returns_two _ _
              (pathTools_returns product specPath spec global targetServer p)
              IH) as [n Hn].
  exists n. intros fuel Hf. destruct (Hn fuel Hf) as [[[ts e] E1] [[ts' e'] E2]].
  cbn [pathsTools]. rewrite E1. destruct e; [done|]. by rewrite E2.
Qed.

Lemma specTools_returns product specPath specContent :
  returns (fun fuel => specTools fuel product specPath specContent).
Proof.
  unfold specTools.
  destruct (yaml_load specContent) as [spec|]; [|by apply returns_const].
  destruct (_ || _); [by apply returns_const|].
  destruct (globalSecurity spec) as [global|]; [|by apply returns_const].
  match goal with
  | |- context [pathsTools _ ?a ?b ?c ?d ?e ?f] =>
      destruct (pathsTools_returns a b c d e f) as [n Hn]
  end.
  exists n. intros fuel Hf. destruct (Hn fuel Hf) as [[ts e] ->]. done.
Qed.

Lemma concatM_returns {A B} (f : nat -> A -> option (list B)) l :
  (forall x, In x l -> returns (fun fuel => f fuel x)) ->
  returns (fun fuel => concatM (f fuel) l).
Proof.
  intros H. destruct (returns_list (fun x fuel => f fuel x) l H) as [n Hn].
  exists n. intros fuel Hf. specialize (Hn fuel Hf).
  induction l as [|x l IH]; simpl; [done|].
  destruct (Hn x (or_introl eq_refl)) as [ys ->].
  destruct IH as [zs ->]; [intros; apply H; by right
                          |intros y Hy; apply Hn; by right|done].
Qed.

Lemma generateOpenApiTools_defined specData :
  returns (fun fuel => generateOpenApiTools fuel specData).
Proof.
  unfold generateOpenApiTools.
  apply (concatM_returns
           (fun fuel '(productName, specMap) =>
              concatM (fun '(specPath, specContent) =>
                         specTools fuel productName specPath specContent)
                specMap)).
  intros [product specMap] _.
  apply (concatM_returns
           (fun fuel '(specPath, specContent) =>
              specTools fuel product specPath specContent)).
  intros [specPath specContent] _. apply specTools_returns.
Qed.

(** More fuel does not change what the generator returned. *)

Lemma agrees_collect {A} (round round' : A -> option (result (list Tool))) l :
  (forall x, agrees (round x) (round' x)) ->
  agrees (collect round l) (collect round' l).
Proof.
  intros H. induction l as [|x l IH]; simpl; [apply agrees_refl|].
  intros r. destruct (round x) as [[ts|e]|] eqn:E; [| |done].
  - rewrite (H x _ E).
    destruct (collect round l) as [[ts' e']|] eqn:E'; [|done].
    by rewrite (IH _ eq_refl).
  - by rewrite (H x _ E).
Qed.

Lemma agrees_concatM {A B} (f f' : A -> option (list B)) l :
  (forall x, agrees (f x) (f' x)) -> agrees (concatM f l) (concatM f' l).
Proof.
  intros H. induction l as [|x l IH]; simpl; [apply agrees_refl|].
  intros r. destruct (f x) as [ys|] eqn:E; [|done].
  rewrite (H x _ E).
  destruct (concatM f l) as [zs|] eqn:E'; [|done].
  by rewrite (IH _ eq_refl).
Qed.

Lemma operationTool_agrees fuel fuel' product specPath spec global
    targetServer apiPath pathItem httpMethod :
  (fuel <= fuel')%nat ->
  agrees (operationTool fuel product specPath spec global targetServer
            apiPath pathItem httpMethod)
         (operationTool fuel' product specPath spec global targetServer
            apiPath pathItem httpMethod).
Proof.
  intros Hf. unfold operationTool, add_parameter, add_request_body.
  assert (forall c v, agrees (mapOpenApiTypeToZod fuel c spec v)
                             (mapOpenApiTypeToZod fuel' c spec v)) as Hm
    by (intros; by apply mapper_agrees).
  repeat first
    [ apply agrees_refl
    | apply Hm
    | apply agrees_fbind; [|intros ?]
    | apply agrees_ffoldl; intros ? ?
    | match goal with
      | |- agrees (if ?c then _ else _) (if ?c then _ else _) => destruct c
      end ].
Qed.

Lemma pathsTools_agrees fuel fuel' product specPath spec global targetServer
    apiPaths :
  (fuel <= fuel')%nat ->
  agrees (pathsTools fuel product specPath spec global targetServer apiPaths)
         (pathsTools fuel' product specPath spec global targetServer apiPaths).
Proof.
  intros Hf.
  assert (forall p,
            agrees (pathTools fuel product specPath spec global targetServer p)
                   (pathTools fuel' product specPath spec global targetServer p))
    as Hp.
  { intros p. unfold pathTools. destruct (negb _); [apply agrees_refl|].
    apply agrees_collect. intros m. unfold round_of_option.
    apply agrees_fbind; [by apply operationTool_agrees|intros; apply agrees_refl]. }
  induction apiPaths as [|p ps IH]; [apply agrees_refl|].
  cbn [pathsTools]. intros r.
  destruct (pathTools fuel _ _ _ _ _ p) as [[ts [e|]]|] eqn:E; [| |done].
  - by rewrite (Hp p _ E).
  - rewrite (Hp p _ E).
    destruct (pathsTools fuel _ _ _ _ _ ps) as [[ts' e']|] eqn:E'; [|done].
    by rewrite (IH _ eq_refl).
Qed.

Lemma generateOpenApiTools_agrees fuel fuel' specData :
  (fuel <= fuel')%nat ->
  agrees (generateOpenApiTools fuel specData)
         (generateOpenApiTools fuel' specData).
Proof.
  intros Hf. unfold generateOpenApiTools.
  apply agrees_concatM. intros [product specMap].
  apply agrees_concatM. intros [specPath specContent].
  unfold specTools.
  destruct (yaml_load specContent) as [spec|]; [|apply agrees_refl].
  destruct (_ || _); [apply agrees_refl|].
  destruct (globalSecurity spec) as [global|]; [|apply agrees_refl].
  intros r.
  match goal with
  | |- context [pathsTools fuel ?a ?b ?c ?d ?e ?f] =>
      pose proof (pathsTools_agrees fuel fuel' a b c d e f Hf) as H;
      destruct (pathsTools fuel a b c d e f) as [[ts e']|] eqn:E; [|done]
  end.
  by rewrite (H _ eq_refl).
Qed.

(** On every input the generator returns, and with more fuel it returns
    the same tools. *)
Lemma generateOpenApiTools_returns specData :
  exists n tools, forall fuel,
    (n <= fuel)%nat -> generateOpenApiTools fuel specData = Some tools.
Proof.
  destruct (generateOpenApiTools_defined specData) as [n Hn].
  destruct (Hn n (le_n _)) as [tools Ht].
  exists n, tools. intros fuel Hf.
  by eapply generateOpenApiTools_agrees.
Qed.

(** * Properties of the client *)

Ltac run_monad :=
  unfold bind, ret, throw, lift, try_, getThis, setThis, Date_now, invalidate;
  cbn [fst snd this world].

Lemma get_strict_cases k v :
  get_strict k v = Ok (JS.get k v) \/
  exists m, get_strict k v = Throw (JsError m).
Proof. destruct v; cbn; eauto. Qed.

(** The runs of a token exchange once the reply is there. *)
Ltac token_cases data :=
  destruct (get_strict_cases "access_token" data) as [->|[? ->]]; cbn;
  [destruct (JS.truthy (JS.get "access_token" data)) eqn:?; cbn;
   [unfold ToNumber;
    destruct (JS.truthy (JS.get "expires_in" data)) eqn:?;
    [destruct (JS.stringable (JS.get "expires_in" data)) eqn:?|]; cbn|]|].

(** ** Token manager *)

Lemma getValidAccessToken_reuse st :
  token_is_fresh (this st) (now (world st)) = true ->
  getValidAccessToken st = (Ok (accessToken (this st)), st).
Proof.
  intros H. unfold getValidAccessToken. run_monad. by rewrite H.
Qed.

(** Without a fresh token the call hands one token request to axios;
    it returns the token it stored, or wipes the token and throws. *)
Lemma getValidAccessToken_exchange st :
  token_is_fresh (this st) (now (world st)) = false ->
  exists r st',
    getValidAccessToken st = (r, st') /\
    sent (world st') = (sent (world st) ++ [tokenRequest (this st)])%list /\
    match r with
    | Ok token => accessToken (this st') = token /\ JS.truthy token = true
    | Throw _ => accessToken (this st') = VNull /\ tokenExpiry (this st') = None
    end.
Proof.
  intros H. unfold getValidAccessToken. run_monad. rewrite H.
  unfold axios. cbn [this world].
  destruct (script (world st)) as [|[elapsed reply] rest].
  { eexists _, _. split; [reflexivity|]. by cbn. }
  destruct reply as [status hs data|m|m].
  - destruct (validateStatus status).
    + cbn [snd]. token_cases data.
      all: eexists _, _; (split; [reflexivity|]); by cbn.
    + cbn. destruct (ToString _); cbn.
      all: eexists _, _; (split; [reflexivity|]); by cbn.
  - eexists _, _. split; [reflexivity|]. by cbn.
  - eexists _, _. split; [reflexivity|]. by cbn.
Qed.

(** A successful exchange stores the token and the expiry computed from
    [expires_in]. *)
Lemma getValidAccessToken_store st elapsed status hs data rest :
  token_is_fresh (this st) (now (world st)) = false ->
  script (world st) = (elapsed, Response status hs data) :: rest ->
  validateStatus status = true ->
  JS.truthy data = true ->
  JS.truthy (JS.get "access_token" data) = true ->
  JS.truthy (JS.get "expires_in" data) = true ->
  JS.stringable (JS.get "expires_in" data) = true ->
  getValidAccessToken st =
  (Ok (JS.get "access_token" data),
   {| this := set_expiry
                (expiry_of (now (world st) + elapsed) (JS.get "expires_in" data))
                (set_token (JS.get "access_token" data) (this st));
      world := deliver (tokenRequest (this st)) elapsed rest (world st) |}).
Proof.
  intros H Hs Hv Hd Ht He Hc. unfold getValidAccessToken. run_monad.
  rewrite H. unfold axios. cbn [this world]. rewrite Hs, Hv. cbn [snd].
  destruct (get_strict_cases "access_token" data) as [->|[? E]];
    [|by destruct data].
  cbn. rewrite Ht. cbn. unfold ToNumber. by rewrite He, Hc.
Qed.

(** A reply without a lifetime: the token is stored with no expiry. *)
Lemma getValidAccessToken_store_forever st elapsed status hs data rest :
  token_is_fresh (this st) (now (world st)) = false ->
  script (world st) = (elapsed, Response status hs data) :: rest ->
  validateStatus status = true ->
  JS.truthy data = true ->
  JS.truthy (JS.get "access_token" data) = true ->
  JS.truthy (JS.get "expires_in" data) = false ->
  getValidAccessToken st =
  (Ok (JS.get "access_token" data),
   {| this := set_expiry None
                (set_token (JS.get "access_token" data) (this st));
      world := deliver (tokenRequest (this st)) elapsed rest (world st) |}).
Proof.
  intros H Hs Hv Hd Ht He. unfold getValidAccessToken. run_monad.
  rewrite H. unfold axios. cbn [this world]. rewrite Hs, Hv. cbn [snd].
  destruct (get_strict_cases "access_token" data) as [->|[? E]];
    [|by destruct data].
  cbn. rewrite Ht. cbn. unfold expiry_of. by rewrite He.
Qed.

(** The token manager leaves the settings and the spec cache alone, and
    does not look at the cache. *)
Lemma getValidAccessToken_frame st r st' :
  getValidAccessToken st = (r, st') -> same_settings (this st') (this st).
Proof.
  unfold getValidAccessToken. run_monad.
  destruct (token_is_fresh _ _); [by intros [= <- <-]|].
  unfold axios. cbn [this world].
  destruct (script (world st)) as [|[elapsed reply] rest];
    [by intros [= <- <-]|].
  destruct reply as [status hs data|m|m]; [|by intros [= <- <-]..].
  destruct (validateStatus status);
    [|cbn; destruct (ToString _); by intros [= <- <-]].
  cbn [snd]. token_cases data; by intros [= <- <-].
Qed.

Lemma getValidAccessToken_swap c st r st' :
  getValidAccessToken st = (r, st') ->
  getValidAccessToken (swap_cache c st) = (r, swap_cache c st').
Proof.
  unfold getValidAccessToken. run_monad.
  change (token_is_fresh (set_cache c (this st)) (now (world st)))
    with (token_is_fresh (this st) (now (world st))).
  destruct (token_is_fresh _ _); [by intros [= <- <-]|].
  unfold axios. cbn [this world swap_cache].
  change (tokenRequest (set_cache c (this st))) with (tokenRequest (this st)).
  destruct (script (world st)) as [|[elapsed reply] rest];
    [by intros [= <- <-]|].
  destruct reply as [status hs data|m|m]; [|by intros [= <- <-]..].
  destruct (validateStatus status);
    [|cbn; destruct (ToString _); by intros [= <- <-]].
  cbn [snd]. token_cases data; by intros [= <- <-].
Qed.

(** ** Authenticated requests *)

Lemma makeRequest_frame endpoint method data st r st' :
  makeRequest endpoint method data st = (r, st') ->
  same_settings (this st') (this st).
Proof.
  unfold makeRequest. run_monad.
  destruct (getValidAccessToken st) as [[token|e] st1] eqn:E;
    apply getValidAccessToken_frame in E.
  - unfold ToString. destruct (JS.stringable token); cbn;
      [|by intros [= <- <-]].
    unfold axios. cbn [this world].
    destruct (script (world st1)) as [|[elapsed reply] rest];
      [by intros [= <- <-]|].
    destruct reply as [status hs body|m|m]; [|by intros [= <- <-]..].
    destruct (validateStatus status); [by intros [= <- <-]|].
    cbn. destruct (JS.truthy _);
      [unfold ToString; destruct (JS.stringable (detailsOf _))|]; cbn;
      try destruct (status =? 401); by intros [= <- <-].
  - destruct e as [m|m [[status body]|] q]; cbn.
    + by intros [= <- <-].
    + destruct (JS.truthy _);
      [unfold ToString; destruct (JS.stringable (detailsOf _))|]; cbn;
        try destruct (status =? 401); by intros [= <- <-].
    + destruct q; by intros [= <- <-].
Qed.

Lemma makeRequest_swap c endpoint method data st r st' :
  makeRequest endpoint method data st = (r, st') ->
  makeRequest endpoint method data (swap_cache c st) = (r, swap_cache c st').
Proof.
  unfold makeRequest. run_monad.
  destruct (getValidAccessToken st) as [[token|e] st1] eqn:E;
    rewrite (getValidAccessToken_swap c _ _ _ E).
  - unfold ToString. destruct (JS.stringable token); cbn;
      [|by intros [= <- <-]].
    unfold axios. cbn [this world swap_cache].
    change (apiRequest (set_cache c (this st1)))
      with (apiRequest (this st1)).
    destruct (script (world st1)) as [|[elapsed reply] rest];
      [by intros [= <- <-]|].
    destruct reply as [status hs body|m|m]; [|by intros [= <- <-]..].
    destruct (validateStatus status); [by intros [= <- <-]|].
    cbn. destruct (JS.truthy _);
      [unfold ToString; destruct (JS.stringable (detailsOf _))|]; cbn;
      try destruct (status =? 401); by intros [= <- <-].
  - destruct e as [m|m [[status body]|] q]; cbn.
    + by intros [= <- <-].
    + destruct (JS.truthy _);
      [unfold ToString; destruct (JS.stringable (detailsOf _))|]; cbn;
        try destruct (status =? 401); by intros [= <- <-].
    + destruct q; by intros [= <- <-].
Qed.

(** A 401 from the API wipes the token before the error is thrown, when
    the token and the details of the reply convert to strings. *)
Lemma makeRequest_unauthorized endpoint method data st token st1 elapsed hs
    body rest :
  getValidAccessToken st = (Ok token, st1) ->
  JS.stringable token = true ->
  script (world st1) = (elapsed, Response 401 hs body) :: rest ->
  JS.stringable (detailsOf body) = true ->
  exists msg st2,
    makeRequest endpoint method data st = (Throw (JsError msg), st2) /\
    accessToken (this st2) = VNull /\ tokenExpiry (this st2) = None /\
    world st2 =
      deliver (apiRequest (this st1) token endpoint method data) elapsed rest
        (world st1).
Proof.
  intros E Hk Hs Hd. unfold makeRequest. run_monad. rewrite E.
  unfold ToString. rewrite Hk. cbn.
  unfold axios. cbn [this world]. rewrite Hs. cbn.
  rewrite Hd.
  destruct (JS.truthy _); eexists _, _; (split; [reflexivity|]); by cbn.
Qed.

(** With a fresh token that converts to a string, a request is one
    request handed to axios. *)
Lemma makeRequest_fresh endpoint method data st :
  token_is_fresh (this st) (now (world st)) = true ->
  JS.stringable (accessToken (this st)) = true ->
  exists r st',
    makeRequest endpoint method data st = (r, st') /\
    sent (world st') =
      (sent (world st)
         ++ [apiRequest (this st) (accessToken (this st)) endpoint method data])%list.
Proof.
  intros H Hk. unfold makeRequest. run_monad.
  rewrite (getValidAccessToken_reuse _ H).
  unfold ToString. rewrite Hk. cbn.
  unfold axios. cbn [this world].
  destruct (script (world st)) as [|[elapsed reply] rest];
    [by eexists _, _|].
  destruct reply as [status hs body|m|m]; [|by eexists _, _..].
  destruct (validateStatus status); [by eexists _, _|].
  cbn. destruct (JS.truthy _); [destruct (JS.stringable (detailsOf _))|];
    cbn; try destruct (status =? 401); by eexists _, _.
Qed.

(** ** Spec content and its cache *)

Lemma getSpecContent_frame productName specPath st r st' :
  getSpecContent productName specPath st = (r, st') ->
  same_settings (this st') (this st).
Proof.
  unfold getSpecContent.
  destruct (String.eqb productName ""); [by intros [= <- <-]|].
  destruct (String.eqb specPath ""); [by intros [= <- <-]|].
  apply makeRequest_frame.
Qed.

Lemma getSpecContent_swap c productName specPath st r st' :
  getSpecContent productName specPath st = (r, st') ->
  getSpecContent productName specPath (swap_cache c st) = (r, swap_cache c st').
Proof.
  unfold getSpecContent.
  destruct (String.eqb productName ""); [by intros [= <- <-]|].
  destruct (String.eqb specPath ""); [by intros [= <- <-]|].
  apply makeRequest_swap.
Qed.

Lemma getSpecContent_fresh productName specPath st :
  productName <> "" -> specPath <> "" ->
  token_is_fresh (this st) (now (world st)) = true ->
  JS.stringable (accessToken (this st)) = true ->
  exists r st',
    getSpecContent productName specPath st = (r, st') /\
    sent (world st') =
      (sent (world st) ++ [specRequest (this st) productName specPath])%list.
Proof.
  intros Hp Hs H Hk. unfold getSpecContent.
  apply String.eqb_neq in Hp, Hs. rewrite Hp, Hs.
  by apply makeRequest_fresh.
Qed.

(** With a TTL that is not positive the cached read is the plain read. *)
Lemma getSpecContentWithCache_disabled productName specPath st :
  cacheTTL (this st) <= 0 ->
  getSpecContentWithCache productName specPath st
  = getSpecContent productName specPath st.
Proof.
  intros H. unfold getSpecContentWithCache. run_monad.
  assert ((0 <? cacheTTL (this st)) = false) as -> by lia.
  destruct (getSpecContent productName specPath st) as [[c|e] st'] eqn:E;
    [|done].
  apply getSpecContent_frame in E as (_ & _ & _ & -> & _).
  assert ((0 <? cacheTTL (this st)) = false) as -> by lia.
  done.
Qed.

(** A live entry answers the call: nothing is fetched, nothing changes. *)
Lemma getSpecContentWithCache_hit productName specPath st entry :
  0 < cacheTTL (this st) ->
  specCache (this st) !! cacheKeyOf productName specPath = Some entry ->
  now (world st) < expiry entry ->
  getSpecContentWithCache productName specPath st = (Ok (content entry), st).
Proof.
  intros Ht He Hn. unfold getSpecContentWithCache. run_monad.
  assert ((0 <? cacheTTL (this st)) = true) as -> by lia.
  rewrite He. cbn.
  assert ((now (world st) <? expiry entry) = true) as -> by lia.
  done.
Qed.

Lemma swap_cache_same st : swap_cache (specCache (this st)) st = st.
Proof. by destruct st as [[] ?]. Qed.

Lemma getSpecContentWithCache_miss productName specPath st :
  0 < cacheTTL (this st) ->
  match specCache (this st) !! cacheKeyOf productName specPath with
  | Some entry => expiry entry <= now (world st)
  | None => True
  end ->
  getSpecContentWithCache productName specPath st
  = fetch_and_store productName specPath st.
Proof.
  intros Ht He. unfold getSpecContentWithCache, fetch_and_store. run_monad.
  assert ((0 <? cacheTTL (this st)) = true) as Ett by lia. rewrite Ett.
  destruct (specCache (this st) !! cacheKeyOf productName specPath)
    as [entry|] eqn:Hl; cbn.
  - assert ((now (world st) <? expiry entry) = false) as -> by lia. cbn.
    fold (swap_cache (delete (cacheKeyOf productName specPath)
                        (specCache (this st))) st).
    destruct (getSpecContent _ _ _) as [[c|e] st'] eqn:E; [|done].
    apply getSpecContent_frame in E as (_ & _ & _ & -> & _).
    cbn. rewrite Ett. cbn. by destruct (toISOString _).
  - rewrite delete_id by done. rewrite swap_cache_same.
    destruct (getSpecContent _ _ _) as [[c|e] st'] eqn:E; [|done].
    apply getSpecContent_frame in E as (_ & _ & _ & -> & _).
    rewrite Ett. cbn. by destruct (toISOString _).
Qed.

(** * Properties of the executor *)

(** Up to the request: the draft, then the authentication headers. *)
Lemma executeOpenApiTool_request input st d authHeaders st1 :
  JS.truthy (isDirectReturnValue (in_executionDetails input)) = false ->
  draftRequest input = Ok d ->
  getAuthenticationHeaders input st = (Ok authHeaders, st1) ->
  executeOpenApiTool input st =
  match axios (executorRequest input d authHeaders) st1 with
  | (Ok response, st2) =>
      (Ok {| text := JSON_stringify (snd response); isError := false |}, st2)
  | (Throw error, st2) =>
      match response error with
      | Some (_, data) =>
          if isAxiosError error
          then (Ok {| text := JSON_stringify data; isError := true |}, st2)
          else (Throw error, st2)
      | None => (Throw error, st2)
      end
  end.
Proof.
  intros Hd Hr Ha. unfold executeOpenApiTool. rewrite Hd. run_monad.
  rewrite Hr, Ha. fold (executorRequest input d authHeaders).
  destruct (axios _ st1) as [[resp|error] st2]; [done|].
  destruct (response error) as [[s data]|]; [|done].
  by destruct (isAxiosError error).
Qed.

Lemma executeOpenApiTool_draft_fails input st e :
  JS.truthy (isDirectReturnValue (in_executionDetails input)) = false ->
  draftRequest input = Throw e ->
  executeOpenApiTool input st = (Throw e, st).
Proof.
  intros Hd Hr. unfold executeOpenApiTool. rewrite Hd. run_monad.
  by rewrite Hr.
Qed.

(** * Reading members *)

Lemma get_strict_Ok k v x : get_strict k v = Ok x -> x = JS.get k v.
Proof. destruct v; cbn; by intros [= <-]. Qed.

Lemma strict_eq_str_other v s s' :
  JS.strict_eq_str v s = true -> String.eqb s s' = false ->
  JS.strict_eq_str v s' = false.
Proof.
  destruct v; try done. cbn. by intros ->%String.eqb_eq.
Qed.

Lemma ToString_Ok v s :
  ToString v = Ok s -> JS.stringable v = true /\ s = JS.to_string v.
Proof. unfold ToString. destruct (JS.stringable v); [|done]. by intros [= <-]. Qed.

Lemma ToString_stringable v :
  JS.stringable v = true -> ToString v = Ok (JS.to_string v).
Proof. unfold ToString. by intros ->. Qed.

Lemma ToString_Throw v e :
  ToString v = Throw e ->
  JS.stringable v = false /\
  e = JsError "Cannot convert object to primitive value".
Proof. unfold ToString. destruct (JS.stringable v); [done|]. by intros [= <-]. Qed.

(** A string, a number and the other primitives convert. *)
Lemma stringable_primitive v : JS.is_object v = false -> JS.stringable v = true.
Proof. by destruct v. Qed.

(** * Further properties of the sanitizer *)

Lemma collapse_runs_fixed s :
  word_only s = true -> collapse_runs false s = s.
Proof.
  unfold word_only. induction s as [|c s IH]; simpl; [done|].
  intros [Hc Hs]%andb_prop. rewrite Hc. by rewrite IH.
Qed.

Lemma trim_underscores_fixed s :
  untrimmed s = false -> trim_underscores s = s.
Proof.
  intros H.
  pose proof (trim_underscores_spec EmptyString s EmptyString eq_refl eq_refl H)
    as E.
  change (EmptyString +:+ (s +:+ EmptyString)) with (s +:+ EmptyString) in E.
  by rewrite append_empty_r in E.
Qed.

Lemma underscore_not_alnum c :
  Str.is_underscore c = true -> is_alnum c = false.
Proof.
  unfold Str.is_underscore. intros ->%Ascii.eqb_eq. reflexivity.
Qed.

Lemma is_word_alnum c : Str.is_word c = is_alnum c || Str.is_underscore c.
Proof. reflexivity. Qed.

Lemma collapse_runs_underscores b s :
  all_chars Str.is_underscore (collapse_runs b s) = no_alnum s.
Proof.
  unfold no_alnum. revert b. induction s as [|c s IH]; intros b; simpl; [done|].
  destruct (Str.is_word c) eqn:Hw; rewrite is_word_alnum in Hw.
  - simpl. rewrite IH. destruct (Str.is_underscore c) eqn:Hu.
    + by rewrite (underscore_not_alnum _ Hu).
    + rewrite orb_false_r in Hw. by rewrite Hw.
  - apply orb_false_elim in Hw as [-> _]. simpl.
    destruct b; simpl; by rewrite IH.
Qed.

Lemma drop_leading_underscores_all s :
  all_chars Str.is_underscore (drop_leading_underscores s)
  = all_chars Str.is_underscore s.
Proof.
  induction s as [|c s IH]; simpl; [done|].
  destruct (Str.is_underscore c) eqn:Hc; simpl; [done|]. by rewrite Hc.
Qed.

Lemma drop_trailing_empty s :
  drop_trailing_underscores s = EmptyString <->
  all_chars Str.is_underscore s = true.
Proof.
  split; [|apply drop_trailing_underscores_only].
  induction s as [|c s IH]; simpl; [done|].
  destruct (drop_trailing_underscores s); [|done].
  destruct (Str.is_underscore c); [|done]. intros _. by apply IH.
Qed.

Lemma sanitize_empty_iff s :
  sanitizeForMethodName s = EmptyString <-> no_alnum s = true.
Proof.
  unfold sanitizeForMethodName, trim_underscores.
  rewrite drop_trailing_empty, drop_leading_underscores_all.
  by rewrite collapse_runs_underscores.
Qed.

(** * Pointers spelled from keys *)

Lemma split_plain k : no_slash k = true -> Str.split "/" k = [k].
Proof.
  unfold no_slash. induction k as [|c k IH]; simpl; [done|].
  intros [Hc Hk]%andb_prop. apply negb_true_iff in Hc. rewrite Hc.
  by rewrite IH.
Qed.

Lemma split_segment k rest :
  no_slash k = true ->
  Str.split "/" (k +:+ String "/" rest) = k :: Str.split "/" rest.
Proof.
  unfold no_slash. induction k as [|c k IH]; simpl; [done|].
  intros [Hc Hk]%andb_prop. apply negb_true_iff in Hc. rewrite Hc.
  by rewrite IH.
Qed.

Lemma split_join segments :
  segments <> [] -> Forall (fun k => no_slash k = true) segments ->
  Str.split "/" (join_segments segments) = segments.
Proof.
  induction segments as [|k [|k' r] IH]; [done| |].
  - intros _ Hk. apply split_plain. by inversion Hk.
  - intros _ Hk. inversion Hk as [|? ? H1 H2]; subst.
    change (join_segments (k :: k' :: r))
      with (k +:+ String "/" (join_segments (k' :: r))).
    rewrite split_segment by done. f_equal. by apply IH.
Qed.

Lemma escape_no_slash k : no_slash (escape_segment k) = true.
Proof.
  unfold no_slash. induction k as [|c k IH]; simpl; [done|].
  destruct (Ascii.eqb c "~") eqn:Ht; [done|].
  destruct (Ascii.eqb c "/") eqn:Hs; [done|].
  simpl. by rewrite Hs.
Qed.

Lemma replace2_other a b r c s :
  Ascii.eqb c a = false ->
  Str.replace2 a b r (String c s) = String c (Str.replace2 a b r s).
Proof. intros H. simpl. destruct s; [done|]. by rewrite H. Qed.

Lemma replace_slash_escapes k :
  Str.replace2 "~" "1" "/" (escape_segment k) = half_escaped k.
Proof.
  induction k as [|c k IH]; [done|].
  cbn [escape_segment half_escaped].
  destruct (Ascii.eqb c "~") eqn:Ht.
  - change (Str.replace2 "~" "1" "/" (String "~" (String "0" (escape_segment k))))
      with (String "~" (Str.replace2 "~" "1" "/" (String "0" (escape_segment k)))).
    rewrite replace2_other by done. by rewrite IH.
  - destruct (Ascii.eqb c "/") eqn:Hs.
    + apply Ascii.eqb_eq in Hs as ->.
      change (Str.replace2 "~" "1" "/" (String "~" (String "1" (escape_segment k))))
        with (String "/" (Str.replace2 "~" "1" "/" (escape_segment k))).
      by rewrite IH.
    + rewrite replace2_other by done. by rewrite IH.
Qed.

Lemma replace_tilde_escapes k :
  Str.replace2 "~" "0" "~" (half_escaped k) = k.
Proof.
  induction k as [|c k IH]; [done|].
  cbn [half_escaped].
  destruct (Ascii.eqb c "~") eqn:Ht.
  - apply Ascii.eqb_eq in Ht as ->.
    change (Str.replace2 "~" "0" "~" (String "~" (String "0" (half_escaped k))))
      with (String "~" (Str.replace2 "~" "0" "~" (half_escaped k))).
    by rewrite IH.
  - rewrite replace2_other by done. by rewrite IH.
Qed.

Lemma uri_tokens_plain k :
  no_percent k = true ->
  Str.uri_tokens k = Some (map Str.Raw (list_ascii_of_string k)).
Proof.
  unfold no_percent. induction k as [|c k IH]; simpl; [done|].
  intros [Hc Hk]%andb_prop. apply negb_true_iff in Hc. rewrite Hc.
  by rewrite IH.
Qed.

Lemma utf8_decode_raw l : Str.utf8_decode (map Str.Raw l) = Some l.
Proof. induction l as [|c l IH]; simpl; [done|]. by rewrite IH. Qed.

Lemma decodeURIComponent_plain k :
  no_percent k = true -> Str.decodeURIComponent k = Some k.
Proof.
  intros H. unfold Str.decodeURIComponent.
  rewrite uri_tokens_plain by done. rewrite utf8_decode_raw.
  by rewrite string_of_list_ascii_of_string.
Qed.

Lemma decode_escaped k :
  no_percent k = true -> decode_segment (escape_segment k) = Some k.
Proof.
  intros H. unfold decode_segment.
  rewrite replace_slash_escapes, replace_tilde_escapes.
  by apply decodeURIComponent_plain.
Qed.

Lemma decode_all_escaped ks :
  forallb no_percent ks = true -> decode_all (map escape_segment ks) = Some ks.
Proof.
  induction ks as [|k ks IH]; simpl; [done|].
  intros [Hk Hks]%andb_prop. rewrite decode_escaped by done.
  by rewrite IH.
Qed.

Lemma decoded_path_pointer_to ks :
  ks <> [] -> forallb no_percent ks = true ->
  decoded_path (pointer_to ks) = Some ks.
Proof.
  intros Hne Hks. unfold decoded_path, pointer_segments, pointer_to.
  change (Str.substring_from 2 ("#/" +:+ ?j)) with j.
  rewrite split_join.
  - by apply decode_all_escaped.
  - by destruct ks.
  - apply List.Forall_forall. intros s (k & <- & _)%in_map_iff.
    apply escape_no_slash.
Qed.

(** * Further properties of the mapper *)

(** What a call that returns a schema went through. *)
Lemma mapper_Ok_inv fuel x spec v z :
  mapOpenApiTypeToZod (S fuel) x spec v = Some (Ok z) ->
  JS.is_object x = true /\
  ((isParameterObject x = true /\ JS.truthy (JS.get "schema" x) = false /\
    z = optional_if (isOptionalOf x) (anyTypeOf x)) \/
   ((isParameterObject x = true -> JS.truthy (JS.get "schema" x) = true) /\
    isReferenceObject (target_of x) = true /\
    map_reference (fun c u => mapOpenApiTypeToZod fuel c spec u) spec
      (target_of x) (descriptionFromParamOf x) (isOptionalOf x) v
      = Some (Ok z)) \/
   ((isParameterObject x = true -> JS.truthy (JS.get "schema" x) = true) /\
    isReferenceObject (target_of x) = false /\
    exists zodType,
      map_switch (fun c u => mapOpenApiTypeToZod fuel c spec u)
        (target_of x) v = Some (Ok zodType) /\
      z = finish (target_of x) (descriptionFromParamOf x) (isOptionalOf x)
            zodType)).
Proof.
  cbn [mapOpenApiTypeToZod]. unfold mapOpenApiTypeToZod_body.
  unfold isOptionalOf, descriptionFromParamOf, target_of, anyTypeOf.
  destruct (JS.is_object x) eqn:Ho; cbn [negb]; [|done].
  destruct (isParameterObject x) eqn:Hp; cbn [andb].
  - destruct (JS.truthy (JS.get "schema" x)) eqn:Hs; cbn [negb].
    + destruct (isReferenceObject (JS.get "schema" x)) eqn:Hr.
      * intros H. split; [done|]. right; left. done.
      * intros (zt & Hz & H)%fbind_Ok. injection H as <-.
        split; [done|]. right; right. split; [done|]. split; [done|].
        by exists zt.
    + intros H. split; [done|]. left. split; [done|]. split; [done|].
      unfold ToString in H. destruct (JS.stringable _); [|done].
      cbn [fbind] in H.
      destruct (JS.truthy (JS.get "required" x)); by injection H as <-.
  - destruct (isReferenceObject x) eqn:Hr.
    + intros H. split; [done|]. right; left. done.
    + intros (zt & Hz & H)%fbind_Ok. injection H as <-.
      split; [done|]. right; right. split; [done|]. split; [done|].
      by exists zt.
Qed.

(** What the reference branch returns. *)
Lemma map_reference_Ok_inv (self : mapper) spec target d o v z :
  map_reference self spec target d o v = Some (Ok z) ->
  exists z0,
    z = optional_if o z0 /\
    ((exists s, Zod.description z0 = s /\ is_sentinel s /\
                exists a, z0 = ZodAny a) \/
     exists resolved resolvedType,
       resolveReference spec (JS.get "$ref" target) = Ok resolved /\
       JS.truthy resolved = true /\
       self resolved (visited_add (JS.get "$ref" target) v)
         = Some (Ok resolvedType) /\
       z0 = describe_if (js_or d (JS.get "description" resolved)) resolvedType).
Proof.
  unfold map_reference.
  destruct (visited_has _ _).
  - intros [= <-]. eexists. split; [done|]. left. eexists. split; [done|].
    split; [eexists; by left|by eexists].
  - destruct (resolveReference spec _) as [resolved|e]; [|done].
    destruct (JS.truthy resolved) eqn:Ht; cbn [negb].
    + intros (rt & Hrt & H)%fbind_Ok. injection H as <-.
      eexists. split; [done|]. right. by exists resolved, rt.
    + intros [= <-]. eexists. split; [done|]. left. eexists. split; [done|].
      split; [eexists; by right|by eexists].
Qed.

Lemma description_describe d z : Zod.description (Zod.describe d z) = d.
Proof. by destruct z. Qed.

Lemma description_describe_if d z :
  JS.truthy d = true -> Zod.description (describe_if d z) = d.
Proof. intros H. unfold describe_if. rewrite H. apply description_describe. Qed.

Lemma js_or_truthy a b : JS.truthy a = true -> js_or a b = a.
Proof. intros H. unfold js_or. by rewrite H. Qed.

Lemma nullable_describe_if d z :
  isAlreadyNullable (describe_if d z) = isAlreadyNullable z.
Proof. unfold describe_if. destruct (JS.truthy d); [|done]. by destruct z. Qed.

(** The nullable step leaves a schema that admits [null] when it is
    asked for one or is given one. *)
Lemma nullable_step (c : bool) z :
  c = true \/ isAlreadyNullable z = true ->
  isAlreadyNullable
    (if c && negb (isAlreadyNullable z) then Zod.union [z; Zod.null] else z)
  = true.
Proof.
  destruct (isAlreadyNullable z) eqn:E.
  - intros _. by rewrite andb_false_r.
  - intros [->|?]; [|done]. cbn. apply orb_true_r.
Qed.

Lemma combine_types_nullable types zodTypes :
  existsb (fun t => JS.strict_eq_str t "null") types = true ->
  isAlreadyNullable (combine_types types zodTypes) = true.
Proof.
  intros H. unfold combine_types. rewrite H. cbn [andb].
  match goal with
  | |- context [Zod.is_null ?z] => destruct z eqn:E
  end; cbn; try done; apply orb_true_r.
Qed.

(** A value that is not truthy has no member but the length of the
    empty string. *)
Lemma get_falsy k s :
  JS.truthy s = false -> String.eqb k "length" = false -> JS.get k s = VUndef.
Proof.
  destruct s as [| | | |t| |]; try done.
  destruct t; [|done]. intros _ Hk. unfold JS.get, JS.slot. cbn.
  destruct (JS.index_of k) as [[|i]|]; cbn; by rewrite ?Hk.
Qed.

Lemma string_or_enum_cases schema :
  (JS.truthy (JS.get "enum" schema) && negb (JS.is_array (JS.get "enum" schema))
     = true /\
   is_string_enum schema = false /\
   exists e, string_or_enum schema = Throw e) \/
  (JS.truthy (JS.get "enum" schema) && negb (JS.is_array (JS.get "enum" schema))
     = false /\
   is_string_enum schema = true /\
   exists vs, string_or_enum schema = Ok (ZodEnum vs VUndef)) \/
  (JS.truthy (JS.get "enum" schema) && negb (JS.is_array (JS.get "enum" schema))
     = false /\
   is_string_enum schema = false /\
   string_or_enum schema = Ok Zod.string).
Proof.
  unfold string_or_enum, is_string_enum.
  destruct (JS.get "enum" schema) as [| |b|n|s|l|ps]; cbn.
  - by right; right.
  - by right; right.
  - destruct b; [left; repeat split; eauto|by right; right].
  - destruct (negb (n =? 0)); [left; repeat split; eauto|by right; right].
  - destruct (negb (String.eqb s "")); [left; repeat split; eauto|by right; right].
  - destruct l as [|x l]; [by right; right|].
    destruct (forallb JS.is_string (x :: l)) eqn:E.
    + right; left. repeat split; eauto.
    + by right; right.
  - left; repeat split; eauto.
Qed.

(** The string case throws on an enumeration that carries a constraint,
    on a pattern that does not convert to a string, and on one that is
    no regular expression. *)
Lemma map_string_throws schema :
  (exists e, map_string schema = Throw e) <->
  JS.truthy (JS.get "enum" schema) && negb (JS.is_array (JS.get "enum" schema))
    = true \/
  is_string_enum schema && has_string_constraint schema = true \/
  negb (is_undefined (JS.get "pattern" schema))
    && negb (JS.stringable (JS.get "pattern" schema)) = true \/
  negb (is_undefined (JS.get "pattern" schema))
    && JS.stringable (JS.get "pattern" schema)
    && negb (regexp_ok (JS.to_string (JS.get "pattern" schema))) = true.
Proof.
  unfold map_string, has_string_constraint.
  destruct (string_or_enum_cases schema)
    as [(-> & -> & e & ->)|[(-> & -> & vs & ->)|(-> & -> & ->)]];
    cbn [rbind andb].
  - split; [by left|eauto].
  - destruct (JS.strict_eq_str (JS.get "format" schema) "date-time");
      cbn; [split; [by right; left|eauto]|].
    destruct (JS.strict_eq_str (JS.get "format" schema) "email");
      cbn; [split; [by right; left|eauto]|].
    destruct (JS.strict_eq_str (JS.get "format" schema) "uuid");
      cbn; [split; [by right; left|eauto]|].
    destruct (is_undefined (JS.get "minLength" schema));
      cbn; [|split; [by right; left|eauto]].
    destruct (is_undefined (JS.get "maxLength" schema));
      cbn; [|split; [by right; left|eauto]].
    destruct (is_undefined (JS.get "pattern" schema)); cbn.
    + split; [by intros [e ?]|]. by intros [?|[?|[?|?]]].
    + unfold ToString. destruct (JS.stringable _); cbn;
        [destruct (regexp_ok _); cbn|]; (split; [by right; left|eauto]).
  - destruct (JS.strict_eq_str (JS.get "format" schema) "date-time");
      destruct (JS.strict_eq_str (JS.get "format" schema) "email");
      destruct (JS.strict_eq_str (JS.get "format" schema) "uuid");
      destruct (is_undefined (JS.get "minLength" schema));
      destruct (is_undefined (JS.get "maxLength" schema));
      destruct (is_undefined (JS.get "pattern" schema));
      cbn; try (split; [by intros [e ?]|by intros [?|[?|[?|?]]]]);
      unfold ToString; destruct (JS.stringable _); cbn;
      try destruct (regexp_ok _); cbn;
      first [ split; [by intros [e ?]|by intros [?|[?|[?|?]]]]
            | split; [intros _; by right; right; left|eauto]
            | split; [intros _; by right; right; right|eauto] ].
Qed.

(** * Further properties of the security scan *)

Lemma scan_schemes_cons spec schemeName rest :
  scan_schemes spec (schemeName :: rest) =
  (found <-? scheme_url spec schemeName;
   match found with
   | Some url => Ok (Some url)
   | None => scan_schemes spec rest
   end).
Proof.
  cbn [scan_schemes]. unfold scheme_url.
  destruct (JS.truthy _); [|done].
  destruct (isReferenceObject _).
  - destruct (resolveReference spec _) as [r|e]; [|done]. cbn [rbind].
    by destruct (_ && _).
  - cbn [rbind]. by destruct (_ && _).
Qed.

Lemma scan_schemes_app spec names1 names2 :
  scan_schemes spec (names1 ++ names2) =
  (found <-? scan_schemes spec names1;
   match found with
   | Some url => Ok (Some url)
   | None => scan_schemes spec names2
   end).
Proof.
  induction names1 as [|n names1 IH].
  - done.
  - change ((n :: names1) ++ names2)%list with (n :: (names1 ++ names2))%list.
    rewrite !scan_schemes_cons.
    destruct (scheme_url spec n) as [[url|]|e]; cbn [rbind]; [done| |done].
    apply IH.
Qed.

(** The two nested loops go through the scheme names in one row. *)
Lemma scan_requirements_flat spec requirements :
  scan_requirements spec requirements
  = scan_schemes spec (scheme_names requirements).
Proof.
  unfold scheme_names.
  induction requirements as [|r rs IH]; [done|].
  cbn [scan_requirements flat_map]. rewrite scan_schemes_app.
  destruct (scan_schemes spec (JS.keys r)) as [[url|]|e]; cbn [rbind];
    [done| |done].
  apply IH.
Qed.

Lemma scan_schemes_found spec names url :
  scan_schemes spec names = Ok (Some url) <-> first_openid spec names url.
Proof.
  unfold first_openid. induction names as [|n names IH].
  - split; [done|]. by intros ([|??] & ? & ? & ? & _).
  - rewrite scan_schemes_cons. split.
    + destruct (scheme_url spec n) as [[u|]|e] eqn:E; cbn [rbind]; [| |done].
      * intros [= ->]. exists [], n, names. by repeat split.
      * intros (before & name & after & -> & Hb & Hn)%IH.
        exists (n :: before), name, after. repeat split; [|done].
        by constructor.
    + intros ([|n' before] & name & after & Eq & Hb & Hn).
      * injection Eq as <- <-. by rewrite Hn.
      * injection Eq as <- ->. inversion Hb as [|? ? Hn' Hb']; subst.
        rewrite Hn'. cbn [rbind]. apply IH. by exists before, name, after.
Qed.

Lemma scan_schemes_none spec names :
  scan_schemes spec names = Ok None <->
  Forall (fun n => scheme_url spec n = Ok None) names.
Proof.
  induction names as [|n names IH].
  - split; [constructor|done].
  - rewrite scan_schemes_cons. split.
    + destruct (scheme_url spec n) as [[u|]|e] eqn:E; cbn [rbind]; try done.
      intros H. constructor; [done|]. by apply IH.
    + intros H. inversion H as [|? ? Hn Hr]; subst. rewrite Hn. cbn [rbind].
      by apply IH.
Qed.

(** The scan of a list classifies it by the first OpenID Connect scheme
    among the scheme names of its requirements. *)
Lemma scanSecurity_found spec requirements url :
  scanSecurity spec (VArr requirements) = Ok (true, url) <->
  first_openid spec (scheme_names requirements) url.
Proof.
  unfold scanSecurity. cbn [iterate rbind].
  rewrite scan_requirements_flat, <- scan_schemes_found.
  destruct (scan_schemes spec (scheme_names requirements)) as [[u|]|e];
    cbn [rbind classified]; split; try done; by intros [= ->].
Qed.

(** The operation-level classification of a non-empty [security] list. *)
Lemma operationSecurity_list spec global operation r rs :
  JS.get "security" operation = VArr (r :: rs) ->
  operationSecurity spec global operation =
  if JS.truthy (get_opt "securitySchemes" (JS.get "components" spec))
  then scanSecurity spec (VArr (r :: rs))
  else Ok (false, VUndef).
Proof.
  intros E. unfold operationSecurity. rewrite E.
  cbn [is_undefined]. unfold get_strict, JS.get.
  cbn [JS.slot]. unfold ToNumber. cbn [JS.stringable to_number rbind].
  unfold gt_zero. cbn [to_number].
  replace (0 <? Z.of_nat (length (r :: rs))) with true; [done|].
  symmetry. apply Z.ltb_lt. cbn [length]. lia.
Qed.

(** * Further properties of the generator *)

Lemma concatM_app {A B} (f : A -> option (list B)) l1 l2 :
  concatM f (l1 ++ l2) =
  match concatM f l1, concatM f l2 with
  | Some ys, Some zs => Some (ys ++ zs)%list
  | _, _ => None
  end.
Proof.
  induction l1 as [|x l1 IH]; simpl.
  - by destruct (concatM f l2).
  - rewrite IH. destruct (f x) as [xs|]; [|done].
    destruct (concatM f l1) as [ys|]; [|done].
    destruct (concatM f l2) as [zs|]; [|done].
    by rewrite app_assoc.
Qed.

Lemma concatM_In {A B} (f : A -> option (list B)) l ys y :
  concatM f l = Some ys -> In y ys ->
  exists x xs, In x l /\ f x = Some xs /\ In y xs.
Proof.
  revert ys. induction l as [|x l IH]; intros ys; simpl.
  - by intros [= <-].
  - destruct (f x) as [xs|] eqn:E; [|done].
    destruct (concatM f l) as [zs|]; [|done].
    intros [= <-] [Hy|Hy]%in_app_or.
    + exists x, xs. auto.
    + destruct (IH zs eq_refl Hy) as (x' & xs' & ? & ? & ?).
      exists x', xs'. auto.
Qed.

Lemma concatM_filter {A B} (f : A -> option (list B)) (keep : A -> bool) l :
  (forall x, keep x = false -> f x = Some []) ->
  concatM f (List.filter keep l) = concatM f l.
Proof.
  intros Hf. induction l as [|x l IH]; simpl; [done|].
  destruct (keep x) eqn:E; simpl; rewrite IH; [done|].
  rewrite (Hf x E). by destruct (concatM f l).
Qed.

Lemma collect_In {A} (round : A -> option (result (list Tool))) l ts e t :
  collect round l = Some (ts, e) -> In t ts ->
  exists x xs, In x l /\ round x = Some (Ok xs) /\ In t xs.
Proof.
  revert ts e. induction l as [|x l IH]; intros ts e; simpl.
  - by intros [= <- <-].
  - destruct (round x) as [[xs|e1]|] eqn:E; [| |done].
    + destruct (collect round l) as [[ts2 e2]|]; [|done].
      intros [= <- <-] [Hy|Hy]%in_app_or.
      * exists x, xs. auto.
      * destruct (IH _ _ eq_refl Hy) as (x' & xs' & ? & ? & ?).
        exists x', xs'. auto.
    + by intros [= <- <-].
Qed.

Lemma pathsTools_In fuel product sp spec global server apiPaths ts e t :
  pathsTools fuel product sp spec global server apiPaths = Some (ts, e) ->
  In t ts ->
  exists path ts' e',
    In path apiPaths /\
    pathTools fuel product sp spec global server path = Some (ts', e') /\
    In t ts'.
Proof.
  revert ts e. induction apiPaths as [|p ps IH]; intros ts e; simpl.
  - by intros [= <- <-].
  - destruct (pathTools _ _ _ _ _ _ p) as [[ts1 [e1|]]|] eqn:E; [| |done].
    + intros [= <- <-] Ht. exists p, ts1, (Some e1). auto.
    + destruct (pathsTools _ _ _ _ _ _ ps) as [[ts2 e2]|]; [|done].
      intros [= <- <-] [Ht|Ht]%in_app_or.
      * exists p, ts1, None. auto.
      * destruct (IH _ _ eq_refl Ht) as (p' & ts' & e' & ? & ? & ?).
        exists p', ts', e'. auto.
Qed.

(** The execution details an operation's round stores. *)
Lemma operationTool_details fuel product sp spec global server path pathItem
    verb t :
  operationTool fuel product sp spec global server path pathItem verb
    = Some (Ok (Some t)) ->
  In verb HttpMethods /\
  JS.truthy (JS.get verb pathItem) = true /\
  productName t = product /\ specPath t = sp /\
  isDirectReturnValue (executionDetails t) = VUndef /\
  targetServer (executionDetails t) = server /\
  httpMethod (executionDetails t) = VStr verb /\
  apiPath (executionDetails t) = VStr path /\
  openapiRequestBody (executionDetails t)
    = JS.get "requestBody" (JS.get verb pathItem) /\
  exists fromPath fromOperation,
    iterate (js_or (JS.get "parameters" pathItem) (VArr [])) = Ok fromPath /\
    iterate (js_or (JS.get "parameters" (JS.get verb pathItem)) (VArr []))
      = Ok fromOperation /\
    openapiParameters (executionDetails t)
      = VArr (fromPath ++ fromOperation).
Proof.
  unfold operationTool.
  destruct (existsb _ _) eqn:Hm; cbn [negb]; [|done].
  destruct (JS.truthy (JS.get verb pathItem)) eqn:Ho; cbn [negb]; [|done].
  intros (base & _ & H)%fbind_Ok.
  apply fbind_Ok in H as (fromPath & Hp & H). injection Hp as Hp.
  apply fbind_Ok in H as (fromOp & Hq & H). injection Hq as Hq.
  apply fbind_Ok in H as (shape & _ & H).
  apply fbind_Ok in H as (security & _ & H).
  apply fbind_Ok in H as (shape' & _ & H).
  injection H as <-. cbn.
  split.
  { apply existsb_exists in Hm as (m & Hin & ->%String.eqb_eq). exact Hin. }
  repeat split; try done. by exists fromPath, fromOp.
Qed.

(** Where a tool of the generator comes from. *)
Lemma generateOpenApiTools_In fuel specData generated t :
  generateOpenApiTools fuel specData = Some generated -> In t generated ->
  exists product specMap sp specContent spec global path verb,
    In (product, specMap) specData /\ In (sp, specContent) specMap /\
    yaml_load specContent = Ok spec /\
    globalSecurity spec = Ok global /\
    In path (JS.keys (JS.get "paths" spec)) /\
    In verb (JS.keys (JS.get path (JS.get "paths" spec))) /\
    operationTool fuel product sp spec global
      (get_opt "url" (get_opt "0" (JS.get "servers" spec))) path
      (JS.get path (JS.get "paths" spec)) verb = Some (Ok (Some t)).
Proof.
  unfold generateOpenApiTools. intros Hg Ht.
  destruct (concatM_In _ _ _ _ Hg Ht) as ([product specMap] & ts1 & Hp & Hg1 & Ht1).
  destruct (concatM_In _ _ _ _ Hg1 Ht1) as ([sp specContent] & ts2 & Hs & Hg2 & Ht2).
  unfold specTools in Hg2.
  destruct (yaml_load specContent) as [spec|] eqn:Hy;
    [|by injection Hg2 as <-].
  destruct (_ || _); [by injection Hg2 as <-|].
  destruct (globalSecurity spec) as [global|] eqn:Hgl;
    [|by injection Hg2 as <-].
  destruct (pathsTools _ _ _ _ _ _ _) as [[ts3 e3]|] eqn:Hps; [|done].
  injection Hg2 as <-.
  destruct (pathsTools_In _ _ _ _ _ _ _ _ _ _ Hps Ht2)
    as (path & ts4 & e4 & Hpath & Hpt & Ht4).
  unfold pathTools in Hpt.
  destruct (negb _); [by injection Hpt as <- <-|].
  destruct (collect_In _ _ _ _ _ Hpt Ht4) as (verb & ts5 & Hverb & Hr & Ht5).
  unfold round_of_option in Hr.
  apply fbind_Ok in Hr as (o & Ho & Hr). injection Hr as <-.
  destruct o as [t'|]; [|done]. destruct Ht5 as [<-|[]].
  exists product, specMap, sp, specContent, spec, global, path, verb.
  by repeat split.
Qed.

(** The base of a method name: the sanitized operation identifier when
    there is one, the sanitized verb and path otherwise. *)
Lemma methodNameBase_cases operation verb path base :
  methodNameBase operation verb path = Ok base ->
  (JS.truthy (JS.get "operationId" operation) = true ->
   exists id, JS.get "operationId" operation = VStr id /\
              base = sanitizeForMethodName id) /\
  (JS.truthy (JS.get "operationId" operation) = false ->
   base = sanitizeForMethodName (verb +:+ "_" +:+ path)).
Proof.
  unfold methodNameBase. destruct (JS.truthy _).
  - destruct (JS.get "operationId" operation); try done.
    intros [= <-]. split; [eauto|done].
  - intros [= <-]. split; [done|done].
Qed.

(** The names of a generated tool, from the operation it was made
    for. *)
Lemma generated_tool_named fuel specData generated t :
  generateOpenApiTools fuel specData = Some generated -> In t generated ->
  exists spec path verb,
    let operation := JS.get verb (JS.get path (JS.get "paths" spec)) in
    (exists product specMap sp specContent,
       In (product, specMap) specData /\ In (sp, specContent) specMap /\
       yaml_load specContent = Ok spec /\ productName t = product) /\
    apiPath (executionDetails t) = VStr path /\
    httpMethod (executionDetails t) = VStr verb /\
    (JS.truthy (JS.get "operationId" operation) = true ->
     exists id, JS.get "operationId" operation = VStr id /\
                method t = "api_" +:+ sanitizeForMethodName id) /\
    (JS.truthy (JS.get "operationId" operation) = false ->
     method t = "api_" +:+ sanitizeForMethodName (verb +:+ "_" +:+ path)) /\
    category t = "api_" +:+ JS.to_string (productName t).
Proof.
  intros Hg Hin.
  destruct (generateOpenApiTools_In _ _ _ _ Hg Hin)
    as (product & specMap & sp & specContent & spec & global & path & verb
        & Hp & Hs & Hy & _ & _ & _ & Ht).
  pose proof (operationTool_details _ _ _ _ _ _ _ _ _ _ Ht)
    as (_ & _ & _ & _ & _ & _ & Hm & Ha & _).
  apply operationTool_inv in Ht
    as (base & security & Hb & _ & Hn & Hc & Hpn & _).
  apply methodNameBase_cases in Hb as [Hid Hvp].
  exists spec, path, verb. cbn zeta.
  split; [by exists product, specMap, sp, specContent|].
  split; [done|]. split; [done|].
  split.
  { intros Ho. destruct (Hid Ho) as (id & E & ->). by exists id. }
  split.
  { intros Ho. by rewrite Hn, (Hvp Ho). }
  by rewrite Hpn.
Qed.

Lemma specTools_unusable fuel product sp specContent :
  usable_spec specContent = false ->
  specTools fuel product sp specContent = Some [].
Proof.
  unfold usable_spec, specTools.
  destruct (yaml_load specContent) as [spec|]; [|done].
  destruct (JS.truthy spec); [|done].
  destruct (JS.is_object spec); [|done].
  destruct (JS.truthy (JS.get "paths" spec)); done.
Qed.

(** ** The shape of a tool's parameters *)






(** * Further properties of the executor *)

(** What one declared parameter does to the query string. *)
Lemma place_parameter_query parameters d p d' k :
  place_parameter parameters d p = Ok d' ->
  JS.assoc k (d_queryParams d') =
  if sends_query parameters k p then Some (JS.get k parameters)
  else JS.assoc k (d_queryParams d).
Proof.
  unfold place_parameter, sends_query.
  destruct (JS.is_object p); cbn [negb]; [|done].
  destruct (JS.has "$ref" p); cbn [negb andb];
    [destruct (ToString _); by intros [= <-]|].
  destruct (get_strict _ parameters) as [paramValue|] eqn:Hg; cbn [rbind]; [|done].
  apply get_strict_Ok in Hg as ->.
  destruct (ToString (JS.get "name" p)) as [name|]; cbn [rbind]; [|done].
  destruct (String.eqb _ k) eqn:Ek.
  - apply String.eqb_eq in Ek. rewrite Ek.
    destruct (is_undefined (JS.get k parameters)); cbn [negb andb];
      [by intros [= <-]|].
    destruct (JS.strict_eq_str (JS.get "in" p) "path") eqn:Hp.
    { rewrite (strict_eq_str_other _ _ "query" Hp) by done.
      destruct (ToString _); by intros [= <-]. }
    destruct (JS.strict_eq_str (JS.get "in" p) "query") eqn:Hq.
    { intros [= <-]. cbn [d_queryParams]. rewrite assoc_set_prop.
      by rewrite String.eqb_refl. }
    destruct (JS.strict_eq_str (JS.get "in" p) "header");
      [destruct (ToString _)|]; by intros [= <-].
  - cbn [andb].
    destruct (is_undefined _); [by intros [= <-]|].
    destruct (JS.strict_eq_str (JS.get "in" p) "path");
      [destruct (ToString _); by intros [= <-]|].
    destruct (JS.strict_eq_str (JS.get "in" p) "query").
    { intros [= <-]. cbn [d_queryParams]. rewrite assoc_set_prop.
      by rewrite Ek. }
    destruct (JS.strict_eq_str (JS.get "in" p) "header");
      [destruct (ToString _)|]; by intros [= <-].
Qed.

Lemma place_parameters_query parameters k l :
  forall d d',
    place_parameters parameters d l = Ok d' ->
    JS.assoc k (d_queryParams d') =
    if existsb (sends_query parameters k) l then Some (JS.get k parameters)
    else JS.assoc k (d_queryParams d).
Proof.
  induction l as [|p l IH]; intros d d'; cbn [place_parameters existsb].
  - by intros [= <-].
  - destruct (place_parameter parameters d p) as [d1|] eqn:E; cbn [rbind]; [|done].
    intros H. rewrite (IH _ _ H).
    rewrite (place_parameter_query _ _ _ _ k E).
    destruct (existsb _ l); [by rewrite orb_true_r|].
    by rewrite orb_false_r.
Qed.

(** What one declared parameter does to the headers. *)
Lemma place_parameter_header parameters d p d' k :
  place_parameter parameters d p = Ok d' ->
  JS.assoc k (d_headers d') =
  if sends_header parameters k p
  then Some (VStr (JS.to_string (JS.get k parameters)))
  else JS.assoc k (d_headers d).
Proof.
  unfold place_parameter, sends_header.
  destruct (JS.is_object p); cbn [negb]; [|done].
  destruct (JS.has "$ref" p); cbn [negb andb];
    [destruct (ToString _); by intros [= <-]|].
  destruct (get_strict _ parameters) as [paramValue|] eqn:Hg; cbn [rbind]; [|done].
  apply get_strict_Ok in Hg as ->.
  destruct (ToString (JS.get "name" p)) as [name|]; cbn [rbind]; [|done].
  destruct (String.eqb _ k) eqn:Ek.
  - apply String.eqb_eq in Ek. rewrite Ek.
    destruct (is_undefined (JS.get k parameters)); cbn [negb andb];
      [by intros [= <-]|].
    destruct (JS.strict_eq_str (JS.get "in" p) "path") eqn:Hp.
    { rewrite (strict_eq_str_other _ _ "header" Hp) by done.
      destruct (ToString _); by intros [= <-]. }
    destruct (JS.strict_eq_str (JS.get "in" p) "query") eqn:Hq.
    { rewrite (strict_eq_str_other _ _ "header" Hq) by done.
      by intros [= <-]. }
    destruct (JS.strict_eq_str (JS.get "in" p) "header").
    { destruct (ToString _) as [text|] eqn:Et; cbn [rbind]; [|done].
      apply ToString_Ok in Et as [_ ->].
      intros [= <-]. cbn [d_headers]. rewrite assoc_set_prop.
      by rewrite String.eqb_refl. }
    by intros [= <-].
  - cbn [andb].
    destruct (is_undefined _); [by intros [= <-]|].
    destruct (JS.strict_eq_str (JS.get "in" p) "path");
      [destruct (ToString _); by intros [= <-]|].
    destruct (JS.strict_eq_str (JS.get "in" p) "query"); [by intros [= <-]|].
    destruct (JS.strict_eq_str (JS.get "in" p) "header"); [|by intros [= <-]].
    destruct (ToString _) as [text|]; cbn [rbind]; [|done].
    intros [= <-]. cbn [d_headers]. rewrite assoc_set_prop. by rewrite Ek.
Qed.

Lemma place_parameters_header parameters k l :
  forall d d',
    place_parameters parameters d l = Ok d' ->
    JS.assoc k (d_headers d') =
    if existsb (sends_header parameters k) l
    then Some (VStr (JS.to_string (JS.get k parameters)))
    else JS.assoc k (d_headers d).
Proof.
  induction l as [|p l IH]; intros d d'; cbn [place_parameters existsb].
  - by intros [= <-].
  - destruct (place_parameter parameters d p) as [d1|] eqn:E; cbn [rbind]; [|done].
    intros H. rewrite (IH _ _ H).
    rewrite (place_parameter_header _ _ _ _ k E).
    destruct (existsb _ l); [by rewrite orb_true_r|].
    by rewrite orb_false_r.
Qed.

(** A draft that succeeds went through the declared parameters. *)
Lemma draftRequest_Ok input d :
  draftRequest input = Ok d ->
  place_parameters (in_parameters input)
    {| d_url := JS.to_string (targetServer (in_executionDetails input))
                +:+ JS.to_string (apiPath (in_executionDetails input));
       d_queryParams := []; d_headers := defaultHeaders |}
    (declared_parameters input) = Ok d.
Proof.
  unfold draftRequest, declared_parameters.
  destruct (negb (JS.truthy (targetServer _))); [done|].
  destruct (negb (JS.truthy (httpMethod _))); [done|].
  destruct (negb (JS.truthy (apiPath _))); [done|].
  destruct (ToString (targetServer _)) as [server|] eqn:Es; cbn [rbind];
    [|done].
  destruct (ToString (apiPath _)) as [path|] eqn:Ep; cbn [rbind]; [|done].
  apply ToString_Ok in Es as [_ ->]. apply ToString_Ok in Ep as [_ ->].
  destruct (openapiParameters _) as [| | | | |l|]; cbn [rbind]; try done.
  - destruct (get_strict _ _); cbn [rbind]; [|done]. by intros [= <-].
  - destruct (place_parameters _ _ l) as [d1|]; cbn [rbind]; [|done].
    destruct (get_strict _ _); cbn [rbind]; [|done]. by intros [= <-].
Qed.

Lemma assoc_key_In {A} k (ps : list (string * A)) x :
  JS.assoc k ps = Some x -> In k (map fst ps).
Proof.
  induction ps as [|[k' y] ps IH]; simpl; [done|].
  destruct (String.eqb k' k) eqn:E.
  - apply String.eqb_eq in E. auto.
  - auto.
Qed.

(** [Object.assign] on an object: its members, then the target's. *)
Lemma assoc_assign target ps k :
  List.NoDup (map fst ps) ->
  JS.assoc k (assign target (VObj ps)) =
  match JS.assoc k ps with
  | Some x => Some x
  | None => JS.assoc k target
  end.
Proof.
  unfold assign. cbn [JS.entries]. revert target.
  induction ps as [|[k0 x0] ps IH]; intros target Hnd; [done|].
  inversion Hnd as [|? ? Hk0 Hnd']; subst.
  cbn [fold_left JS.assoc fst snd]. rewrite IH by done.
  destruct (JS.assoc k ps) as [x|] eqn:E.
  - destruct (String.eqb k0 k) eqn:Ek; [|done].
    apply String.eqb_eq in Ek as ->. apply assoc_key_In in E. done.
  - rewrite assoc_set_prop. by destruct (String.eqb k0 k).
Qed.

(** * Further properties of the client *)

Lemma startsWith_append p s : Str.startsWith p (p +:+ s) = true.
Proof.
  induction p as [|c p IH]; [done|].
  change (Str.startsWith (String c p) (String c p +:+ s))
    with (Ascii.eqb c c && Str.startsWith p (p +:+ s)).
  by rewrite Ascii.eqb_refl, IH.
Qed.

(** The token manager throws plain errors only, whatever axios threw. *)
Lemma getValidAccessToken_throws st e st' :
  getValidAccessToken st = (Throw e, st') -> exists msg, e = JsError msg.
Proof.
  unfold getValidAccessToken. run_monad.
  destruct (token_is_fresh _ _); [done|].
  unfold axios. cbn [this world].
  destruct (script (world st)) as [|[elapsed reply] rest];
    [intros [= <- <-]; eauto|].
  destruct reply as [status hs data|m|m]; [|intros [= <- <-]; eauto..].
  destruct (validateStatus status);
    [|cbn; unfold ToString; destruct (JS.stringable _);
      intros [= <- <-]; eauto].
  cbn [snd]. token_cases data; try done; intros [= <- <-]; eauto.
Qed.

(** A call that throws went through an exchange. *)
Lemma getValidAccessToken_throws_stale st e st' :
  getValidAccessToken st = (Throw e, st') ->
  token_is_fresh (this st) (now (world st)) = false.
Proof.
  destruct (token_is_fresh _ _) eqn:H; [|done].
  by rewrite (getValidAccessToken_reuse _ H).
Qed.

Lemma apiRequest_baseUrl a b token endpoint method data :
  baseUrl a = baseUrl b ->
  apiRequest a token endpoint method data
  = apiRequest b token endpoint method data.
Proof. intros H. unfold apiRequest. by rewrite H. Qed.

(** What [makeRequest] does once a token that converts to a string is
    there. *)
Lemma makeRequest_with_token endpoint method data st token st1 :
  getValidAccessToken st = (Ok token, st1) ->
  JS.stringable token = true ->
  makeRequest endpoint method data st =
  match axios (apiRequest (this st1) token endpoint method data) st1 with
  | (Ok response, st2) => (Ok (snd response), st2)
  | (Throw error, st2) =>
      match response error with
      | Some (status, errorData) =>
          let details := detailsOf errorData in
          if JS.truthy details && negb (JS.stringable details) then
            (Throw (JsError "Cannot convert object to primitive value"), st2)
          else
            let errorMessage :=
              if JS.truthy details
              then ("MCP API Error (Status " +:+ pretty status +:+ ")") +:+ ": "
                   +:+ JS.to_string details
              else "MCP API Error (Status " +:+ pretty status +:+ ")" in
            if status =? 401 then
              (Throw (JsError (errorMessage
                               +:+ " (Token might be expired or invalid)")),
               {| this := wiped (this st2); world := world st2 |})
            else (Throw (JsError errorMessage), st2)
      | None =>
          if request error then
            (Throw (JsError
               "Network Error: No response received from MCP API. Check connection and base URL."),
             st2)
          else
            (Throw (JsError ("Request Setup Error: " +:+ message error
                             +:+ ". Check request parameters.")), st2)
      end
  end.
Proof.
  intros E Hk. unfold makeRequest. run_monad. rewrite E.
  unfold ToString at 1. rewrite Hk. cbn.
  destruct (axios _ st1) as [[resp|error] st2]; [done|].
  destruct (response error) as [[status errorData]|].
  - cbn zeta. unfold ToString.
    destruct (JS.truthy (detailsOf errorData)); cbn [andb negb].
    + destruct (JS.stringable (detailsOf errorData)); cbn; [|done].
      by destruct (status =? 401).
    + by destruct (status =? 401).
  - by destruct (request error).
Qed.

(** A token that does not convert to a string never reaches axios: the
    header cannot be written, and the failure is reported as a request
    that could not be set up. *)
Lemma makeRequest_unprintable_token endpoint method data st token st1 :
  getValidAccessToken st = (Ok token, st1) ->
  JS.stringable token = false ->
  makeRequest endpoint method data st =
  (Throw (JsError ("Request Setup Error: "
                   +:+ "Cannot convert object to primitive value"
                   +:+ ". Check request parameters.")), st1).
Proof.
  intros E Hk. unfold makeRequest. run_monad. rewrite E.
  unfold ToString. by rewrite Hk.
Qed.

(** A failure of the token manager is reported as a failure to set the
    request up. *)
Lemma makeRequest_without_token endpoint method data st e st1 :
  getValidAccessToken st = (Throw e, st1) ->
  makeRequest endpoint method data st =
  (Throw (JsError ("Request Setup Error: " +:+ message e
                   +:+ ". Check request parameters.")), st1).
Proof.
  intros E. destruct (getValidAccessToken_throws _ _ _ E) as [msg ->].
  unfold makeRequest. run_monad. by rewrite E.
Qed.

Lemma axios_sent config st r st' :
  axios config st = (r, st') ->
  this st' = this st /\ sent (world st') = (sent (world st) ++ [config])%list.
Proof.
  unfold axios.
  destruct (script (world st)) as [|[elapsed reply] rest];
    [by intros [= <- <-]|].
  destruct reply as [status hs data|m|m]; [|by intros [= <- <-]..].
  destruct (validateStatus status); by intros [= <- <-].
Qed.

(** * Further properties of the spec cache *)

Lemma getSpecContent_empty productName specPath :
  productName = EmptyString \/ specPath = EmptyString ->
  exists e, forall st, getSpecContent productName specPath st = (Throw e, st).
Proof.
  unfold getSpecContent. intros [->| ->].
  - eexists. intros st. reflexivity.
  - destruct (String.eqb productName ""); eexists; intros st; reflexivity.
Qed.

(** The three ways through a cached read. *)
Lemma getSpecContentWithCache_cases productName specPath st :
  let cacheKey := cacheKeyOf productName specPath in
  (cacheTTL (this st) <= 0 /\
   getSpecContentWithCache productName specPath st
     = getSpecContent productName specPath st) \/
  (0 < cacheTTL (this st) /\
   exists entry,
     specCache (this st) !! cacheKey = Some entry /\
     getSpecContentWithCache productName specPath st
       = (Ok (content entry), st)) \/
  (0 < cacheTTL (this st) /\
   getSpecContentWithCache productName specPath st
     = fetch_and_store productName specPath st).
Proof.
  intros cacheKey.
  destruct (Z.lt_ge_cases 0 (cacheTTL (this st))) as [Ht|Ht].
  - right.
    destruct (specCache (this st) !! cacheKey) as [entry|] eqn:Hl.
    + destruct (Z.lt_ge_cases (now (world st)) (expiry entry)) as [Hn|Hn].
      * left. split; [done|]. exists entry. split; [done|].
        by apply getSpecContentWithCache_hit.
      * right. split; [done|]. apply getSpecContentWithCache_miss; [done|].
        fold cacheKey. by rewrite Hl.
    + right. split; [done|]. apply getSpecContentWithCache_miss; [done|].
      fold cacheKey. by rewrite Hl.
  - left. split; [lia|]. apply getSpecContentWithCache_disabled. lia.
Qed.

Lemma cacheKeyOf_empty s : cacheKeyOf EmptyString s = String ":" (String ":" s).
Proof. reflexivity. Qed.

Lemma cacheKeyOf_cons c p s : cacheKeyOf (String c p) s = String c (cacheKeyOf p s).
Proof. reflexivity. Qed.

(** * Properties of the collector *)

Lemma same_configuration_refl a : same_configuration a a.
Proof. by repeat split. Qed.

Lemma same_configuration_trans a b c :
  same_configuration a b -> same_configuration b c -> same_configuration a c.
Proof.
  intros (? & ? & ? & ?) (? & ? & ? & ?). repeat split; congruence.
Qed.

Lemma same_settings_configuration a b :
  same_settings a b -> same_configuration a b.
Proof. intros (? & ? & ? & ? & _). by repeat split. Qed.

Lemma listProductSpecs_configuration productName st r st' :
  listProductSpecs productName st = (r, st') ->
  same_configuration (this st') (this st).
Proof.
  unfold listProductSpecs. destruct (negb _).
  - intros [= <- <-]. apply same_configuration_refl.
  - run_monad. destruct (ToString productName) as [name|].
    + intros H. by apply makeRequest_frame, same_settings_configuration in H.
    + intros [= <- <-]. apply same_configuration_refl.
Qed.

Lemma getSpecContent_untyped_frame productName specPath st r st' :
  getSpecContent_untyped productName specPath st = (r, st') ->
  same_settings (this st') (this st).
Proof.
  unfold getSpecContent_untyped.
  destruct (negb _); [by intros [= <- <-]|].
  destruct (String.eqb specPath ""); [by intros [= <- <-]|].
  run_monad. destruct (ToString productName) as [name|];
    [apply makeRequest_frame|by intros [= <- <-]].
Qed.

Lemma getSpecContentWithCache_untyped_configuration productName specPath st
    r st' :
  getSpecContentWithCache_untyped productName specPath st = (r, st') ->
  same_configuration (this st') (this st).
Proof.
  unfold getSpecContentWithCache_untyped. run_monad.
  destruct (ToString productName) as [name|];
    [|intros [= <- <-]; apply same_configuration_refl].
  set (cacheKey := cacheKeyOf _ _).
  destruct (0 <? cacheTTL (this st)) eqn:Ht.
  - destruct (specCache (this st) !! cacheKey) as [entry|]; cbn.
    + destruct (now (world st) <? expiry entry); cbn.
      * intros [= <- <-]. apply same_configuration_refl.
      * destruct (getSpecContent_untyped _ _ _) as [[c|e] st1] eqn:E;
          apply getSpecContent_untyped_frame, same_settings_configuration in E.
        -- cbn. destruct (0 <? cacheTTL (this st1)); cbn;
             [destruct (toISOString _)|]; intros [= <- <-]; exact E.
        -- intros [= <- <-]. exact E.
    + destruct (getSpecContent_untyped _ _ _) as [[c|e] st1] eqn:E;
        apply getSpecContent_untyped_frame, same_settings_configuration in E.
      * cbn. destruct (0 <? cacheTTL (this st1)); cbn;
          [destruct (toISOString _)|]; intros [= <- <-]; exact E.
      * intros [= <- <-]. exact E.
  - destruct (getSpecContent_untyped _ _ _) as [[c|e] st1] eqn:E;
      apply getSpecContent_untyped_frame, same_settings_configuration in E.
    + cbn. destruct (0 <? cacheTTL (this st1)); cbn;
        [destruct (toISOString _)|]; intros [= <- <-]; exact E.
    + intros [= <- <-]. exact E.
Qed.

Lemma fetch_config_configuration productName specLocation m config st r st' :
  fetch_config productName specLocation m config st = (r, st') ->
  same_configuration (this st') (this st).
Proof.
  unfold fetch_config. run_monad.
  destruct (get_strict "attributes" config) as [attributes|];
    [|intros [= <- <-]; apply same_configuration_refl].
  destruct (find_in "hub_api" attributes) as [a1|];
    [|intros [= <- <-]; apply same_configuration_refl].
  destruct (find_in "hub_version" attributes) as [a2|];
    [|intros [= <- <-]; apply same_configuration_refl].
  destruct (find_in "hub_spec" attributes) as [a3|];
    [|intros [= <- <-]; apply same_configuration_refl].
  destruct (_ && _); [|intros [= <- <-]; apply same_configuration_refl].
  destruct (specPathOf _ _ _ _) as [specPath|];
    [|intros [= <- <-]; apply same_configuration_refl].
  destruct (getSpecContentWithCache_untyped _ _ _) as [[c|e] st1] eqn:E;
    apply getSpecContentWithCache_untyped_configuration in E;
    by intros [= <- <-].
Qed.

(** The loop over the configs returns, whatever its rounds throw. *)
Lemma fetch_configs_returns productName specLocation configs :
  forall m st, exists m' st',
    fetch_configs productName specLocation configs m st = (Ok m', st') /\
    same_configuration (this st') (this st).
Proof.
  induction configs as [|config configs IH]; intros m st.
  - exists m, st. split; [done|]. apply same_configuration_refl.
  - cbn [fetch_configs]. run_monad.
    destruct (fetch_config productName specLocation m config st)
      as [[m1|e] st1] eqn:E;
      apply fetch_config_configuration in E.
    + destruct (IH m1 st1) as (m' & st' & -> & Hc).
      exists m', st'. split; [done|]. by eapply same_configuration_trans.
    + by exists m, st1.
Qed.

(** A product's round returns, whatever happens in it, when the
    product name is one that the [catch] can print. *)
Lemma productSpecs_returns productName st :
  JS.stringable productName = true ->
  exists m st',
    productSpecs productName st = (Ok m, st') /\
    same_configuration (this st') (this st).
Proof.
  intros Hn. unfold productSpecs. run_monad. unfold ToString. rewrite Hn.
  destruct (listProductSpecs productName st) as [[specList|e] st1] eqn:E;
    apply listProductSpecs_configuration in E; [|by exists [], st1].
  destruct (get_strict "Specs" specList) as [Specs|]; [|by exists [], st1].
  destruct (negb _); [by exists [], st1|].
  match goal with
  | |- context [fetch_configs ?p ?l ?c ?m ?s] =>
      destruct (fetch_configs_returns p l c m s) as (m' & st' & -> & Hc)
  end.
  exists m', st'. split; [done|]. by eapply same_configuration_trans.
Qed.

Lemma productSpecs_listing_fails productName st e st1 :
  JS.stringable productName = true ->
  listProductSpecs productName st = (Throw e, st1) ->
  productSpecs productName st = (Ok [], st1).
Proof.
  intros Hn E. unfold productSpecs. run_monad. rewrite E.
  unfold ToString. by rewrite Hn.
Qed.

(** A product's round keeps the settings, also when it throws. *)
Lemma productSpecs_configuration productName st r st' :
  productSpecs productName st = (r, st') ->
  same_configuration (this st') (this st).
Proof.
  unfold productSpecs. run_monad.
  destruct (listProductSpecs productName st) as [[specList|e] st1] eqn:E;
    apply listProductSpecs_configuration in E;
    [|destruct (ToString productName); by intros [= <- <-]].
  destruct (get_strict "Specs" specList) as [Specs|];
    [|destruct (ToString productName); by intros [= <- <-]].
  destruct (negb _); [by intros [= <- <-]|].
  match goal with
  | |- context [fetch_configs ?p ?l ?c ?m ?s] =>
      destruct (fetch_configs_returns p l c m s) as (m' & st2 & -> & Hc)
  end.
  intros [= <- <-]. by eapply same_configuration_trans.
Qed.

Lemma same_value_zero_eq a b : same_value_zero a b = true -> a = b.
Proof.
  destruct a, b; cbn; try done.
  - by intros ->%Bool.eqb_prop.
  - by intros ->%Z.eqb_eq.
  - by intros ->%String.eqb_eq.
Qed.

Lemma map_set_keys {A} k0 (x : A) m k :
  In k (map fst (map_set k0 x m)) <-> k = k0 \/ In k (map fst m).
Proof. forget_host.
  induction m as [|[k1 y] m IH]; cbn.
  - split; [intros [<-|[]]; by left|intros [->|[]]; by left].
  - destruct (same_value_zero k1 k0) eqn:E; cbn.
    + apply same_value_zero_eq in E as ->.
      split; [intros [->|?]; auto|intros [->|[->|?]]; auto].
    + rewrite IH.
      split; [intros [->|[->|?]]; auto|intros [->|[->|?]]; auto].
Qed.

Lemma map_set_length {A} k0 (x : A) m :
  (length (map_set k0 x m) <= S (length m))%nat.
Proof.
  induction m as [|[k1 y] m IH]; cbn; [lia|].
  destruct (same_value_zero k1 k0); cbn; lia.
Qed.

(** The loop over the products returns, with one entry for every name,
    when every name converts to a string. *)
Lemma fetch_products_returns productNames :
  forallb JS.stringable productNames = true ->
  forall acc st, exists m st',
    fetch_products productNames acc st = (Ok m, st') /\
    same_configuration (this st') (this st) /\
    (forall k, In k (map fst m) <-> In k (map fst acc) \/ In k productNames) /\
    (length m <= length acc + length productNames)%nat.
Proof. forget_host.
  induction productNames as [|p ps IH]; intros Hn acc st.
  - exists acc, st. split; [done|]. split; [apply same_configuration_refl|].
    split; [cbn; tauto|lia].
  - cbn [forallb] in Hn. apply andb_prop in Hn as [Hp Hn].
    cbn [fetch_products]. run_monad. unfold ToString at 1. rewrite Hp.
    destruct (productSpecs_returns p st Hp) as (m1 & st1 & -> & Hc1).
    destruct (IH Hn (map_set p m1 acc) st1) as (m & st' & -> & Hc & Hk & Hl).
    exists m, st'. split; [done|].
    split; [by eapply same_configuration_trans|]. split.
    + intros k. rewrite Hk, map_set_keys. cbn. split.
      * intros [[->|?]|?]; auto.
      * intros [?|[->|?]]; auto.
    + pose proof (map_set_length p m1 acc). cbn [length]. lia.
Qed.

(** The loop throws at the first name that does not convert, and no
    map is returned. *)
Lemma fetch_products_throws productNames :
  forallb JS.stringable productNames = false ->
  forall acc st, exists st',
    fetch_products productNames acc st
      = (Throw (JsError "Cannot convert object to primitive value"), st').
Proof. forget_host.
  induction productNames as [|p ps IH]; intros Hn acc st; [done|].
  cbn [forallb] in Hn. cbn [fetch_products]. run_monad. unfold ToString at 1.
  destruct (JS.stringable p) eqn:Hp; [|by eexists].
  destruct (productSpecs_returns p st Hp) as (m1 & st1 & -> & Hc1).
  apply IH. exact Hn.
Qed.

Lemma fetch_products_configuration productNames :
  forall acc st r st',
    fetch_products productNames acc st = (r, st') ->
    same_configuration (this st') (this st).
Proof.
  induction productNames as [|p ps IH]; intros acc st r st'.
  - intros [= <- <-]. apply same_configuration_refl.
  - cbn [fetch_products]. run_monad.
    destruct (ToString p);
      [|intros [= <- <-]; apply same_configuration_refl].
    destruct (productSpecs p st) as [[m1|e] st1] eqn:E;
      apply productSpecs_configuration in E.
    + intros H. apply IH in H. by eapply same_configuration_trans.
    + by intros [= <- <-].
Qed.

Lemma listProducts_configuration st r st' :
  listProducts st = (r, st') -> same_configuration (this st') (this st).
Proof.
  unfold listProducts. intros H.
  by apply makeRequest_frame, same_settings_configuration in H.
Qed.

(** The collector, once the product list is there. *)
Lemma getAllProductSpecsContent_listed st productList st1 :
  listProducts st = (Ok productList, st1) ->
  getAllProductSpecsContent st =
  match get_strict "Products" productList with
  | Ok _ => fetch_products (productNamesOf productList) [] st1
  | Throw e => (Throw e, st1)
  end.
Proof.
  intros E. unfold getAllProductSpecsContent, productNamesOf. run_monad.
  rewrite E. destruct productList; try done.
Qed.

(** On a product name that is a string, the calls of the collector are
    the calls with a string for the product name. *)
Lemma getSpecContent_untyped_string productName specPath :
  getSpecContent_untyped (VStr productName) specPath
  = getSpecContent productName specPath.
Proof.
  unfold getSpecContent_untyped, getSpecContent. cbn [JS.truthy].
  by rewrite negb_involutive.
Qed.

Lemma getSpecContentWithCache_untyped_string productName specPath :
  getSpecContentWithCache_untyped (VStr productName) specPath
  = getSpecContentWithCache productName specPath.
Proof.
  unfold getSpecContentWithCache_untyped, getSpecContentWithCache.
  by rewrite getSpecContent_untyped_string.
Qed.

(** * Percent-encoding and the request URL *)

Lemma count_char_app c a b :
  count_char c (a +:+ b) = (count_char c a + count_char c b)%nat.
Proof.
  induction a as [|d a IH]; [done|].
  change (String d a +:+ b) with (String d (a +:+ b)).
  cbn [count_char]. rewrite IH. lia.
Qed.

Lemma count_char_substring_from c n s :
  (count_char c (Str.substring_from n s) <= count_char c s)%nat.
Proof.
  revert s. induction n as [|n IH]; intros s; [by destruct s|].
  destruct s as [|d s]; [done|]. cbn [Str.substring_from count_char].
  specialize (IH s). lia.
Qed.

Lemma count_char_replace_first c pattern replacement s :
  (count_char c (replace_first pattern replacement s)
   <= count_char c replacement + count_char c s)%nat.
Proof.
  induction s as [|d s IH].
  - cbn [replace_first]. destruct (Str.startsWith pattern ""); [|cbn; lia].
    rewrite count_char_app.
    pose proof (count_char_substring_from c (String.length pattern) "").
    lia.
  - cbn [replace_first]. destruct (Str.startsWith pattern (String d s)).
    + rewrite count_char_app.
      pose proof (count_char_substring_from c (String.length pattern)
                    (String d s)).
      lia.
    + cbn [count_char]. lia.
Qed.

Lemma hex_char_unreserved k :
  (k < 16)%N -> Str.uri_unreserved (Str.hex_char k) = true.
Proof.
  intros H.
  assert (k = 0 \/ k = 1 \/ k = 2 \/ k = 3 \/ k = 4 \/ k = 5 \/ k = 6 \/ k = 7
          \/ k = 8 \/ k = 9 \/ k = 10 \/ k = 11 \/ k = 12 \/ k = 13 \/ k = 14
          \/ k = 15)%N as Hk by lia.
  repeat (destruct Hk as [->|Hk]; [reflexivity|]). by subst.
Qed.

Lemma reserved_not_unreserved c d :
  is_reserved c = true -> Str.uri_unreserved d = true -> Ascii.eqb d c = false.
Proof.
  unfold is_reserved. intros [Hc _]%andb_prop Hd.
  destruct (Ascii.eqb d c) eqn:E; [|done].
  apply Ascii.eqb_eq in E as ->. by rewrite Hd in Hc.
Qed.

(** Percent-encoding leaves no reserved character. *)
Lemma count_char_encodeURIComponent c s :
  is_reserved c = true -> count_char c (Str.encodeURIComponent s) = 0%nat.
Proof.
  intros Hc. induction s as [|d s IH]; [done|].
  cbn [Str.encodeURIComponent].
  destruct (Str.uri_unreserved d) eqn:Hd.
  - cbn [count_char]. by rewrite (reserved_not_unreserved _ _ Hc Hd), IH.
  - cbn zeta. cbn [count_char]. rewrite IH.
    pose proof (N_ascii_bounded d) as Hb.
    rewrite (reserved_not_unreserved c (Str.hex_char (N_of_ascii d / 16)) Hc).
    2: { apply hex_char_unreserved. apply N.Div0.div_lt_upper_bound. lia. }
    rewrite (reserved_not_unreserved c (Str.hex_char (N_of_ascii d mod 16)) Hc).
    2: { apply hex_char_unreserved. apply N.mod_lt. lia. }
    unfold is_reserved in Hc. apply andb_prop in Hc as [_ Hp].
    apply negb_true_iff in Hp. rewrite Ascii.eqb_sym in Hp. by rewrite Hp.
Qed.

Lemma place_parameter_url parameters d p d' c :
  is_reserved c = true ->
  place_parameter parameters d p = Ok d' ->
  (count_char c (d_url d') <= count_char c (d_url d))%nat.
Proof.
  intros Hc. unfold place_parameter.
  destruct (negb (JS.is_object p)); [done|].
  destruct (JS.has "$ref" p); [destruct (ToString _); by intros [= <-]|].
  destruct (get_strict _ parameters) as [paramValue|]; cbn [rbind]; [|done].
  destruct (ToString (JS.get "name" p)) as [name|]; cbn [rbind]; [|done].
  destruct (is_undefined paramValue); [by intros [= <-]|].
  destruct (JS.strict_eq_str (JS.get "in" p) "path").
  - destruct (ToString paramValue) as [text|]; cbn [rbind]; [|done].
    intros [= <-]. cbn [d_url].
    pose proof (count_char_replace_first c
                  ("{" +:+ JS.to_string (JS.get "name" p) +:+ "}")
                  (Str.encodeURIComponent text) (d_url d)) as H.
    rewrite (count_char_encodeURIComponent _ _ Hc) in H. exact H.
  - destruct (JS.strict_eq_str (JS.get "in" p) "query"); [by intros [= <-]|].
    destruct (JS.strict_eq_str (JS.get "in" p) "header");
      [destruct (ToString _)|]; by intros [= <-].
Qed.

Lemma place_parameters_url parameters c l :
  is_reserved c = true ->
  forall d d',
    place_parameters parameters d l = Ok d' ->
    (count_char c (d_url d') <= count_char c (d_url d))%nat.
Proof.
  intros Hc. induction l as [|p l IH]; intros d d'; cbn [place_parameters].
  - by intros [= <-].
  - destruct (place_parameter parameters d p) as [d1|] eqn:E; cbn [rbind]; [|done].
    intros H. apply (place_parameter_url _ _ _ _ _ Hc) in E.
    apply IH in H. lia.
Qed.



(** A malformed escape is a second way to [null] outside the contract's
  four: the key [%] is there, the pointer [#/%] does not decode. *)
Lemma resolveReference_malformed_escape :
let doc := VObj [("%", VNum 1)] in
resolveReference doc (VStr "#/%") = Ok VNull /\
decoded_path "#/%" = None /\ JS.has "%" doc = true.
Proof. by vm_compute. Qed.

(** * The claims *)

(** C1: a stored token is reused, with no exchange, while the clock reads
    less than its expiry minus 30 seconds; a successful exchange whose
    reply has no [expires_in] stores the token with no expiry, and as
    reuse needs an expiry every later call hands a new token request to
    axios, whatever the clock reads. *)
Theorem token_reuse_and_refetch (st : State) :
  (forall e,
     JS.truthy (accessToken (this st)) = true ->
     tokenExpiry (this st) = Some e ->
     0 <= now (world st) ->
     now (world st) < e - 30 * 1000 ->
     getValidAccessToken st = (Ok (accessToken (this st)), st)) /\
  (forall elapsed status hs data rest,
     token_is_fresh (this st) (now (world st)) = false ->
     script (world st) = (elapsed, Response status hs data) :: rest ->
     validateStatus status = true ->
     JS.truthy data = true ->
     JS.truthy (JS.get "access_token" data) = true ->
     JS.truthy (JS.get "expires_in" data) = false ->
     exists st1,
       getValidAccessToken st = (Ok (JS.get "access_token" data), st1) /\
       accessToken (this st1) = JS.get "access_token" data /\
       tokenExpiry (this st1) = None /\
       forall w, exists r st2,
         getValidAccessToken (advance w st1) = (r, st2) /\
         sent (world st2) = (sent w ++ [tokenRequest (this st1)])%list).
Proof.
  split.
  - intros e Ht He H0 Hn. apply getValidAccessToken_reuse.
    unfold token_is_fresh. rewrite Ht, He. cbn.
    apply andb_true_intro. split; [apply negb_true_iff|]; lia.
  - intros elapsed status hs data rest Hf Hs Hv Hd Ht He.
    rewrite (getValidAccessToken_store_forever _ _ _ _ _ _ Hf Hs Hv Hd Ht He).
    eexists. split; [reflexivity|]. cbn. repeat split.
    intros w.
    destruct (getValidAccessToken_exchange
                (advance w
                   {| this := set_expiry None
                                (set_token (JS.get "access_token" data) (this st));
                      world := deliver (tokenRequest (this st)) elapsed rest
                                 (world st) |}))
      as (r & st2 & E & Hsent & _).
    { unfold token_is_fresh. cbn. apply andb_false_r. }
    exists r, st2. split; [exact E|exact Hsent].
Qed.

(** C2: a configured TTL of 0 is kept and a negative one is replaced by
    the five-minute default; with an effective TTL that is not positive,
    every call is the plain fetch: it neither writes the spec cache nor
    depends on what the cache holds. *)
Theorem cache_disabled_at_zero (productName specPath : string) :
  (forall options env,
     (o_cacheTTL options = Some 0 -> cacheTTL (constructor options env) = 0) /\
     (forall ttl, o_cacheTTL options = Some ttl -> ttl < 0 ->
                  cacheTTL (constructor options env) = 300000)) /\
  (forall st,
     cacheTTL (this st) <= 0 ->
     getSpecContentWithCache productName specPath st
       = getSpecContent productName specPath st /\
     forall r st',
       getSpecContentWithCache productName specPath st = (r, st') ->
       specCache (this st') = specCache (this st) /\
       forall c,
         getSpecContentWithCache productName specPath (swap_cache c st)
           = (r, swap_cache c st')).
Proof.
  split.
  - intros options env. unfold constructor. cbn. split.
    + by intros ->.
    + intros ttl -> H. by assert ((ttl <? 0) = true) as -> by lia.
  - intros st Httl.
    split; [by apply getSpecContentWithCache_disabled|].
    intros r st'. rewrite getSpecContentWithCache_disabled by done.
    intros E. split.
    + by apply getSpecContent_frame in E as (_ & _ & _ & _ & ->).
    + intros c. rewrite getSpecContentWithCache_disabled by done.
      by apply getSpecContent_swap.
Qed.

(** C4: every tool the generator returns comes from an operation of a
    parsed document, and carries the classification of that operation.
    The document-level classification is that of the scan of the
    document's [security] list: no authentication when the list or the
    security schemes are missing, OpenID Connect with URL [url] exactly
    when the first scheme of the list that is an OpenID Connect scheme
    has this URL.  An operation without a [security] field takes the
    document-level classification as it is; one with an empty list
    needs no external authentication whatever the document says; one
    with a non-empty list is classified by the scan of that list alone.
    The tool holds the URL of its classification, and the authorization
    parameter when the classification asks for OpenID Connect: so under
    a document-level OpenID Connect requirement with URL [url] every
    tool of an operation without [security] carries [url] and the
    authorization parameter. *)
Theorem operation_security_classification (fuel : nat)
    (specData : list (value * list (value * value))) (tools : list Tool)
    (t : Tool) :
  generateOpenApiTools fuel specData = Some tools -> In t tools ->
  exists spec path verb (global security : classification),
    let operation := JS.get verb (JS.get path (JS.get "paths" spec)) in
    let schemes := get_opt "securitySchemes" (JS.get "components" spec) in
    (exists product specMap sp specContent,
       In (product, specMap) specData /\ In (sp, specContent) specMap /\
       yaml_load specContent = Ok spec) /\
    apiPath (executionDetails t) = VStr path /\
    httpMethod (executionDetails t) = VStr verb /\
    (* the document *)
    globalSecurity spec = Ok global /\
    (JS.truthy (JS.get "security" spec) && JS.truthy schemes = false ->
     global = (false, VUndef)) /\
    (forall requirements,
       JS.get "security" spec = VArr requirements ->
       JS.truthy schemes = true ->
       scanSecurity spec (VArr requirements) = Ok global /\
       forall url,
         global = (true, url) <->
         first_openid spec (scheme_names requirements) url) /\
    (* the operation *)
    operationSecurity spec global operation = Ok security /\
    (JS.get "security" operation = VUndef -> security = global) /\
    (JS.get "security" operation = VArr [] -> security = (false, VUndef)) /\
    (forall r rs,
       JS.get "security" operation = VArr (r :: rs) ->
       (JS.truthy schemes = false -> security = (false, VUndef)) /\
       (JS.truthy schemes = true ->
        scanSecurity spec (VArr (r :: rs)) = Ok security /\
        forall url,
          security = (true, url) <->
          first_openid spec (scheme_names (r :: rs)) url)) /\
    (* the tool *)
    openIdConnectUrl (executionDetails t) = snd security /\
    (exists shape,
       parameters t =
       ZodObject
         (if fst security
          then Zod.set_prop "X-User-Authorization" userAuthorizationParameter
                 shape
          else shape) false VUndef) /\
    (forall url,
       global = (true, url) -> JS.get "security" operation = VUndef ->
       openIdConnectUrl (executionDetails t) = url /\
       exists shape,
         parameters t =
         ZodObject
           (Zod.set_prop "X-User-Authorization" userAuthorizationParameter
              shape) false VUndef).
Proof.
  intros Hg Hin.
  destruct (generateOpenApiTools_In _ _ _ _ Hg Hin)
    as (product & specMap & sp & specContent & spec & global & path & verb
        & Hp & Hs & Hy & Hgl & _ & _ & Ht).
  pose proof (operationTool_details _ _ _ _ _ _ _ _ _ _ Ht)
    as (_ & _ & _ & _ & _ & _ & Hm & Ha & _).
  apply operationTool_inv in Ht
    as (base & security & _ & Hsec & _ & _ & _ & Hurl & shape & Hshape).
  exists spec, path, verb, global, security. cbn zeta.
  split; [by exists product, specMap, sp, specContent|].
  split; [done|]. split; [done|]. split; [done|].
  split.
  { intros Hn. unfold globalSecurity in Hgl. rewrite Hn in Hgl.
    by injection Hgl as <-. }
  split.
  { intros requirements Er Hsch. unfold globalSecurity in Hgl.
    rewrite Er, Hsch in Hgl. cbn [JS.truthy andb] in Hgl.
    split; [done|]. intros url. rewrite <- scanSecurity_found.
    rewrite Hgl. split; [by intros ->|by intros [= ->]]. }
  split; [done|].
  split.
  { intros E. unfold operationSecurity in Hsec. rewrite E in Hsec.
    by injection Hsec as <-. }
  split.
  { intros E. unfold operationSecurity in Hsec. rewrite E in Hsec.
    by injection Hsec as <-. }
  split.
  { intros r rs E. rewrite (operationSecurity_list _ _ _ _ _ E) in Hsec.
    split.
    - intros Hsch. rewrite Hsch in Hsec. by injection Hsec as <-.
    - intros Hsch. rewrite Hsch in Hsec. split; [done|].
      intros url. rewrite <- scanSecurity_found.
      rewrite Hsec. split; [by intros ->|by intros [= ->]]. }
  split; [done|].
  split; [by exists shape|].
  intros url -> E. unfold operationSecurity in Hsec. rewrite E in Hsec.
  injection Hsec as <-. split; [done|]. by exists shape.
Qed.

(** C6: with a positive TTL, a call answers from a live entry (one whose
    expiry the clock has not reached) without fetching; otherwise it
    fetches and stores what it fetched until the clock at that moment
    plus the TTL.  It then returns what it fetched when a [Date] can
    hold that expiry; when the expiry is beyond the range of [Date] the
    entry is stored all the same and the call throws RangeError from
    the line that logs it.  After a call that returned [c], a call for
    the same key before the entry expires returns [c] and changes
    nothing, no request included, and a call once it has expired
    fetches again. *)
Theorem spec_cache_hit_and_store (productName specPath : string) (st : State) :
  0 < cacheTTL (this st) ->
  let cacheKey := cacheKeyOf productName specPath in
  (forall entry,
     specCache (this st) !! cacheKey = Some entry ->
     now (world st) < expiry entry ->
     getSpecContentWithCache productName specPath st
       = (Ok (content entry), st)) /\
  (match specCache (this st) !! cacheKey with
   | Some entry => expiry entry <= now (world st)
   | None => True
   end ->
   getSpecContentWithCache productName specPath st
     = fetch_and_store productName specPath st /\
   forall fetched st1,
     getSpecContent productName specPath
       (swap_cache (delete cacheKey (specCache (this st))) st)
       = (Ok fetched, st1) ->
     let expiry := now (world st1) + cacheTTL (this st) in
     let stored :=
       swap_cache
         (<[cacheKey := {| content := fetched; expiry := expiry |}]>
            (specCache (this st1))) st1 in
     (valid_time expiry = true ->
      getSpecContentWithCache productName specPath st = (Ok fetched, stored)) /\
     (valid_time expiry = false ->
      getSpecContentWithCache productName specPath st
        = (Throw (JsError "Invalid time value"), stored))) /\
  (forall c st1,
     getSpecContentWithCache productName specPath st = (Ok c, st1) ->
     exists entry,
       specCache (this st1) !! cacheKey = Some entry /\
       content entry = c /\
       (forall w,
          now w < expiry entry ->
          getSpecContentWithCache productName specPath (advance w st1)
            = (Ok c, advance w st1)) /\
       (forall w,
          expiry entry <= now w ->
          getSpecContentWithCache productName specPath (advance w st1)
            = fetch_and_store productName specPath (advance w st1))).
Proof.
  intros Httl cacheKey.
  split; [intros; by apply getSpecContentWithCache_hit|].
  split.
  { intros Hmiss.
    rewrite (getSpecContentWithCache_miss _ _ _ Httl Hmiss).
    split; [done|]. intros fetched st1 E. cbn zeta.
    unfold fetch_and_store. fold cacheKey. rewrite E.
    unfold toISOString. split; by intros ->. }
  intros c st1 Hcall.
  assert (exists entry,
            specCache (this st1) !! cacheKey = Some entry /\
            content entry = c /\ cacheTTL (this st1) = cacheTTL (this st))
    as (entry & Hl & Hc & Ht).
  { destruct (specCache (this st) !! cacheKey) as [entry|] eqn:Hl.
    - destruct (Z.lt_ge_cases (now (world st)) (expiry entry)) as [Hn|Hn].
      + rewrite (getSpecContentWithCache_hit _ _ _ _ Httl Hl Hn) in Hcall.
        injection Hcall as <- <-. by exists entry.
      + rewrite getSpecContentWithCache_miss in Hcall
          by (try done; fold cacheKey; by rewrite Hl).
        unfold fetch_and_store in Hcall. fold cacheKey in Hcall.
        destruct (getSpecContent _ _ _) as [[f|e] st'] eqn:E; [|done].
        destruct (toISOString _); [|done].
        injection Hcall as <- <-. eexists. cbn.
        rewrite lookup_insert_eq. split; [done|]. split; [done|].
        by apply getSpecContent_frame in E as (_ & _ & _ & -> & _).
    - rewrite getSpecContentWithCache_miss in Hcall
        by (try done; fold cacheKey; by rewrite Hl).
      unfold fetch_and_store in Hcall. fold cacheKey in Hcall.
      destruct (getSpecContent _ _ _) as [[f|e] st'] eqn:E; [|done].
      destruct (toISOString _); [|done].
      injection Hcall as <- <-. eexists. cbn.
      rewrite lookup_insert_eq. split; [done|]. split; [done|].
      by apply getSpecContent_frame in E as (_ & _ & _ & -> & _). }
  exists entry. split; [done|]. split; [done|]. split.
  - intros w Hw. rewrite <- Hc.
    apply getSpecContentWithCache_hit; cbn; [lia|done|done].
  - intros w Hw.
    apply getSpecContentWithCache_miss; cbn; [lia|].
    fold cacheKey. by rewrite Hl.
Qed.

(** C7: for a descriptor that is not direct-return, once the request is
    drafted and the authentication headers are there, a reply with a
    status outside 200..299 is returned as a result with [isError] set
    and the serialized response body as text; no reply, a request that
    axios could not set up, and a draft that fails are raised. *)
Theorem executor_error_classification (input : ExecutorInput) (st : State) :
  JS.truthy (isDirectReturnValue (in_executionDetails input)) = false ->
  (forall d authHeaders st1,
     draftRequest input = Ok d ->
     getAuthenticationHeaders input st = (Ok authHeaders, st1) ->
     (forall elapsed status hs body rest,
        script (world st1) = (elapsed, Response status hs body) :: rest ->
        validateStatus status = false ->
        exists st2,
          executeOpenApiTool input st
            = (Ok {| text := JSON_stringify body; isError := true |}, st2)) /\
     (forall elapsed m rest,
        script (world st1) = (elapsed, NoResponse m) :: rest ->
        exists st2,
          executeOpenApiTool input st = (Throw (AxiosError m None true), st2)) /\
     (forall elapsed m rest,
        script (world st1) = (elapsed, SetupFailure m) :: rest ->
        exists st2,
          executeOpenApiTool input st = (Throw (AxiosError m None false), st2)) /\
     (script (world st1) = [] ->
      exists e st2, executeOpenApiTool input st = (Throw e, st2))) /\
  (forall e,
     draftRequest input = Throw e ->
     executeOpenApiTool input st = (Throw e, st)).
Proof.
  intros Hd. split; [|intros; by apply executeOpenApiTool_draft_fails].
  intros d authHeaders st1 Hr Ha.
  rewrite (executeOpenApiTool_request _ _ _ _ _ Hd Hr Ha).
  unfold axios. repeat split.
  - intros elapsed status hs body rest -> Hv. rewrite Hv. cbn. eauto.
  - intros elapsed m rest ->. cbn. eauto.
  - intros elapsed m rest ->. cbn. eauto.
  - intros ->. cbn. eauto.
Qed.

(** C8: when the token is there and the API answers 401, what
    [makeRequest] does depends on the details of the reply, which it
    writes into its message before it looks at the status.  When they
    convert to a string it throws with the stored token and its expiry
    both reset to [null], so the next [getValidAccessToken] hands a new
    token request to axios, whatever the clock reads.  When they do not
    (the [message] or [error] member of the reply is an object with a
    member named [toString]), the conversion throws TypeError out of the
    [catch] block before the reset: the token and its expiry stay. *)
Theorem unauthorized_invalidates_token (endpoint method : string)
    (data : value) (st : State) :
  forall token st1 elapsed hs body rest,
    getValidAccessToken st = (Ok token, st1) ->
    JS.stringable token = true ->
    script (world st1) = (elapsed, Response 401 hs body) :: rest ->
    let answered :=
      deliver (apiRequest (this st1) token endpoint method data) elapsed rest
        (world st1) in
    (JS.stringable (detailsOf body) = true ->
     exists msg st2,
       makeRequest endpoint method data st = (Throw (JsError msg), st2) /\
       world st2 = answered /\
       accessToken (this st2) = VNull /\
       tokenExpiry (this st2) = None /\
       forall w, exists r st3,
         getValidAccessToken (advance w st2) = (r, st3) /\
         sent (world st3) = (sent w ++ [tokenRequest (this st2)])%list) /\
    (JS.stringable (detailsOf body) = false ->
     makeRequest endpoint method data st =
     (Throw (JsError "Cannot convert object to primitive value"),
      {| this := this st1; world := answered |})).
Proof.
  intros token st1 elapsed hs body rest E Hk Hs answered. split.
  - intros Hd.
    destruct (makeRequest_unauthorized endpoint method data _ _ _ _ _ _ _
                E Hk Hs Hd)
      as (msg & st2 & Hm & Ht & He & Hw).
    exists msg, st2. repeat split; try done.
    intros w.
    destruct (getValidAccessToken_exchange (advance w st2))
      as (r & st3 & E3 & Hsent & _).
    { unfold token_is_fresh. cbn. by rewrite Ht. }
    by exists r, st3.
  - intros Hd. rewrite (makeRequest_with_token _ _ _ _ _ _ E Hk).
    unfold axios. rewrite Hs. cbn.
    rewrite Hd. cbn [negb andb].
    by destruct (detailsOf body).
Qed.

Lemma prefixed_word_only base :
  word_only ("api_" +:+ base) = word_only base.
Proof. reflexivity. Qed.

Lemma prefixed_last_char base :
  last_char ("api_" +:+ base) =
  match base with
  | EmptyString => Some "_"%char
  | _ => last_char base
  end.
Proof. by destruct base. Qed.

Lemma prefixed_valid base :
  word_only base = true -> untrimmed base = false ->
  valid_identifier ("api_" +:+ base) = negb (String.eqb base "").
Proof.
  unfold valid_identifier, untrimmed. intros Hw [_ Hl]%orb_false_elim.
  rewrite prefixed_word_only, Hw, prefixed_last_char.
  destruct base as [|c base]; [done|].
  cbn [String.eqb negb andb first_char is_some_underscore orb].
  change (Str.is_underscore "a") with false. cbn [orb].
  by rewrite Hl.
Qed.


(** C9: the sanitizer is its two replacements one after the other: the
    first keeps letters, digits and underscores and puts one underscore
    for every maximal run of other characters, the second removes the
    underscores at both ends.  Its output holds only letters, digits
    and underscores and has no underscore at either end, and it is
    empty exactly when the input has no letter and no digit.  The
    method name of every tool the generator returns is [api_] followed
    by the sanitized operation identifier when the operation has one,
    and by the sanitized verb, underscore and path otherwise: it holds
    only letters, digits and underscores and begins with a letter, and
    it is a valid identifier exactly when the sanitized name is not
    empty. *)
Theorem sanitized_method_names :
  (forall input,
     sanitizeForMethodName input
       = trim_underscores (collapse_runs false input)) /\
  (forall input,
     word_only (sanitizeForMethodName input) = true /\
     untrimmed (sanitizeForMethodName input) = false /\
     (sanitizeForMethodName input = "" <-> no_alnum input = true)) /\
  (forall w rest,
     word_only w = true ->
     collapse_runs false (w +:+ rest) = w +:+ collapse_runs false rest) /\
  (forall r rest,
     all_chars non_word r = true -> r <> EmptyString -> run_ends rest = true ->
     collapse_runs false (r +:+ rest) = String "_" (collapse_runs false rest)) /\
  (forall u1 core u2,
     all_chars Str.is_underscore u1 = true ->
     all_chars Str.is_underscore u2 = true ->
     untrimmed core = false ->
     trim_underscores (u1 +:+ core +:+ u2) = core) /\
  (forall fuel specData tools t,
     generateOpenApiTools fuel specData = Some tools -> In t tools ->
     exists spec path verb source,
       let operation := JS.get verb (JS.get path (JS.get "paths" spec)) in
       (exists product specMap sp specContent,
          In (product, specMap) specData /\ In (sp, specContent) specMap /\
          yaml_load specContent = Ok spec) /\
       apiPath (executionDetails t) = VStr path /\
       httpMethod (executionDetails t) = VStr verb /\
       (JS.truthy (JS.get "operationId" operation) = true ->
        JS.get "operationId" operation = VStr source) /\
       (JS.truthy (JS.get "operationId" operation) = false ->
        source = verb +:+ "_" +:+ path) /\
       method t = "api_" +:+ sanitizeForMethodName source /\
       word_only (method t) = true /\
       first_char (method t) = Some "a"%char /\
       valid_identifier (method t) = negb (no_alnum source)).
Proof.
  split; [done|].
  split.
  { intros input. split; [apply sanitize_word_only|].
    split; [apply sanitize_trimmed|apply sanitize_empty_iff]. }
  split; [intros; by apply collapse_runs_word|].
  split; [intros; by apply collapse_runs_run|].
  split; [intros; by apply trim_underscores_spec|].
  intros fuel specData tools t Hg Hin.
  destruct (generated_tool_named _ _ _ _ Hg Hin)
    as (spec & path & verb & Hfrom & Ha & Hm & Hid & Hvp & _).
  cbn zeta in Hid, Hvp.
  destruct Hfrom as (product & specMap & sp & specContent & ? & ? & ? & _).
  assert (exists source,
            (JS.truthy (JS.get "operationId"
                          (JS.get verb (JS.get path (JS.get "paths" spec))))
               = true ->
             JS.get "operationId"
               (JS.get verb (JS.get path (JS.get "paths" spec)))
               = VStr source) /\
            (JS.truthy (JS.get "operationId"
                          (JS.get verb (JS.get path (JS.get "paths" spec))))
               = false ->
             source = verb +:+ "_" +:+ path) /\
            method t = "api_" +:+ sanitizeForMethodName source)
    as (source & Hsrc1 & Hsrc2 & E).
  { destruct (JS.truthy (JS.get "operationId" _)) eqn:Ho.
    - destruct (Hid eq_refl) as (id & Eid & En). by exists id.
    - exists (verb +:+ "_" +:+ path). by rewrite (Hvp eq_refl). }
  exists spec, path, verb, source. cbn zeta.
  split; [by exists product, specMap, sp, specContent|].
  split; [done|]. split; [done|]. split; [done|]. split; [done|].
  split; [done|]. rewrite E.
  split; [rewrite prefixed_word_only; apply sanitize_word_only|].
  split; [done|].
  rewrite prefixed_valid by (apply sanitize_word_only || apply sanitize_trimmed).
  f_equal. apply eq_true_iff_eq.
  rewrite <- sanitize_empty_iff. apply String.eqb_eq.
Qed.

(** C10: the generator returns on every input.  Every tool it returns
    was made for an operation of a parsed document: its method name is
    [api_] followed by the sanitized operation identifier when the
    operation has one, and by the sanitized verb, underscore and path
    otherwise, and its category is [api_] followed by its product
    name; so its method name starts with [api_], hence with a
    letter. *)
Theorem tool_names_prefixed
    (specData : list (value * list (value * value))) :
  (exists n tools, forall fuel,
     (n <= fuel)%nat -> generateOpenApiTools fuel specData = Some tools) /\
  (forall fuel tools t,
     generateOpenApiTools fuel specData = Some tools -> In t tools ->
     (exists spec path verb,
        let operation := JS.get verb (JS.get path (JS.get "paths" spec)) in
        (exists product specMap sp specContent,
           In (product, specMap) specData /\ In (sp, specContent) specMap /\
           yaml_load specContent = Ok spec /\ productName t = product) /\
        apiPath (executionDetails t) = VStr path /\
        httpMethod (executionDetails t) = VStr verb /\
        (JS.truthy (JS.get "operationId" operation) = true ->
         exists id,
           JS.get "operationId" operation = VStr id /\
           method t = "api_" +:+ sanitizeForMethodName id) /\
        (JS.truthy (JS.get "operationId" operation) = false ->
         method t
           = "api_" +:+ sanitizeForMethodName (verb +:+ "_" +:+ path))) /\
     category t = "api_" +:+ JS.to_string (productName t) /\
     Str.startsWith "api_" (method t) = true /\
     (exists c, first_char (method t) = Some c /\ is_letter c = true)).
Proof.
  split; [apply generateOpenApiTools_returns|].
  intros fuel tools t Hg Hin.
  destruct (generated_tool_named _ _ _ _ Hg Hin)
    as (spec & path & verb & Hfrom & Ha & Hm & Hid & Hvp & Hc).
  cbn zeta in Hid, Hvp.
  assert (exists base, method t = "api_" +:+ base) as [base E].
  { destruct (JS.truthy (JS.get "operationId"
                           (JS.get verb (JS.get path (JS.get "paths" spec)))))
      eqn:Ho.
    - destruct (Hid eq_refl) as (id & _ & En). eauto.
    - rewrite (Hvp eq_refl). eauto. }
  split; [by exists spec, path, verb|].
  split; [done|]. rewrite E. split; [done|]. by exists "a"%char.
Qed.

(** * Further properties *)

(** ** The sanitizer *)

(** X1: the names the sanitizer leaves as they are, are the names made
    of letters, digits and underscores with no underscore at either
    end; so its output is one of them, and sanitizing twice is
    sanitizing once. *)
Theorem sanitizeForMethodName_fixed_points :
  (forall s,
     sanitizeForMethodName s = s <->
     word_only s = true /\ untrimmed s = false) /\
  (forall s,
     sanitizeForMethodName (sanitizeForMethodName s) = sanitizeForMethodName s).
Proof.
  assert (forall s, word_only s = true -> untrimmed s = false ->
                    sanitizeForMethodName s = s) as Hfix.
  { intros s Hw Hu. unfold sanitizeForMethodName.
    rewrite collapse_runs_fixed by done. by apply trim_underscores_fixed. }
  split.
  - intros s. split.
    + intros E. rewrite <- E.
      split; [apply sanitize_word_only|apply sanitize_trimmed].
    + intros [Hw Hu]. by apply Hfix.
  - intros s. apply Hfix; [apply sanitize_word_only|apply sanitize_trimmed].
Qed.

(** X2: the sanitizer returns the empty string exactly on the inputs
    that hold no letter and no digit. *)
Theorem sanitizeForMethodName_empty (s : string) :
  sanitizeForMethodName s = EmptyString <-> no_alnum s = true.
Proof.
  unfold sanitizeForMethodName, trim_underscores.
  rewrite drop_trailing_empty, drop_leading_underscores_all.
  by rewrite collapse_runs_underscores.
Qed.

(** ** The resolver *)

(** X3: the pointer that spells a path of keys, with [~] and [/] inside
    a key written [~0] and [~1], resolves to the node that the document
    holds at that path ([null] when that node is [undefined]).  Keys
    are free of [%], which a pointer spells as an escape. *)
Theorem resolveReference_pointer_to (doc : value) (ks : list string)
    (v : value) :
  ks <> [] -> forallb no_percent ks = true ->
  lookup_path doc ks = Some v ->
  resolveReference doc (VStr (pointer_to ks)) =
  Ok (match v with
      | VUndef => VNull
      | _ => v
      end).
Proof.
  intros Hne Hks Hv. rewrite resolveReference_value.
  change (Str.startsWith "#/" (pointer_to ks)) with true. cbn iota.
  rewrite decoded_path_pointer_to by done. rewrite Hv. by destruct v.
Qed.

(** ** The mapper *)

(** X4: a parameter that is not required maps to an optional schema,
    whatever its own schema is: a missing one, a reference that
    resolves, one that does not, a circular one. *)
Theorem optional_parameter_is_optional (fuel : nat) (param spec : value)
    (v : gset string) (z : ZodType) :
  isParameterObject param = true ->
  JS.truthy (JS.get "required" param) = false ->
  mapOpenApiTypeToZod fuel param spec v = Some (Ok z) ->
  exists inner, z = Zod.optional inner.
Proof.
  intros Hp Hr H. destruct fuel as [|fuel]; [done|].
  assert (isOptionalOf param = true) as Ho.
  { unfold isOptionalOf. by rewrite Hp, Hr. }
  apply mapper_Ok_inv in H
    as (_ & [(_ & _ & ->)|[(_ & _ & H)|(_ & _ & zt & _ & ->)]]);
    rewrite ?Ho in *.
  - by eexists.
  - apply map_reference_Ok_inv in H as (z0 & -> & _). by eexists.
  - unfold finish. by eexists.
Qed.

(** X5: the description of a parameter goes before the description of
    the parameter's schema and of what that schema refers to.  The
    schema the mapper returns for a parameter with a description is,
    made optional when the parameter is not required: a schema with the
    parameter's description when the parameter's schema is no
    reference, and when it is a reference that resolves to a schema;
    the circular-reference sentinel when the pointer of the reference
    is in the visited set; the unresolved-reference sentinel when it is
    not and the pointer resolves to nothing. *)
Theorem parameter_description_precedence (fuel : nat) (param spec : value)
    (v : gset string) (z : ZodType) :
  isParameterObject param = true ->
  JS.truthy (JS.get "description" param) = true ->
  mapOpenApiTypeToZod fuel param spec v = Some (Ok z) ->
  let schema := JS.get "schema" param in
  exists z0,
    z = optional_if (isOptionalOf param) z0 /\
    (isReferenceObject schema = false ->
     Zod.description z0 = JS.get "description" param) /\
    (forall r,
       isReferenceObject schema = true -> JS.get "$ref" schema = VStr r ->
       (r ∈ v -> z0 = ZodAny (VStr ("Circular reference: " +:+ r))) /\
       (r ∉ v -> plain_pointer r = true ->
        exists resolved,
          resolveReference spec (VStr r) = Ok resolved /\
          if JS.truthy resolved
          then Zod.description z0 = JS.get "description" param
          else z0 = ZodAny (VStr ("Unresolved reference: " +:+ r)))).
Proof.
  intros Hp Hd H schema. destruct fuel as [|fuel]; [done|].
  assert (descriptionFromParamOf param = JS.get "description" param) as Ed.
  { unfold descriptionFromParamOf. by rewrite Hp. }
  assert (target_of param = schema) as Et.
  { unfold target_of. by rewrite Hp. }
  apply mapper_Ok_inv in H
    as (_ & [(_ & Hs & ->)|[(_ & Href & H)|(_ & Hnref & zt & _ & ->)]]).
  - eexists. split; [reflexivity|]. split.
    + intros _. unfold anyTypeOf. by rewrite js_or_truthy.
    + intros r Hr. unfold isReferenceObject in Hr. fold schema in Hs.
      by rewrite Hs in Hr.
  - rewrite Et in Href, H. rewrite Ed in H.
    destruct (JS.get "$ref" schema) as [| | | |r| |] eqn:Er.
    1-4,6-7:
      apply map_reference_Ok_inv in H as (z0 & -> & _);
      exists z0; split; [done|]; split; [congruence|done].
    destruct (decide (r ∈ v)) as [Hin|Hin].
    + rewrite (map_reference_visited _ _ _ _ _ _ _ Er Hin) in H.
      injection H as <-. eexists. split; [reflexivity|].
      split; [congruence|]. intros r' _ [= <-]. by split.
    + rewrite (map_reference_fresh _ _ _ _ _ _ _ Er Hin) in H.
      destruct (resolveReference spec (VStr r)) as [resolved|e] eqn:Eres;
        [|done].
      destruct (JS.truthy resolved) eqn:Htr.
      * apply fbind_Ok in H as (rt & _ & H). injection H as <-.
        eexists. split; [reflexivity|]. split; [congruence|].
        intros r' _ [= <-]. split; [done|]. intros _ _.
        exists resolved. split; [done|]. rewrite Htr.
        rewrite js_or_truthy by done. by apply description_describe_if.
      * injection H as <-. eexists. split; [reflexivity|].
        split; [congruence|].
        intros r' _ [= <-]. split; [done|]. intros _ _.
        exists resolved. split; [done|]. by rewrite Htr.
  - rewrite Et in Hnref. unfold finish. eexists. split; [reflexivity|].
    split; [|congruence]. intros _.
    rewrite Ed, js_or_truthy by done. by apply description_describe_if.
Qed.

(** X6: a schema marked [nullable], or whose [type] is a list of types
    that holds ['null'], maps to a schema that admits [null]: the null
    schema, or a union with the null schema among its options; for a
    parameter that is not required, the optional of such a schema. *)
Theorem nullable_schema_admits_null (fuel : nat) (x spec : value)
    (v : gset string) (z : ZodType) :
  isReferenceObject (target_of x) = false ->
  (JS.truthy (JS.get "nullable" (target_of x)) = true \/
   exists types,
     JS.get "type" (target_of x) = VArr types /\
     existsb (fun t => JS.strict_eq_str t "null") types = true) ->
  mapOpenApiTypeToZod fuel x spec v = Some (Ok z) ->
  exists z0,
    isAlreadyNullable z0 = true /\ z = optional_if (isOptionalOf x) z0.
Proof.
  intros Href Hn H. destruct fuel as [|fuel]; [done|].
  apply mapper_Ok_inv in H
    as (_ & [(Hp & Hs & _)|[(_ & Href' & _)|(_ & _ & zt & Hsw & ->)]]).
  - exfalso. unfold target_of in Hn. rewrite Hp in Hn.
    destruct Hn as [Hn|(types & Hn & _)];
      rewrite (get_falsy _ _ Hs) in Hn; done.
  - congruence.
  - unfold finish. eexists. split; [|reflexivity].
    rewrite nullable_describe_if. apply nullable_step.
    destruct Hn as [Hn|(types & Ht & Hnull)]; [by left|right].
    unfold map_switch in Hsw. rewrite Ht in Hsw. cbn in Hsw.
    unfold map_type_array in Hsw.
    apply fbind_Ok in Hsw as (zts & _ & Hsw). injection Hsw as <-.
    by apply combine_types_nullable.
Qed.

(** X7: a string schema makes the mapper throw in four cases and no
    other: its [enum] is there and is not an array; its [enum] is a
    non-empty array of strings and the schema also has a format the
    mapper knows, a length bound or a pattern (the enumeration schema
    has none of the string schema's methods); its pattern does not
    convert to a string (an object with a member named [toString], or
    an array that holds one); its pattern converts to a string that is
    not a regular expression. *)
Theorem string_schema_throws (fuel : nat) (x spec : value)
    (v : gset string) :
  JS.is_object x = true ->
  isParameterObject x = false ->
  isReferenceObject x = false ->
  JS.get "type" x = VStr "string" ->
  ((exists e, mapOpenApiTypeToZod (S fuel) x spec v = Some (Throw e)) <->
   JS.truthy (JS.get "enum" x) && negb (JS.is_array (JS.get "enum" x)) = true \/
   is_string_enum x && has_string_constraint x = true \/
   negb (is_undefined (JS.get "pattern" x))
     && negb (JS.stringable (JS.get "pattern" x)) = true \/
   negb (is_undefined (JS.get "pattern" x))
     && JS.stringable (JS.get "pattern" x)
     && negb (regexp_ok (JS.to_string (JS.get "pattern" x))) = true).
Proof.
  intros Ho Hp Hr Ht. rewrite <- map_string_throws.
  cbn [mapOpenApiTypeToZod]. unfold mapOpenApiTypeToZod_body.
  rewrite Ho, Hp, Hr. cbn [negb andb]. unfold map_switch. rewrite Ht.
  cbn [JS.strict_eq_str String.eqb Ascii.eqb Bool.eqb andb].
  destruct (map_string x) as [z|e]; cbn.
  - split; intros [e H]; done.
  - split; intros _; by exists e.
Qed.

(** ** The security scan *)

(** X8: the scan of a requirement list goes through the scheme names of
    its requirements in order and stops at the first that names an
    OpenID Connect scheme: it classifies the list as requiring OpenID
    Connect with URL [url] exactly when that first scheme has this URL,
    and as requiring none, with no URL, exactly when no name of the
    list is such a scheme. *)
Theorem security_scan_first_match (spec : value) (requirements : list value)
    (url : value) :
  (scanSecurity spec (VArr requirements) = Ok (true, url) <->
   first_openid spec (scheme_names requirements) url) /\
  (scanSecurity spec (VArr requirements) = Ok (false, url) <->
   url = VUndef /\
   Forall (fun n => scheme_url spec n = Ok None) (scheme_names requirements)).
Proof.
  unfold scanSecurity. cbn [iterate rbind].
  rewrite scan_requirements_flat.
  rewrite <- scan_schemes_found, <- scan_schemes_none.
  destruct (scan_schemes spec (scheme_names requirements)) as [[u|]|e];
    cbn [rbind classified].
  - split; split; try done.
    + by intros [= ->].
    + by intros [= ->].
    + by intros [_ ?].
  - split; split; try done.
    + by intros [= <-].
    + by intros [-> _].
  - split; split; try done. by intros [_ ?].
Qed.

(** ** The generator *)

(** X9: every tool of the generator comes from an operation of a spec
    of the input: the spec text of its product and spec path parses to
    a document that has the tool's path among its paths, and under that
    path a member that is not empty, whose key is the tool's HTTP method
    and one of the methods of OpenAPI; the tool's server is the URL of
    the document's first server. *)
Theorem generated_tool_provenance (fuel : nat)
    (specData : list (value * list (value * value)))
    (generated : list Tool) (t : Tool) :
  generateOpenApiTools fuel specData = Some generated -> In t generated ->
  exists specMap specContent spec path verb,
    In (productName t, specMap) specData /\
    In (specPath t, specContent) specMap /\
    yaml_load specContent = Ok spec /\
    In path (JS.keys (JS.get "paths" spec)) /\
    In verb HttpMethods /\
    JS.truthy (JS.get verb (JS.get path (JS.get "paths" spec))) = true /\
    apiPath (executionDetails t) = VStr path /\
    httpMethod (executionDetails t) = VStr verb /\
    targetServer (executionDetails t)
      = get_opt "url" (get_opt "0" (JS.get "servers" spec)).
Proof.
  intros Hg Ht.
  destruct (generateOpenApiTools_In _ _ _ _ Hg Ht)
    as (product & specMap & sp & specContent & spec & global & path & verb
        & Hp & Hs & Hy & _ & Hpath & _ & Hop).
  apply operationTool_details in Hop
    as (Hv & Ho & <- & <- & _ & Hserver & Hm & Ha & _).
  exists specMap, specContent, spec, path, verb. by repeat split.
Qed.

(** X10: a tool of the generator is never a direct-return tool, and one
    compiled from a document without a server URL cannot be executed:
    the executor throws before it asks for authentication headers or
    sends a request. *)
Theorem generated_tool_needs_server (fuel : nat)
    (specData : list (value * list (value * value)))
    (generated : list Tool) (t : Tool) :
  generateOpenApiTools fuel specData = Some generated -> In t generated ->
  JS.truthy (isDirectReturnValue (executionDetails t)) = false /\
  forall input st,
    in_executionDetails input = executionDetails t ->
    JS.truthy (targetServer (executionDetails t)) = false ->
    executeOpenApiTool input st =
    (Throw (JsError ("Target server URL is missing for tool '"
                     +:+ in_method input +:+ "'.")), st).
Proof.
  intros Hg Ht.
  destruct (generateOpenApiTools_In _ _ _ _ Hg Ht)
    as (product & specMap & sp & specContent & spec & global & path & verb
        & _ & _ & _ & _ & _ & _ & Hop).
  apply operationTool_details in Hop as (_ & _ & _ & _ & Hd & _).
  split; [by rewrite Hd|].
  intros input st E Hs. apply executeOpenApiTool_draft_fails.
  - by rewrite E, Hd.
  - unfold draftRequest. by rewrite E, Hs.
Qed.


(** X13: no tool of the generator takes the method name or the category
    of one of the client's fixed tools. *)
Theorem generated_names_apart (fuel : nat)
    (specData : list (value * list (value * value)))
    (generated : list Tool) (t : Tool) (c : ClientTool) :
  generateOpenApiTools fuel specData = Some generated -> In t generated ->
  In c tools ->
  method t <> ct_method c /\ category t <> ct_category c.
Proof.
  intros Hg Ht Hc.
  destruct (generateOpenApiTools_In _ _ _ _ Hg Ht)
    as (product & specMap & sp & specContent & spec & global & path & verb
        & _ & _ & _ & _ & _ & _ & Hop).
  apply operationTool_inv in Hop as (base & ? & _ & _ & -> & -> & _).
  unfold tools in Hc. cbn in Hc.
  destruct Hc as [<-|[<-|[<-|[<-|[]]]]]; by split.
Qed.

(** ** The executor *)

(** X14: a direct-return descriptor is answered with its stored value
    and nothing else happens: no header is asked for, no request is
    sent.  Any other invocation whose request can be drafted asks for
    the authentication headers and then hands axios one request, once;
    when the headers cannot be had, it throws what that call threw and
    sends nothing. *)
Theorem executor_requests (input : ExecutorInput) (st : State) :
  (JS.truthy (isDirectReturnValue (in_executionDetails input)) = true ->
   executeOpenApiTool input st =
   (Ok {| text := directReturnValue (in_executionDetails input);
          isError := false |}, st)) /\
  (JS.truthy (isDirectReturnValue (in_executionDetails input)) = false ->
   forall d,
     draftRequest input = Ok d ->
     (forall authHeaders st1,
        getAuthenticationHeaders input st = (Ok authHeaders, st1) ->
        exists r st2,
          executeOpenApiTool input st = (r, st2) /\
          this st2 = this st1 /\
          sent (world st2) =
            (sent (world st1) ++ [executorRequest input d authHeaders])%list) /\
     (forall e st1,
        getAuthenticationHeaders input st = (Throw e, st1) ->
        executeOpenApiTool input st = (Throw e, st1))).
Proof.
  split.
  - intros H. unfold executeOpenApiTool. by rewrite H.
  - intros Hd d Hr. split.
    + intros authHeaders st1 Ha.
      rewrite (executeOpenApiTool_request _ _ _ _ _ Hd Hr Ha).
      unfold axios.
      destruct (script (world st1)) as [|[elapsed reply] rest];
        [by eexists _, _|].
      destruct reply as [status hs body|m|m]; [|by eexists _, _..].
      destruct (validateStatus status); by eexists _, _.
    + intros e st1 Ha. unfold executeOpenApiTool. rewrite Hd.
      unfold bind, lift. by rewrite Hr, Ha.
Qed.

(** X15: in the request the executor sends, a header given by the
    authentication headers has the value they give it, whatever the
    parameters and the defaults say; every other header is as the
    draft has it.  Header names are own names of the headers object. *)
Theorem authentication_headers_win (input : ExecutorInput) (d : Draft)
    (authHeaders : list (string * value)) (k : string) :
  List.NoDup (map fst authHeaders) -> is_own_name k = true ->
  JS.assoc k (c_headers (executorRequest input d (VObj authHeaders))) =
  match JS.assoc k authHeaders with
  | Some x => Some x
  | None => JS.assoc k (d_headers d)
  end.
Proof.
  intros H _. unfold executorRequest. cbn [c_headers]. by apply assoc_assign.
Qed.

(** X16: the query string of a drafted request holds exactly the
    arguments that a declared query parameter names, each with the
    value the caller gave; its headers are the two defaults, replaced
    or joined by the arguments that a declared header parameter names,
    as strings.  Arguments that no declared parameter names are left
    out, and so are declared parameters without an argument.  The
    arguments are the own members of a plain object. *)
Theorem request_carries_declared_arguments (input : ExecutorInput)
    (d : Draft) (k : string) :
  draftRequest input = Ok d ->
  (exists arguments, in_parameters input = VObj arguments) ->
  is_own_name k = true ->
  JS.assoc k (d_queryParams d) =
    (if existsb (sends_query (in_parameters input) k)
          (declared_parameters input)
     then Some (JS.get k (in_parameters input)) else None) /\
  JS.assoc k (d_headers d) =
    (if existsb (sends_header (in_parameters input) k)
          (declared_parameters input)
     then Some (VStr (JS.to_string (JS.get k (in_parameters input))))
     else JS.assoc k defaultHeaders).
Proof.
  intros H _ _. apply draftRequest_Ok in H. split.
  - by rewrite (place_parameters_query _ k _ _ _ H).
  - by rewrite (place_parameters_header _ k _ _ _ H).
Qed.

(** X17: arguments reach the URL percent-encoded, so they never add a
    character that percent-encoding escapes, such as [/], [?], [#] or
    [&]: the drafted URL has no more of any such character than the
    server URL followed by the path template. *)
Theorem arguments_add_no_reserved_character (input : ExecutorInput)
    (d : Draft) (c : ascii) :
  draftRequest input = Ok d ->
  is_reserved c = true ->
  (count_char c (d_url d)
   <= count_char c
        (JS.to_string (targetServer (in_executionDetails input))
         +:+ JS.to_string (apiPath (in_executionDetails input))))%nat.
Proof.
  intros H Hc. apply draftRequest_Ok in H.
  exact (place_parameters_url _ _ _ Hc _ _ H).
Qed.

(** ** The client: tokens and requests *)

(** X18: one call of [makeRequest] hands axios one request when the
    stored token is fresh and converts to a string, and none when it is
    fresh and does not convert, which is reported as a request that
    could not be set up; when the stored token is not fresh it hands
    axios a token request and then the request, and the token request
    alone when the call throws before the request: when the exchange
    fails or the new token does not convert.  It never sends a request
    twice, not even after a 401. *)
Theorem makeRequest_sends_at_most_two (endpoint method : string)
    (data : value) (st : State) (r : result value) (st' : State) :
  makeRequest endpoint method data st = (r, st') ->
  (token_is_fresh (this st) (now (world st)) = true /\
   JS.stringable (accessToken (this st)) = true /\
   sent (world st') =
     (sent (world st)
        ++ [apiRequest (this st) (accessToken (this st)) endpoint method data])%list)
  \/
  (token_is_fresh (this st) (now (world st)) = true /\
   JS.stringable (accessToken (this st)) = false /\
   r = Throw (JsError ("Request Setup Error: "
                       +:+ "Cannot convert object to primitive value"
                       +:+ ". Check request parameters.")) /\
   st' = st)
  \/
  (token_is_fresh (this st) (now (world st)) = false /\
   (exists e, r = Throw e) /\
   sent (world st') = (sent (world st) ++ [tokenRequest (this st)])%list)
  \/
  (token_is_fresh (this st) (now (world st)) = false /\
   exists token,
     JS.truthy token = true /\ JS.stringable token = true /\
     sent (world st') =
       (sent (world st)
          ++ [tokenRequest (this st);
              apiRequest (this st) token endpoint method data])%list).
Proof.
  intros H.
  destruct (getValidAccessToken st) as [[token|e] st1] eqn:E.
  - destruct (JS.stringable token) eqn:Hk.
    + rewrite (makeRequest_with_token _ _ _ _ _ _ E Hk) in H.
      assert (sent (world st') =
              (sent (world st1)
                 ++ [apiRequest (this st1) token endpoint method data])%list)
        as Hsent.
      { destruct (axios _ st1) as [[resp|error] st2] eqn:Ea;
          apply axios_sent in Ea as [_ Ea].
        - by injection H as <- <-.
        - destruct (response error) as [[status errorData]|].
          + cbn zeta in H.
            destruct (JS.truthy (detailsOf errorData)
                      && negb (JS.stringable (detailsOf errorData)));
              [by injection H as <- <-|].
            destruct (status =? 401); by injection H as <- <-.
          + destruct (request error); by injection H as <- <-. }
      destruct (token_is_fresh (this st) (now (world st))) eqn:Hf.
      * left. split; [done|].
        rewrite (getValidAccessToken_reuse _ Hf) in E.
        injection E as <- <-. by split.
      * right; right; right. split; [done|]. exists token.
        destruct (getValidAccessToken_exchange _ Hf)
          as (r1 & st1' & E1 & Hs1 & Hr1).
        rewrite E in E1. injection E1 as <- <-. destruct Hr1 as [_ Ht].
        split; [done|]. split; [done|].
        rewrite Hsent, Hs1, <- app_assoc. cbn [app].
        apply getValidAccessToken_frame in E as (Hb & _).
        by rewrite (apiRequest_baseUrl _ _ _ _ _ _ Hb).
    + rewrite (makeRequest_unprintable_token _ _ _ _ _ _ E Hk) in H.
      injection H as <- <-.
      destruct (token_is_fresh (this st) (now (world st))) eqn:Hf.
      * right; left. split; [done|].
        rewrite (getValidAccessToken_reuse _ Hf) in E.
        injection E as <- <-. by repeat split.
      * right; right; left. split; [done|]. split; [eauto|].
        destruct (getValidAccessToken_exchange _ Hf)
          as (r1 & st1' & E1 & Hs1 & _).
        rewrite E in E1. by injection E1 as <- <-.
  - rewrite (makeRequest_without_token _ _ _ _ _ _ E) in H.
    injection H as <- <-.
    pose proof (getValidAccessToken_throws_stale _ _ _ E) as Hf.
    right; right; left. split; [done|]. split; [eauto|].
    destruct (getValidAccessToken_exchange _ Hf) as (r1 & st1' & E1 & Hs1 & _).
    rewrite E in E1. by injection E1 as <- <-.
Qed.

(** X19: whatever goes wrong, [makeRequest] never throws the error of
    axios.  It throws a plain error whose message is one of three: the
    API's status and details, no response, or a request that could not
    be set up; except when the API answers with an error status and
    the details of its reply do not convert to a string: then what it
    throws is the TypeError of that conversion. *)
Theorem makeRequest_error_messages (endpoint method : string)
    (data : value) (st : State) (e : exn) (st' : State) :
  makeRequest endpoint method data st = (Throw e, st') ->
  exists msg,
    e = JsError msg /\
    (is_request_error msg \/
     (msg = "Cannot convert object to primitive value" /\
      exists token st1 elapsed status hs body rest,
        getValidAccessToken st = (Ok token, st1) /\
        script (world st1) = (elapsed, Response status hs body) :: rest /\
        validateStatus status = false /\
        JS.truthy (detailsOf body) = true /\
        JS.stringable (detailsOf body) = false)).
Proof.
  intros H. unfold is_request_error.
  destruct (getValidAccessToken st) as [[token|e1] st1] eqn:E.
  - destruct (JS.stringable token) eqn:Hk.
    + rewrite (makeRequest_with_token _ _ _ _ _ _ E Hk) in H.
      unfold axios in H.
      destruct (script (world st1)) as [|[elapsed reply] rest] eqn:Es.
      { cbn in H. injection H as <- <-. eexists. split; [reflexivity|].
        left. first [by left|right; by left|right; by right]. }
      destruct reply as [status hs body|m|m].
      * destruct (validateStatus status) eqn:Hv; [done|]. cbn in H.
        destruct (JS.truthy (detailsOf body)) eqn:Hd;
          [destruct (JS.stringable (detailsOf body)) eqn:Hc|];
          cbn [negb andb] in H.
        -- destruct (status =? 401); injection H as <- <-; eexists;
             (split; [reflexivity|]); left; by left.
        -- injection H as <- <-. eexists. split; [reflexivity|]. right.
           split; [done|].
           by exists token, st1, elapsed, status, hs, body, rest.
        -- destruct (status =? 401); injection H as <- <-; eexists;
             (split; [reflexivity|]); left; by left.
      * cbn in H. injection H as <- <-. eexists. split; [reflexivity|].
        left. right; by left.
      * cbn in H. injection H as <- <-. eexists. split; [reflexivity|].
        left. right; by right.
    + rewrite (makeRequest_unprintable_token _ _ _ _ _ _ E Hk) in H.
      injection H as <- <-. eexists. split; [reflexivity|].
      left. right; by right.
  - rewrite (makeRequest_without_token _ _ _ _ _ _ E) in H.
    injection H as <- <-. eexists. split; [reflexivity|].
    left. right; by right.
Qed.

(** X20: when the token cannot be had, [makeRequest] sends no request of
    its own and reports the failure as a request that could not be set
    up, with the token manager's message inside; the client is left
    without a token. *)
Theorem token_failure_is_a_setup_error (endpoint method : string)
    (data : value) (st : State) (e : exn) (st1 : State) :
  getValidAccessToken st = (Throw e, st1) ->
  makeRequest endpoint method data st =
    (Throw (JsError ("Request Setup Error: " +:+ message e
                     +:+ ". Check request parameters.")), st1) /\
  sent (world st1) = (sent (world st) ++ [tokenRequest (this st)])%list /\
  accessToken (this st1) = VNull /\ tokenExpiry (this st1) = None.
Proof.
  intros E. split; [by apply makeRequest_without_token|].
  pose proof (getValidAccessToken_throws_stale _ _ _ E) as Hf.
  destruct (getValidAccessToken_exchange _ Hf) as (r1 & st1' & E1 & Hs1 & Hr1).
  rewrite E in E1. injection E1 as <- <-. by destruct Hr1.
Qed.

(** X21: once the token is there, only a 401 makes [makeRequest] change
    the client: on success, on any other status, on no response and on
    a request that could not be set up, the token and its expiry stay
    as the token manager left them. *)
Theorem only_unauthorized_invalidates (endpoint method : string)
    (data : value) (st : State) (token : value) (st1 : State)
    (r : result value) (st2 : State) :
  getValidAccessToken st = (Ok token, st1) ->
  makeRequest endpoint method data st = (r, st2) ->
  (forall elapsed hs body rest,
     script (world st1) <> (elapsed, Response 401 hs body) :: rest) ->
  this st2 = this st1.
Proof.
  intros E H Hs.
  destruct (JS.stringable token) eqn:Hk;
    [|rewrite (makeRequest_unprintable_token _ _ _ _ _ _ E Hk) in H;
      by injection H as <- <-].
  rewrite (makeRequest_with_token _ _ _ _ _ _ E Hk) in H.
  unfold axios in H.
  destruct (script (world st1)) as [|[elapsed reply] rest] eqn:Es;
    [by injection H as <- <-|].
  destruct reply as [status hs body|m|m]; [|by injection H as <- <-..].
  destruct (validateStatus status); [by injection H as <- <-|].
  cbn in H.
  destruct (JS.truthy (detailsOf body) && negb (JS.stringable (detailsOf body)));
    [by injection H as <- <-|].
  destruct (status =? 401) eqn:E401.
  - apply Z.eqb_eq in E401 as ->. by destruct (Hs elapsed hs body rest).
  - by injection H as <- <-.
Qed.

(** X22: a failed exchange throws an error that tells how it failed,
    and leaves the client without token and expiry: a status outside
    200..299 gives the status and the details of the reply when they
    convert to a string, and the TypeError of the conversion when they
    do not; no response and a request that could not be set up give
    their own messages; a reply without [access_token] is reported as
    an invalid token response. *)
Theorem token_failure_messages (st : State) :
  token_is_fresh (this st) (now (world st)) = false ->
  (forall elapsed status hs data rest,
     script (world st) = (elapsed, Response status hs data) :: rest ->
     validateStatus status = false ->
     getValidAccessToken st =
     (Throw (JsError
        (if JS.stringable (errorDetailsOf data)
         then "Token Error (Status " +:+ pretty status +:+ "): "
              +:+ JS.to_string (errorDetailsOf data)
         else "Cannot convert object to primitive value")),
      {| this := wiped (this st);
         world := deliver (tokenRequest (this st)) elapsed rest (world st) |})) /\
  (forall elapsed m rest,
     script (world st) = (elapsed, NoResponse m) :: rest ->
     getValidAccessToken st =
     (Throw (JsError
        "Network Error: No response received from MCP /token endpoint."),
      {| this := wiped (this st);
         world := deliver (tokenRequest (this st)) elapsed rest (world st) |})) /\
  (forall elapsed m rest,
     script (world st) = (elapsed, SetupFailure m) :: rest ->
     getValidAccessToken st =
     (Throw (JsError ("Token Request Error: " +:+ m)),
      {| this := wiped (this st);
         world := deliver (tokenRequest (this st)) elapsed rest (world st) |})) /\
  (forall elapsed status hs data rest,
     script (world st) = (elapsed, Response status hs data) :: rest ->
     validateStatus status = true ->
     JS.truthy data = true ->
     JS.truthy (JS.get "access_token" data) = false ->
     getValidAccessToken st =
     (Throw (JsError
        "Token Request Error: Received invalid token response from /token endpoint."),
      {| this := wiped (this st);
         world := deliver (tokenRequest (this st)) elapsed rest (world st) |})).
Proof.
  intros Hf. unfold getValidAccessToken. run_monad. rewrite Hf.
  unfold axios. cbn [this world]. repeat split.
  - intros elapsed status hs data rest -> Hv. rewrite Hv. cbn.
    unfold ToString. by destruct (JS.stringable (errorDetailsOf data)).
  - by intros elapsed m rest ->.
  - by intros elapsed m rest ->.
  - intros elapsed status hs data rest -> Hv Hd Ht. rewrite Hv. cbn [snd].
    unfold get_strict. destruct data; try discriminate Hd; cbn [lift];
      by rewrite Ht.
Qed.

(** X23: a successful exchange whose reply gives a lifetime of [n]
    seconds stores as expiry the clock after the reply plus [n]
    thousand; the token is then reused exactly while the clock is more
    than 30 seconds short of that expiry.  So a token that lives 30
    seconds or less is never reused: every later call exchanges
    again. *)
Theorem token_lifetime_window (st : State) (elapsed status : Z)
    (hs : list (string * string)) (data : value) (rest : list (Z * Reply))
    (n : Z) :
  token_is_fresh (this st) (now (world st)) = false ->
  script (world st) = (elapsed, Response status hs data) :: rest ->
  validateStatus status = true ->
  JS.truthy data = true ->
  JS.truthy (JS.get "access_token" data) = true ->
  JS.get "expires_in" data = VNum n ->
  0 < n -> 0 <= now (world st) + elapsed ->
  let obtained := now (world st) + elapsed in
  exists st1,
    getValidAccessToken st = (Ok (JS.get "access_token" data), st1) /\
    tokenExpiry (this st1) = Some (obtained + n * 1000) /\
    (forall w,
       now w < obtained + n * 1000 - 30 * 1000 ->
       getValidAccessToken (advance w st1)
         = (Ok (JS.get "access_token" data), advance w st1)) /\
    (forall w,
       obtained + n * 1000 - 30 * 1000 <= now w ->
       exists r st2,
         getValidAccessToken (advance w st1) = (r, st2) /\
         sent (world st2) = (sent w ++ [tokenRequest (this st1)])%list) /\
    (n <= 30 ->
     forall w,
       obtained <= now w ->
       exists r st2,
         getValidAccessToken (advance w st1) = (r, st2) /\
         sent (world st2) = (sent w ++ [tokenRequest (this st1)])%list).
Proof.
  intros Hf Hs Hv Hd Ht He Hn H0 obtained.
  assert (JS.truthy (JS.get "expires_in" data) = true) as Hlife.
  { rewrite He. cbn. apply negb_true_iff. lia. }
  assert (JS.stringable (JS.get "expires_in" data) = true) as Hconv
    by (by rewrite He).
  rewrite (getValidAccessToken_store _ _ _ _ _ _ Hf Hs Hv Hd Ht Hlife Hconv).
  eexists. split; [reflexivity|].
  rewrite He. unfold expiry_of. cbn [JS.truthy to_number].
  assert (negb (n =? 0) = true) as -> by (apply negb_true_iff; lia).
  cbn [this tokenExpiry set_expiry]. fold obtained.
  split; [done|].
  assert (forall w,
            obtained + n * 1000 - 30 * 1000 <= now w ->
            exists r st2,
              getValidAccessToken
                (advance w
                   {| this := set_expiry (Some (obtained + n * 1000))
                                (set_token (JS.get "access_token" data) (this st));
                      world := deliver (tokenRequest (this st)) elapsed rest
                                 (world st) |}) = (r, st2) /\
              sent (world st2) = (sent w ++ [tokenRequest (this st)])%list)
    as Hstale.
  { intros w Hw.
    destruct (getValidAccessToken_exchange
                (advance w
                   {| this := set_expiry (Some (obtained + n * 1000))
                                (set_token (JS.get "access_token" data) (this st));
                      world := deliver (tokenRequest (this st)) elapsed rest
                                 (world st) |}))
      as (r & st2 & E & Hsent & _).
    { unfold token_is_fresh. cbn. rewrite Ht. cbn.
      apply andb_false_iff. right. lia. }
    by exists r, st2. }
  split; [|split].
  - intros w Hw. apply getValidAccessToken_reuse.
    unfold token_is_fresh. cbn. rewrite Ht. cbn.
    apply andb_true_intro. split; [apply negb_true_iff|]; lia.
  - exact Hstale.
  - intros Hn30 w Hw. apply Hstale. lia.
Qed.

(** ** The client: spec content and its cache *)

(** X24: a listing for a product name that is empty, [null] or
    [undefined] is refused before anything is sent; and a cached read
    with an empty product name or spec path never reaches the network:
    no request is sent, no token is fetched or dropped. *)
Theorem empty_names_send_nothing (st : State) :
  (forall productName,
     JS.truthy productName = false ->
     listProductSpecs productName st =
     (Throw (JsError "productName is required for listProductSpecs"), st)) /\
  (forall productName specPath r st',
     productName = EmptyString \/ specPath = EmptyString ->
     getSpecContentWithCache productName specPath st = (r, st') ->
     world st' = world st /\
     accessToken (this st') = accessToken (this st) /\
     tokenExpiry (this st') = tokenExpiry (this st)).
Proof.
  split.
  - intros productName H. unfold listProductSpecs. by rewrite H.
  - intros productName specPath r st' He.
    destruct (getSpecContent_empty _ _ He) as [e Hg].
    destruct (getSpecContentWithCache_cases productName specPath st)
      as [[_ ->]|[(_ & entry & _ & ->)|[_ ->]]].
    + rewrite Hg. by intros [= <- <-].
    + by intros [= <- <-].
    + unfold fetch_and_store. rewrite Hg. by intros [= <- <-].
Qed.

(** X25: a cached read touches no entry of the cache but the one of its
    own key. *)
Theorem cache_read_keeps_other_entries (productName specPath : string)
    (st : State) (r : result value) (st' : State) (k : string) :
  getSpecContentWithCache productName specPath st = (r, st') ->
  k <> cacheKeyOf productName specPath ->
  specCache (this st') !! k = specCache (this st) !! k.
Proof.
  intros H Hk.
  destruct (getSpecContentWithCache_cases productName specPath st)
    as [[_ E]|[(_ & entry & _ & E)|[_ E]]]; rewrite E in H.
  - by apply getSpecContent_frame in H as (_ & _ & _ & _ & ->).
  - by injection H as <- <-.
  - unfold fetch_and_store in H.
    destruct (getSpecContent _ _ _) as [[c|e] st1] eqn:Eg;
      apply getSpecContent_frame in Eg as (_ & _ & _ & _ & Ec);
      injection H as <- <-; cbn.
    + rewrite lookup_insert_ne by done. rewrite Ec. cbn.
      by rewrite lookup_delete_ne.
    + rewrite Ec. cbn. by rewrite lookup_delete_ne.
Qed.

(** X26: with caching on, a cached read that throws because its fetch
    failed leaves no entry under its key: an entry that had expired is
    dropped before the fetch and is not put back.  The one other way
    such a read throws is at the line that logs the new expiry, after
    the fetch has succeeded and its result is stored: the expiry is
    then beyond what a [Date] holds, the error is RangeError, and the
    entry just stored stays. *)
Theorem failed_refresh_evicts (productName specPath : string)
    (st : State) (e : exn) (st' : State) :
  0 < cacheTTL (this st) ->
  getSpecContentWithCache productName specPath st = (Throw e, st') ->
  let cacheKey := cacheKeyOf productName specPath in
  let emptied := swap_cache (delete cacheKey (specCache (this st))) st in
  (getSpecContent productName specPath emptied = (Throw e, st') /\
   specCache (this st') !! cacheKey = None)
  \/
  (exists fetched st1,
     getSpecContent productName specPath emptied = (Ok fetched, st1) /\
     valid_time (now (world st1) + cacheTTL (this st)) = false /\
     e = JsError "Invalid time value" /\
     specCache (this st') !! cacheKey =
     Some {| content := fetched;
             expiry := now (world st1) + cacheTTL (this st) |}).
Proof.
  intros Ht H cacheKey emptied.
  destruct (getSpecContentWithCache_cases productName specPath st)
    as [[Ht' _]|[(_ & entry & _ & E)|[_ E]]]; [lia|by rewrite E in H|].
  rewrite E in H. unfold fetch_and_store in H.
  fold cacheKey in H. fold emptied in H.
  destruct (getSpecContent productName specPath emptied)
    as [[c|e1] st1] eqn:Eg.
  - right. exists c, st1. split; [done|].
    unfold toISOString in H.
    destruct (valid_time _) eqn:Hv; [done|].
    injection H as <- <-. cbn. by rewrite lookup_insert_eq.
  - left. injection H as <- <-. split; [done|].
    apply getSpecContent_frame in Eg as (_ & _ & _ & _ & Ec).
    rewrite Ec. cbn. apply lookup_delete_eq.
Qed.

(** X27: two reads share a cache entry only if they are for the same
    product and the same spec path, as long as product names hold no
    colon. *)
Theorem cacheKeyOf_injective (productName1 specPath1 productName2
    specPath2 : string) :
  no_colon productName1 = true -> no_colon productName2 = true ->
  cacheKeyOf productName1 specPath1 = cacheKeyOf productName2 specPath2 ->
  productName1 = productName2 /\ specPath1 = specPath2.
Proof. forget_host.
  unfold no_colon. revert productName2.
  induction productName1 as [|c p1 IH]; intros [|c2 p2] H1 H2.
  - rewrite !cacheKeyOf_empty. by intros [= <-].
  - rewrite cacheKeyOf_empty, cacheKeyOf_cons. intros [= <- _].
    by cbn in H2.
  - rewrite cacheKeyOf_empty, cacheKeyOf_cons. intros [= -> _].
    by cbn in H1.
  - rewrite !cacheKeyOf_cons. intros [= <- E].
    cbn in H1, H2. apply andb_prop in H1 as [_ H1], H2 as [_ H2].
    destruct (IH p2 H1 H2 E) as [<- <-]. done.
Qed.

(** ** The client: collecting the specs of all products *)

(** X28: the collector fails only with the product listing: when the
    listing throws it throws the same; when the listing returns
    anything but [null] or [undefined] and every product name in it
    converts to a string, it returns a map, whatever goes wrong for
    single products; when some product name does not convert, the line
    that prints it, which stands before the [try] of its round, throws
    TypeError and the collector with it.  A product whose spec listing
    throws gets an empty map. *)
Theorem collector_survives_product_failures (st : State) :
  (forall productList st1,
     listProducts st = (Ok productList, st1) ->
     productList <> VUndef -> productList <> VNull ->
     (forallb JS.stringable (productNamesOf productList) = true ->
      exists m st2, getAllProductSpecsContent st = (Ok m, st2)) /\
     (forallb JS.stringable (productNamesOf productList) = false ->
      exists st2,
        getAllProductSpecsContent st
          = (Throw (JsError "Cannot convert object to primitive value"),
             st2))) /\
  (forall e st1,
     listProducts st = (Throw e, st1) ->
     getAllProductSpecsContent st = (Throw e, st1)) /\
  (forall productName e st1,
     JS.stringable productName = true ->
     listProductSpecs productName st = (Throw e, st1) ->
     productSpecs productName st = (Ok [], st1)).
Proof.
  split; [|split].
  - intros productList st1 E Hu Hn.
    rewrite (getAllProductSpecsContent_listed _ _ _ E).
    split; intros Hs.
    + destruct (fetch_products_returns (productNamesOf productList) Hs [] st1)
        as (m & st2 & -> & _).
      destruct productList; try done; by exists m, st2.
    + destruct (fetch_products_throws (productNamesOf productList) Hs [] st1)
        as (st2 & ->).
      destruct productList; try done; by exists st2.
  - intros e st1 E. unfold getAllProductSpecsContent, bind. by rewrite E.
  - intros productName e st1 Hs E. by eapply productSpecs_listing_fails.
Qed.

(** X29: the map the collector returns has an entry for every product
    name of the listing and for nothing else, and no more entries than
    the listing has names. *)
Theorem collector_has_an_entry_per_product (st : State)
    (productList : value) (st1 : State)
    (m : list (value * list (string * value))) (st2 : State) :
  listProducts st = (Ok productList, st1) ->
  getAllProductSpecsContent st = (Ok m, st2) ->
  (forall k, In k (map fst m) <-> In k (productNamesOf productList)) /\
  (length m <= length (productNamesOf productList))%nat.
Proof. forget_host.
  intros E H. rewrite (getAllProductSpecsContent_listed _ _ _ E) in H.
  destruct (get_strict "Products" productList); [|done].
  destruct (forallb JS.stringable (productNamesOf productList)) eqn:Hs.
  2: { destruct (fetch_products_throws (productNamesOf productList) Hs [] st1)
         as (st2' & E').
       by rewrite E' in H. }
  destruct (fetch_products_returns (productNamesOf productList) Hs [] st1)
    as (m' & st2' & E' & _ & Hk & Hl).
  rewrite E' in H. injection H as <- <-. split.
  - intros k. rewrite Hk. cbn. tauto.
  - exact Hl.
Qed.

(** X30: the collector, and with it every request it makes, leaves the
    settings of the client as they were: base URL, credentials and
    cache TTL; so [getBaseUrl] answers the same before and after. *)
Theorem collector_keeps_configuration (st : State)
    (r : result (list (value * list (string * value)))) (st' : State) :
  getAllProductSpecsContent st = (r, st') ->
  same_configuration (this st') (this st) /\
  getBaseUrl st' = (Ok (baseUrl (this st)), st').
Proof.
  intros H.
  assert (same_configuration (this st') (this st)) as Hc.
  { destruct (listProducts st) as [[productList|e] st1] eqn:E.
    - rewrite (getAllProductSpecsContent_listed _ _ _ E) in H.
      apply listProducts_configuration in E.
      destruct (get_strict "Products" productList).
      + apply fetch_products_configuration in H.
        by eapply same_configuration_trans.
      + by injection H as <- <-.
    - unfold getAllProductSpecsContent, bind in H. rewrite E in H.
      injection H as <- <-. by apply listProducts_configuration in E. }
  split; [done|]. unfold getBaseUrl, bind, getThis, ret.
  by destruct Hc as (-> & _).
Qed.

End Program.

(** * The claims on the sample documents and clients *)

Module Run.

Abbreviation mapType := (mapOpenApiTypeToZod Sample.regexp_ok).
Abbreviation generate :=
  (generateOpenApiTools Sample.regexp_ok Sample.StringToNumber
     Sample.yaml_load Sample.HttpMethods Sample.toUpperCase).
Abbreviation getToken :=
  (getValidAccessToken Sample.StringToNumber Sample.JSON_stringify).
Abbreviation getCached :=
  (getSpecContentWithCache Sample.StringToNumber Sample.JSON_stringify).
Abbreviation request :=
  (makeRequest Sample.StringToNumber Sample.JSON_stringify).
Abbreviation execute := (executeOpenApiTool Sample.JSON_stringify).

End Run.
Import Run.

(** The schemas [A] and [B] refer to each other: mapping a reference to
    [A] ends, with the sentinel at the edge from [B] back to [A] and
    nowhere else. *)
Lemma cyclic_document_maps (fuel : nat) :
  (5 <= fuel)%nat ->
  mapType fuel (Sample.ref "#/components/schemas/A") Sample.cyclic ∅ =
  Some (Ok
    (ZodObject
       [("b",
         Zod.optional
           (ZodObject
              [("a",
                Zod.optional
                  (ZodAny (VStr "Circular reference: #/components/schemas/A")))]
              false VUndef))]
       false VUndef)).
Proof.
  intros H. eapply mapper_agrees; [exact H|]. by vm_compute.
Qed.

(** Two sibling properties refer to the same schema: neither is taken
    for a cycle. *)
Lemma shared_reference_maps :
  mapType 4 (Sample.ref "#/components/schemas/Pair") Sample.shared ∅ =
  Some (Ok
    (ZodObject
       [("x", Zod.optional Zod.string); ("y", Zod.optional Zod.string)]
       false VUndef)).
Proof. by vm_compute. Qed.

(** The end-to-end example: [GET /users/{id}] with [{id: '42'}] goes to
    [/users/42] and carries no [limit]. *)
Lemma get_user_request :
  draftRequest Sample.get_user =
  Ok {| d_url := "https://api.example/users/42";
        d_queryParams := [];
        d_headers := [("Content-Type", VStr "application/json");
                      ("Accept", VStr "application/json")] |}.
Proof. by vm_compute. Qed.

(** ** C1 *)

(** C1, as claimed, fails: after an exchange whose reply has no
    [expires_in], the next call exchanges again and returns the new
    token. *)
Lemma token_without_lifetime_is_exchanged_again :
  let st0 := Sample.cold Sample.api
               [(5, Sample.token_reply "t1"); (5, Sample.token_reply "t2")] in
  let (r1, st1) := getToken st0 in
  let (r2, st2) := getToken st1 in
  r1 = Ok (VStr "t1") /\ r2 = Ok (VStr "t2") /\
  length (sent (world st2)) = 2%nat /\
  tokenExpiry (this st1) = None.
Proof. by vm_compute. Qed.

Lemma token_reuse_and_refetch_witness :
  getToken (Sample.warm Sample.api [])
    = (Ok (VStr "t0"), Sample.warm Sample.api []) /\
  exists st1,
    getToken (Sample.cold Sample.api [(5, Sample.token_reply "t1")])
      = (Ok (VStr "t1"), st1) /\
    accessToken (this st1) = VStr "t1" /\
    tokenExpiry (this st1) = None /\
    forall w, exists r st2,
      getToken (advance w st1) = (r, st2) /\
      sent (world st2) = (sent w ++ [tokenRequest (this st1)])%list.
Proof.
  split.
  - apply (proj1 (token_reuse_and_refetch Sample.StringToNumber
                    Sample.JSON_stringify (Sample.warm Sample.api []))
             4000000); [reflexivity|reflexivity|by vm_compute|reflexivity].
  - apply (proj2 (token_reuse_and_refetch Sample.StringToNumber
                    Sample.JSON_stringify
                    (Sample.cold Sample.api [(5, Sample.token_reply "t1")]))
             5 200 [] (Sample.obj [("access_token", VStr "t1")]) []);
      reflexivity.
Defined.

(** ** C2 *)

(** C2, as claimed, fails for a negative TTL: the client caches for five
    minutes.  The first call stores what it fetched; the second, with the
    network silent, is answered from the cache. *)
Lemma negative_ttl_enables_cache :
  let a := constructor (Sample.options (-1)) Sample.env in
  let st0 := Sample.warm a [(5, Response 200 [] Sample.spec_text)] in
  let (r1, st1) := getCached "shop" "specs/a" st0 in
  let (r2, st2) := getCached "shop" "specs/a" st1 in
  cacheTTL a = 300000 /\
  r1 = Ok Sample.spec_text /\
  specCache (this st1) !! "shop::specs/a"
    = Some {| content := Sample.spec_text; expiry := 1005 + 300000 |} /\
  r2 = Ok Sample.spec_text /\ sent (world st2) = sent (world st1).
Proof. by vm_compute. Qed.

Lemma cache_disabled_at_zero_witness :
  let a := constructor (Sample.options 0) Sample.env in
  let st := Sample.warm a [(5, Response 200 [] Sample.spec_text)] in
  cacheTTL a = 0 /\
  cacheTTL (constructor (Sample.options (-1)) Sample.env) = 300000 /\
  getCached "shop" "specs/a" st
    = getSpecContent Sample.StringToNumber Sample.JSON_stringify
        "shop" "specs/a" st /\
  forall r st',
    getCached "shop" "specs/a" st = (r, st') ->
    specCache (this st') = specCache (this st) /\
    forall c, getCached "shop" "specs/a" (swap_cache c st) = (r, swap_cache c st').
Proof.
  pose proof (cache_disabled_at_zero Sample.StringToNumber
                Sample.JSON_stringify "shop" "specs/a") as [Hc Hs].
  split; [apply (proj1 (Hc (Sample.options 0) Sample.env)); reflexivity|].
  split; [apply (proj2 (Hc (Sample.options (-1)) Sample.env) (-1));
          reflexivity|].
  apply Hs. by vm_compute.
Defined.

(** ** C3 *)



(** ** C4 *)

(** The three operations of [users] under its document-level OpenID
    Connect requirement. *)
Lemma users_operations_classified :
  exists t1 t2 t3,
    generate 5 [(VStr "shop", [(VStr "specs/a", VStr "users.yaml")])]
      = Some [t1; t2; t3] /\
    openIdConnectUrl (executionDetails t1)
      = VStr "https://idp.example/.well-known/openid-configuration" /\
    openIdConnectUrl (executionDetails t2) = VUndef /\
    openIdConnectUrl (executionDetails t3) = VUndef.
Proof. eexists _, _, _. by vm_compute. Qed.

Lemma operation_security_classification_witness :
  exists t1 t2 t3,
    generate 5 [(VStr "shop", [(VStr "specs/a", VStr "users.yaml")])]
      = Some [t1; t2; t3] /\
    exists security : classification,
      openIdConnectUrl (executionDetails t1) = snd security /\
      exists shape,
        parameters t1 =
        ZodObject
          (if fst security
           then Zod.set_prop "X-User-Authorization" userAuthorizationParameter
                  shape
           else shape) false VUndef.
Proof.
  destruct users_operations_classified as (t1 & t2 & t3 & Hg & _).
  destruct (operation_security_classification Sample.regexp_ok
              Sample.StringToNumber Sample.yaml_load Sample.HttpMethods
              Sample.toUpperCase 5%nat _ _ t1 Hg (or_introl eq_refl))
    as (spec & path & verb & global & security & _ & _ & _ & _ & _ & _ & _
        & _ & _ & _ & Hurl & Hshape & _).
  exists t1, t2, t3. split; [exact Hg|].
  exists security. split; [exact Hurl|exact Hshape].
Defined.

(** ** C5 *)


(** ** C6 *)

(** Two calls within the five seconds and a third after them: one fetch,
    the same content, and then a second fetch. *)
Lemma cache_three_calls :
  let st0 := Sample.warm Sample.api
               [(5, Response 200 [] Sample.spec_text);
                (5, Response 200 [] Sample.spec_text)] in
  let (r1, st1) := getCached "shop" "specs/a" st0 in
  let (r2, st2) :=
    getCached "shop" "specs/a"
      (advance {| now := 6004; script := script (world st1);
                  sent := sent (world st1) |} st1) in
  let (r3, st3) :=
    getCached "shop" "specs/a"
      (advance {| now := 6005; script := script (world st2);
                  sent := sent (world st2) |} st2) in
  r1 = Ok Sample.spec_text /\ r2 = Ok Sample.spec_text /\
  r3 = Ok Sample.spec_text /\
  length (sent (world st1)) = 1%nat /\ length (sent (world st2)) = 1%nat /\
  length (sent (world st3)) = 2%nat.
Proof. by vm_compute. Qed.

(** With the largest TTL the constructor takes as it is, a read that
    fetches stores what it fetched and then throws at the line that logs
    the expiry. *)
Lemma spec_cache_hit_and_store_witness :
  let a := constructor (Sample.options 9007199254740991) Sample.env in
  let st0 := Sample.warm a [(5, Response 200 [] Sample.spec_text)] in
  cacheTTL a = 9007199254740991 /\
  exists st1,
    getCached "shop" "specs/a" st0
      = (Throw (JsError "Invalid time value"), st1) /\
    specCache (this st1) !! "shop::specs/a"
      = Some {| content := Sample.spec_text;
                expiry := 1005 + 9007199254740991 |}.
Proof.
  intros a st0.
  pose proof (spec_cache_hit_and_store Sample.StringToNumber
                Sample.JSON_stringify "shop" "specs/a" st0 ltac:(reflexivity))
    as (_ & Hmiss & _).
  destruct (Hmiss I) as [_ Hstore].
  split; [reflexivity|].
  edestruct Hstore as [_ Hthrow]; [by vm_compute|].
  eexists. split; [apply Hthrow; by vm_compute|]. by vm_compute.
Defined.

(** ** C7 *)

Lemma executor_error_classification_witness :
  (exists st2,
     execute Sample.get_user
         (Sample.warm Sample.api [(5, Response 404 [] Sample.not_found_body)])
       = (Ok {| text := Sample.JSON_stringify Sample.not_found_body;
                isError := true |}, st2)) /\
  (exists st2,
     execute Sample.get_user
         (Sample.warm Sample.api [(5, NoResponse "socket hang up")])
       = (Throw (AxiosError "socket hang up" None true), st2)).
Proof.
  split.
  - destruct (executor_error_classification Sample.JSON_stringify
                Sample.get_user
                (Sample.warm Sample.api
                   [(5, Response 404 [] Sample.not_found_body)])
                eq_refl) as [H _].
    destruct (H _ _ _ get_user_request eq_refl) as (H404 & _).
    apply (H404 5 404 [] Sample.not_found_body []); reflexivity.
  - destruct (executor_error_classification Sample.JSON_stringify
                Sample.get_user
                (Sample.warm Sample.api [(5, NoResponse "socket hang up")])
                eq_refl) as [H _].
    destruct (H _ _ _ get_user_request eq_refl) as (_ & Hnone & _).
    apply (Hnone 5 "socket hang up" []); reflexivity.
Defined.

(** ** C8 *)

(** A 401 whose details do not convert to a string: the conversion
    throws before the status is looked at, and the token stays. *)
Lemma unauthorized_invalidates_token_witness :
  let body := Sample.obj [("message", Sample.obj [("toString", VNum 1)])] in
  let st := Sample.warm Sample.api [(5, Response 401 [] body)] in
  exists st2,
    request "/products" "GET" VNull st
      = (Throw (JsError "Cannot convert object to primitive value"), st2) /\
    accessToken (this st2) = VStr "t0" /\
    tokenExpiry (this st2) = Some 4000000.
Proof.
  intros body st.
  destruct (unauthorized_invalidates_token Sample.StringToNumber
              Sample.JSON_stringify "/products" "GET" VNull st
              (VStr "t0") st 5 [] body [] eq_refl eq_refl eq_refl)
    as [_ H].
  eexists. split; [apply H; reflexivity|]. by split.
Defined.

(** ** C9 *)

(** C9, as claimed, fails on an operation identifier without a letter or
    a digit: the sanitized name is empty and the method name is [api_],
    which ends in an underscore. *)
Lemma method_name_of_unnamed_operation :
  exists t,
    generate 5 [(VStr "shop", [(VStr "specs/u", VStr "unnamed.yaml")])]
      = Some [t] /\
    sanitizeForMethodName "_" = "" /\
    method t = "api_" /\
    valid_identifier (sanitizeForMethodName "_") = false /\
    valid_identifier (method t) = false.
Proof. eexists. by vm_compute. Qed.

Lemma sanitized_method_names_witness :
  sanitizeForMethodName "get_/users/{id}" = "get__users_id" /\
  collapse_runs false "get_/users" = "get_" +:+ collapse_runs false "/users" /\
  collapse_runs false "/{id" = String "_" (collapse_runs false "id") /\
  trim_underscores "__get_user_" = "get_user" /\
  exists t1 t2 t3 source,
    generate 5 [(VStr "shop", [(VStr "specs/a", VStr "users.yaml")])]
      = Some [t1; t2; t3] /\
    method t2 = "api_" +:+ sanitizeForMethodName source /\
    valid_identifier (method t2) = true.
Proof.
  pose proof (sanitized_method_names Sample.regexp_ok Sample.StringToNumber
                Sample.yaml_load Sample.HttpMethods Sample.toUpperCase)
    as (_ & _ & Hword & Hrun & Htrim & Htools).
  split; [reflexivity|].
  split; [apply (Hword "get_" "/users"); reflexivity|].
  split; [apply (Hrun "/{" "id"); [reflexivity|discriminate|reflexivity]|].
  split; [apply (Htrim "__" "get_user" "_"); reflexivity|].
  destruct users_operations_classified as (t1 & t2 & t3 & Hg & _).
  destruct (Htools _ _ _ t2 Hg ltac:(right; left; reflexivity))
    as (spec & path & verb & source & _ & _ & _ & _ & _ & Hm & _ & _ & Hv).
  exists t1, t2, t3, source. split; [exact Hg|]. split; [exact Hm|].
  clear Hm Hv. vm_compute in Hg. injection Hg as _ <- _. reflexivity.
Defined.

(** ** C10 *)

Lemma tool_names_prefixed_witness :
  exists t1 t2 t3,
    generate 5 [(VStr "shop", [(VStr "specs/a", VStr "users.yaml")])]
      = Some [t1; t2; t3] /\
    category t1 = "api_" +:+ JS.to_string (productName t1) /\
    Str.startsWith "api_" (method t1) = true /\
    (exists c, first_char (method t1) = Some c /\ is_letter c = true).
Proof.
  destruct users_operations_classified as (t1 & t2 & t3 & Hg & _).
  exists t1, t2, t3. split; [exact Hg|].
  apply (proj2 (tool_names_prefixed Sample.regexp_ok Sample.StringToNumber
                  Sample.yaml_load Sample.HttpMethods Sample.toUpperCase _)
           5%nat _ t1 Hg).
  by left.
Defined.

(** * The further properties on the samples *)

Module RunMore.

Abbreviation collectAll :=
  (getAllProductSpecsContent Sample.StringToNumber Sample.JSON_stringify).
Abbreviation listAll :=
  (listProducts Sample.StringToNumber Sample.JSON_stringify).

End RunMore.
Import RunMore.

(** The collector on a listing of one product with one spec: three
    requests, and the spec text under its path. *)
Lemma collector_run :
  let (r, st) := collectAll (Sample.warm Sample.api Sample.listing) in
  r = Ok [(VStr "shop",
           [("projects/p/locations/l/apis/orders/versions/v1/specs/openapi",
             Sample.spec_text)])] /\
  map c_url (sent (world st)) =
    ["https://mcp.example/products";
     "https://mcp.example/products/shop/specs";
     "https://mcp.example/products/shop/specs/projects/p/locations/l/apis/orders/versions/v1/specs/openapi"].
Proof. by vm_compute. Qed.

(** The operation of [unnamed], a document without servers. *)
Lemma unnamed_operation_tool :
  exists t,
    generate 5 [(VStr "shop", [(VStr "specs/u", VStr "unnamed.yaml")])]
      = Some [t] /\
    targetServer (executionDetails t) = VUndef.
Proof. eexists. by vm_compute. Qed.

Lemma resolveReference_pointer_to_witness :
  resolveReference Sample.users
    (VStr "#/paths/~1users~1{id}/get/operationId") = Ok (VStr "get-user").
Proof.
  apply (resolveReference_pointer_to Sample.users
           ["paths"; "/users/{id}"; "get"; "operationId"] (VStr "get-user"));
    [discriminate|reflexivity|reflexivity].
Defined.

Lemma optional_parameter_is_optional_witness :
  mapType 2 Sample.limit_parameter Sample.users ∅
    = Some (Ok (ZodOptional (ZodNumber true VUndef) VUndef)) /\
  exists inner, ZodOptional (ZodNumber true VUndef) VUndef = Zod.optional inner.
Proof.
  assert (mapType 2 Sample.limit_parameter Sample.users ∅
          = Some (Ok (ZodOptional (ZodNumber true VUndef) VUndef))) as E
    by (by vm_compute).
  split; [exact E|].
  exact (optional_parameter_is_optional Sample.regexp_ok 2
           Sample.limit_parameter Sample.users ∅ _ eq_refl eq_refl E).
Defined.

Lemma parameter_description_precedence_witness :
  mapType 2 Sample.described_parameter Sample.users ∅
    = Some (Ok (ZodString [] (VStr "The user"))) /\
  exists z0,
    ZodString [] (VStr "The user")
      = optional_if (isOptionalOf Sample.described_parameter) z0 /\
    Zod.description z0 = VStr "The user".
Proof.
  assert (mapType 2 Sample.described_parameter Sample.users ∅
          = Some (Ok (ZodString [] (VStr "The user")))) as E
    by (by vm_compute).
  split; [exact E|].
  destruct (parameter_description_precedence Sample.regexp_ok 2
              Sample.described_parameter Sample.users ∅ _ eq_refl eq_refl E)
    as (z0 & Hz & Hd & _).
  exists z0. split; [exact Hz|]. apply Hd. reflexivity.
Defined.

Lemma nullable_schema_admits_null_witness :
  mapType 2 Sample.nullable_string Sample.users ∅
    = Some (Ok (Zod.union [Zod.string; Zod.null])) /\
  exists z0,
    isAlreadyNullable z0 = true /\
    Zod.union [Zod.string; Zod.null] = optional_if false z0.
Proof.
  assert (mapType 2 Sample.nullable_string Sample.users ∅
          = Some (Ok (Zod.union [Zod.string; Zod.null]))) as E
    by (by vm_compute).
  split; [exact E|].
  exact (nullable_schema_admits_null Sample.regexp_ok 2
           Sample.nullable_string Sample.users ∅ _ eq_refl
           (or_introl eq_refl) E).
Defined.

Lemma string_schema_throws_witness :
  exists e, mapType 1 Sample.bounded_enum Sample.users ∅ = Some (Throw e).
Proof.
  apply (proj2 (string_schema_throws Sample.regexp_ok 0 Sample.bounded_enum
                  Sample.users ∅ eq_refl eq_refl eq_refl eq_refl)).
  right; left. reflexivity.
Defined.

Lemma generated_tool_provenance_witness :
  exists t1 t2 t3,
    generate 5 [(VStr "shop", [(VStr "specs/a", VStr "users.yaml")])]
      = Some [t1; t2; t3] /\
    exists specMap specContent spec path verb,
      In (productName t1, specMap)
        [(VStr "shop", [(VStr "specs/a", VStr "users.yaml")])] /\
      In (specPath t1, specContent) specMap /\
      Sample.yaml_load specContent = Ok spec /\
      In path (JS.keys (JS.get "paths" spec)) /\
      In verb Sample.HttpMethods /\
      JS.truthy (JS.get verb (JS.get path (JS.get "paths" spec))) = true /\
      apiPath (executionDetails t1) = VStr path /\
      httpMethod (executionDetails t1) = VStr verb /\
      targetServer (executionDetails t1)
        = get_opt "url" (get_opt "0" (JS.get "servers" spec)).
Proof.
  destruct users_operations_classified as (t1 & t2 & t3 & Hg & _).
  exists t1, t2, t3. split; [exact Hg|].
  apply (generated_tool_provenance Sample.regexp_ok Sample.StringToNumber
           Sample.yaml_load Sample.HttpMethods Sample.toUpperCase 5 _ _ t1 Hg).
  by left.
Defined.

Lemma generated_tool_needs_server_witness :
  exists t,
    generate 5 [(VStr "shop", [(VStr "specs/u", VStr "unnamed.yaml")])]
      = Some [t] /\
    forall st,
      execute {| in_method := method t; in_parameters := VObj [];
                 getAuthenticationHeaders := ret (VObj []);
                 in_executionDetails := executionDetails t |} st =
      (Throw (JsError ("Target server URL is missing for tool '"
                       +:+ method t +:+ "'.")), st).
Proof.
  destruct unnamed_operation_tool as (t & Hg & Hs).
  exists t. split; [exact Hg|]. intros st.
  apply (proj2 (generated_tool_needs_server Sample.regexp_ok
                  Sample.StringToNumber Sample.yaml_load Sample.HttpMethods
                  Sample.toUpperCase Sample.JSON_stringify 5 _ _ t Hg
                  ltac:(by left))).
  - reflexivity.
  - by rewrite Hs.
Defined.


Lemma generated_names_apart_witness :
  exists t1 t2 t3,
    generate 5 [(VStr "shop", [(VStr "specs/a", VStr "users.yaml")])]
      = Some [t1; t2; t3] /\
    method t1 <> "listProducts" /\ category t1 <> "products".
Proof.
  destruct users_operations_classified as (t1 & t2 & t3 & Hg & _).
  exists t1, t2, t3. split; [exact Hg|].
  apply (generated_names_apart Sample.regexp_ok Sample.StringToNumber
           Sample.yaml_load Sample.HttpMethods Sample.toUpperCase 5 _ _ t1
           {| ct_method := "listProducts";
              ct_name := "List Products";
              ct_description :=
                "Retrieves a list of available API Product names from the MCP.";
              ct_parameters := listProductsParameters;
              ct_category := "products" |} Hg);
    by left.
Defined.

Lemma executor_requests_witness :
  let st := Sample.warm Sample.api [(5, Response 200 [] VNull)] in
  exists d r st2,
    draftRequest Sample.get_user = Ok d /\
    execute Sample.get_user st = (r, st2) /\
    this st2 = this st /\
    sent (world st2) =
      [executorRequest Sample.get_user d
         (Sample.obj [("Authorization", VStr "Bearer t0")])].
Proof.
  intros st.
  destruct (proj1 (proj2 (executor_requests Sample.JSON_stringify
                            Sample.get_user st) eq_refl _ get_user_request)
              (Sample.obj [("Authorization", VStr "Bearer t0")]) st eq_refl)
    as (r & st2 & E & Ht & Hs).
  eexists _, r, st2. split; [exact get_user_request|]. by repeat split.
Defined.

Lemma authentication_headers_win_witness :
  let d := {| d_url := "https://api.example/users/42";
              d_queryParams := [];
              d_headers := [("Content-Type", VStr "application/json");
                            ("Accept", VStr "application/json");
                            ("Authorization", VStr "Bearer forged")] |} in
  let request :=
    executorRequest Sample.get_user d
      (VObj [("Authorization", VStr "Bearer t0")]) in
  JS.assoc "Authorization" (c_headers request) = Some (VStr "Bearer t0") /\
  JS.assoc "Accept" (c_headers request) = Some (VStr "application/json").
Proof.
  intros d request. subst request.
  assert (List.NoDup (map fst [("Authorization", VStr "Bearer t0")])) as Hnd.
  { constructor; [by intros []|constructor]. }
  split.
  - exact (authentication_headers_win Sample.get_user d _ "Authorization" Hnd
             eq_refl).
  - exact (authentication_headers_win Sample.get_user d _ "Accept" Hnd eq_refl).
Defined.

Lemma request_carries_declared_arguments_witness :
  exists d,
    draftRequest Sample.get_user = Ok d /\
    JS.assoc "limit" (d_queryParams d) = None /\
    JS.assoc "id" (d_queryParams d) = None /\
    JS.assoc "Accept" (d_headers d) = Some (VStr "application/json").
Proof.
  eexists. split; [exact get_user_request|].
  split; [|split].
  - exact (proj1 (request_carries_declared_arguments Sample.get_user _ "limit"
                    get_user_request (ex_intro _ _ eq_refl) eq_refl)).
  - exact (proj1 (request_carries_declared_arguments Sample.get_user _ "id"
                    get_user_request (ex_intro _ _ eq_refl) eq_refl)).
  - exact (proj2 (request_carries_declared_arguments Sample.get_user _ "Accept"
                    get_user_request (ex_intro _ _ eq_refl) eq_refl)).
Defined.

Lemma makeRequest_sends_at_most_two_witness :
  let st := Sample.cold Sample.api
              [(5, Sample.token_reply "t1"); (5, Response 401 [] VNull)] in
  exists r st',
    request "/products" "GET" VNull st = (r, st') /\
    exists token,
      JS.truthy token = true /\
      sent (world st') =
        [tokenRequest Sample.api;
         apiRequest Sample.api token "/products" "GET" VNull].
Proof.
  intros st.
  destruct (request "/products" "GET" VNull st) as [r st'] eqn:E.
  exists r, st'. split; [reflexivity|].
  destruct (makeRequest_sends_at_most_two Sample.StringToNumber
              Sample.JSON_stringify "/products" "GET" VNull st r st' E)
    as [[Hf _]|[[Hf _]|[(_ & [e He] & Hs)|(_ & token & Ht & _ & Hs)]]].
  - discriminate Hf.
  - discriminate Hf.
  - exfalso. vm_compute in E. injection E as _ <-. discriminate Hs.
  - exists token. split; [exact Ht|exact Hs].
Defined.

Lemma makeRequest_error_messages_witness :
  let st := Sample.warm Sample.api [(5, Response 500 [] VNull)] in
  exists e st' msg,
    request "/products" "GET" VNull st = (Throw e, st') /\
    e = JsError msg /\
    (is_request_error msg \/ msg = "Cannot convert object to primitive value").
Proof.
  intros st.
  destruct (request "/products" "GET" VNull st) as [r st'] eqn:E.
  assert (exists e, r = Throw e) as [e ->].
  { vm_compute in E. injection E as <- _. eauto. }
  destruct (makeRequest_error_messages Sample.StringToNumber
              Sample.JSON_stringify "/products" "GET" VNull st e st' E)
    as (msg & He & Hm).
  exists e, st', msg. split; [reflexivity|]. split; [exact He|].
  destruct Hm as [Hm|[Hm _]]; [by left|by right].
Defined.

Lemma token_failure_is_a_setup_error_witness :
  let st := Sample.cold Sample.api [(5, Response 401 [] VNull)] in
  exists st1,
    request "/products" "GET" VNull st =
      (Throw (JsError
         "Request Setup Error: Token Error (Status 401): null. Check request parameters."),
       st1) /\
    sent (world st1) = [tokenRequest Sample.api] /\
    accessToken (this st1) = VNull.
Proof.
  intros st.
  destruct (getToken st) as [r st1] eqn:E.
  assert (r = Throw (JsError "Token Error (Status 401): null")) as ->.
  { vm_compute in E. by injection E as <- _. }
  destruct (token_failure_is_a_setup_error Sample.StringToNumber
              Sample.JSON_stringify "/products" "GET" VNull st _ st1 E)
    as (Hm & Hs & Ht & _).
  exists st1. by repeat split.
Defined.

Lemma only_unauthorized_invalidates_witness :
  let st := Sample.warm Sample.api [(5, Response 500 [] VNull)] in
  exists r st2,
    request "/products" "GET" VNull st = (r, st2) /\ this st2 = this st.
Proof.
  intros st.
  destruct (request "/products" "GET" VNull st) as [r st2] eqn:E.
  exists r, st2. split; [reflexivity|].
  apply (only_unauthorized_invalidates Sample.StringToNumber
           Sample.JSON_stringify "/products" "GET" VNull st (VStr "t0") st r st2);
    [reflexivity|exact E|].
  intros elapsed hs body rest. discriminate.
Defined.

Lemma token_failure_messages_witness :
  let st := Sample.cold Sample.api [(5, Response 401 [] VNull)] in
  getToken st =
  (Throw (JsError "Token Error (Status 401): null"),
   {| this := wiped Sample.api;
      world := deliver (tokenRequest Sample.api) 5 [] (world st) |}).
Proof.
  intros st.
  exact (proj1 (token_failure_messages Sample.StringToNumber
                  Sample.JSON_stringify st eq_refl)
           5 401 [] VNull [] eq_refl eq_refl).
Defined.

Lemma token_lifetime_window_witness :
  let st := Sample.cold Sample.api [(5, Sample.token_reply_for "t1" 20)] in
  exists st1,
    getToken st = (Ok (VStr "t1"), st1) /\
    tokenExpiry (this st1) = Some 21005 /\
    forall w,
      1005 <= now w ->
      exists r st2,
        getToken (advance w st1) = (r, st2) /\
        sent (world st2) = (sent w ++ [tokenRequest (this st1)])%list.
Proof.
  intros st.
  destruct (token_lifetime_window Sample.StringToNumber Sample.JSON_stringify
              st 5 200 []
              (Sample.obj [("access_token", VStr "t1"); ("expires_in", VNum 20)])
              [] 20 eq_refl eq_refl eq_refl eq_refl eq_refl eq_refl
              ltac:(lia) ltac:(by vm_compute))
    as (st1 & E & He & _ & _ & Hshort).
  exists st1. split; [exact E|]. split; [exact He|].
  apply Hshort. lia.
Defined.

Lemma empty_names_send_nothing_witness :
  let st := Sample.cold Sample.api [(5, Sample.token_reply "t1")] in
  listProductSpecs Sample.StringToNumber Sample.JSON_stringify (VStr "") st =
    (Throw (JsError "productName is required for listProductSpecs"), st) /\
  forall r st',
    getCached "shop" "" st = (r, st') -> world st' = world st.
Proof.
  intros st.
  pose proof (empty_names_send_nothing Sample.StringToNumber
                Sample.JSON_stringify st) as [Hl Hc].
  split; [exact (Hl (VStr "") eq_refl)|].
  intros r st' E.
  exact (proj1 (Hc "shop" "" r st' (or_intror eq_refl) E)).
Defined.

Lemma cache_read_keeps_other_entries_witness :
  let st := Sample.warm Sample.api [(5, Response 200 [] Sample.spec_text)] in
  exists r st',
    getCached "shop" "specs/a" st = (r, st') /\
    specCache (this st') !! "shop::specs/b" = specCache (this st) !! "shop::specs/b".
Proof.
  intros st.
  destruct (getCached "shop" "specs/a" st) as [r st'] eqn:E.
  exists r, st'. split; [reflexivity|].
  apply (cache_read_keeps_other_entries Sample.StringToNumber
           Sample.JSON_stringify "shop" "specs/a" st r st' "shop::specs/b" E).
  discriminate.
Defined.

Lemma failed_refresh_evicts_witness :
  let expired := {| content := Sample.spec_text; expiry := 500 |} in
  let st :=
    swap_cache (<["shop::specs/a" := expired]> ∅)
      (Sample.warm Sample.api [(5, Response 500 [] VNull)]) in
  specCache (this st) !! "shop::specs/a" = Some expired /\
  exists e st',
    getCached "shop" "specs/a" st = (Throw e, st') /\
    specCache (this st') !! "shop::specs/a" = None.
Proof.
  intros expired st. split; [by vm_compute|].
  destruct (getCached "shop" "specs/a" st) as [r st'] eqn:E.
  assert (exists e, r = Throw e) as [e ->].
  { vm_compute in E. injection E as <- _. eauto. }
  exists e, st'. split; [reflexivity|].
  destruct (failed_refresh_evicts Sample.StringToNumber Sample.JSON_stringify
              "shop" "specs/a" st e st' ltac:(reflexivity) E)
    as [[_ H]|(fetched & st1 & Eg & _)]; [exact H|].
  exfalso. vm_compute in Eg. discriminate Eg.
Defined.

Lemma cacheKeyOf_injective_witness :
  cacheKeyOf "shop" "specs/a" = "shop::specs/a" /\
  ("shop" = "shop" /\ "specs/a" = "specs/a").
Proof.
  split; [reflexivity|].
  exact (cacheKeyOf_injective "shop" "specs/a" "shop" "specs/a"
           eq_refl eq_refl eq_refl).
Defined.

Lemma collector_survives_product_failures_witness :
  let st := Sample.warm Sample.api
              [(5, Response 200 [] Sample.product_list);
               (5, Response 500 [] VNull)] in
  exists m st2, collectAll st = (Ok m, st2).
Proof.
  intros st.
  destruct (listAll st) as [r st1] eqn:E.
  assert (r = Ok Sample.product_list) as ->.
  { vm_compute in E. by injection E as <- _. }
  apply (proj1 (collector_survives_product_failures Sample.StringToNumber
                  Sample.JSON_stringify st) Sample.product_list st1 E
           ltac:(discriminate) ltac:(discriminate)).
  reflexivity.
Defined.

Lemma collector_has_an_entry_per_product_witness :
  let st := Sample.warm Sample.api Sample.listing in
  exists m st2,
    collectAll st = (Ok m, st2) /\
    forall k, In k (map fst m) <-> In k [VStr "shop"].
Proof.
  intros st.
  destruct (listAll st) as [r st1] eqn:E.
  assert (r = Ok Sample.product_list) as ->.
  { vm_compute in E. by injection E as <- _. }
  destruct (collectAll st) as [r2 st2] eqn:E2.
  assert (exists m, r2 = Ok m) as [m ->].
  { vm_compute in E2. injection E2 as <- _. eauto. }
  exists m, st2. split; [reflexivity|].
  exact (proj1 (collector_has_an_entry_per_product Sample.StringToNumber
                  Sample.JSON_stringify st Sample.product_list st1 m st2 E E2)).
Defined.

Lemma collector_keeps_configuration_witness :
  let st := Sample.warm Sample.api Sample.listing in
  exists r st',
    collectAll st = (r, st') /\
    getBaseUrl st' = (Ok "https://mcp.example", st').
Proof.
  intros st.
  destruct (collectAll st) as [r st'] eqn:E.
  exists r, st'. split; [reflexivity|].
  exact (proj2 (collector_keeps_configuration Sample.StringToNumber
                  Sample.JSON_stringify st r st' E)).
Defined.

Lemma arguments_add_no_reserved_character_witness :
  exists d,
    draftRequest Sample.get_admin = Ok d /\
    d_url d = "https://api.example/users/..%2Fadmin" /\
    (count_char "/" (d_url d) <= 4)%nat.
Proof.
  assert (draftRequest Sample.get_admin =
          Ok {| d_url := "https://api.example/users/..%2Fadmin";
                d_queryParams := [];
                d_headers := defaultHeaders |}) as E by (by vm_compute).
  eexists. split; [exact E|]. split; [reflexivity|].
  exact (arguments_add_no_reserved_character Sample.get_admin _ "/" E eq_refl).
Defined.
